(** * LTE_SWD fleet server (R1): a shallow embedding of the backend

    The development follows the Go packages of [backend/server/internal]:
    [util] (random tokens), [model] (entities), [store] (the state store and
    its snapshot file), [auth] (operator sessions), [httpapi] (rate limiter
    and login guard) and [config] (environment loading).  Maps are stdpp
    [gmap]s keyed by strings, Go's [int], [int64] and [time.Duration] are
    integers in [Z], a [time.Time] is a number of nanoseconds, and a
    [[]byte] is a list of bytes. *)

From Stdlib Require Import ZArith Lia List PrimFloat.
From Stdlib.Strings Require Import Ascii String Byte.
From stdpp Require Import base option list gmap strings sorting.

Local Open Scope Z_scope.

(** ** Go's [time] package, as far as the server uses it *)

Module GoTime.

(** A [time.Time] without monotonic reading (every instant the server
    handles went through [UTC()]): nanoseconds since the Unix epoch. *)
Definition Time : Type := Z.

(** A [time.Duration]: a signed 64-bit count of nanoseconds. *)
Definition Duration : Type := Z.

Definition minDuration : Duration := - 2 ^ 63.
Definition maxDuration : Duration := 2 ^ 63 - 1.

Definition Nanosecond : Duration := 1.
Definition Second : Duration := 1000000000.
Definition Minute : Duration := 60 * Second.
Definition Hour : Duration := 60 * Minute.

(** The zero value [time.Time{}]: January 1 of year 1, 00:00 UTC. *)
Definition zeroTime : Time := - 62135596800 * Second.

(** [t.Sub(u)]: the difference, saturated to the range of [Duration]. *)
Definition Sub (t u : Time) : Duration :=
  if maxDuration <? t - u then maxDuration
  else if t - u <? minDuration then minDuration
  else t - u.

Definition Add (t : Time) (d : Duration) : Time := t + d.
Definition After (t u : Time) : bool := u <? t.
Definition Before (t u : Time) : bool := t <? u.

(** [int(d.Seconds())] as the login handler uses it.  [Seconds] goes
    through [float64]; for durations of less than 2^24 seconds the
    conversion and the truncation are exact, which is integer division
    truncated towards zero. *)
Definition whole_seconds (d : Duration) : Z := Z.quot d Second.

End GoTime.

(** ** Bytes, hexadecimal text, SHA-256 *)

Definition bytes : Type := list byte.

Definition byte_to_Z (b : byte) : Z := Z.of_N (Byte.to_N b).

Definition Z_to_byte (z : Z) : byte :=
  match Byte.of_N (Z.to_N (z mod 256)) with
  | Some b => b
  | None => x00
  end.

(** [[]byte(s)] and [string(b)]: a Go string is its bytes. *)
Definition bytes_of_string (s : string) : bytes := String.list_byte_of_string s.
Definition string_of_bytes (b : bytes) : string := String.string_of_list_byte b.

Module Hex.

Definition hextable : string := "0123456789abcdef".

Definition digit (n : Z) : ascii :=
  match String.get (Z.to_nat n) hextable with
  | Some c => c
  | None => "0"%char
  end.

(** [hex.EncodeToString]: two lower-case digits per byte, high nibble
    first. *)
Fixpoint EncodeToString (src : bytes) : string :=
  match src with
  | [] => EmptyString
  | b :: rest =>
      String (digit (Z.shiftr (byte_to_Z b) 4))
        (String (digit (Z.land (byte_to_Z b) 15)) (EncodeToString rest))
  end.

End Hex.

(** [crypto/sha256.Sum256] (FIPS 180-4), on 32-bit words held in [Z]. *)
Module SHA256.

Definition w32 (x : Z) : Z := x mod 2 ^ 32.
Definition add32 (x y : Z) : Z := w32 (x + y).
Definition rotr (n x : Z) : Z :=
  Z.lor (Z.shiftr x n) (w32 (Z.shiftl x (32 - n))).
Definition not32 (x : Z) : Z := w32 (Z.lnot x).

Definition Ch (x y z : Z) : Z := Z.lxor (Z.land x y) (Z.land (not32 x) z).
Definition Maj (x y z : Z) : Z :=
  Z.lxor (Z.lxor (Z.land x y) (Z.land x z)) (Z.land y z).
Definition bsig0 (x : Z) : Z :=
  Z.lxor (Z.lxor (rotr 2 x) (rotr 13 x)) (rotr 22 x).
Definition bsig1 (x : Z) : Z :=
  Z.lxor (Z.lxor (rotr 6 x) (rotr 11 x)) (rotr 25 x).
Definition ssig0 (x : Z) : Z :=
  Z.lxor (Z.lxor (rotr 7 x) (rotr 18 x)) (Z.shiftr x 3).
Definition ssig1 (x : Z) : Z :=
  Z.lxor (Z.lxor (rotr 17 x) (rotr 19 x)) (Z.shiftr x 10).

(** The constants are fractional parts of roots of the first primes. *)
Definition is_prime (p : Z) : bool :=
  (2 <=? p)
  && forallb (λ d, negb (p mod Z.of_nat d =? 0)) (seq 2 (Z.to_nat p - 2)).

Definition first_primes (n : nat) : list Z :=
  firstn n (filter (λ p, is_prime p = true) (map Z.of_nat (seq 2 400))).

(** The integer cube root, one bit at a time from bit [bits - 1] down. *)
Fixpoint icbrt (bits : nat) (n r : Z) : Z :=
  match bits with
  | O => r
  | S b =>
      let c := r + 2 ^ Z.of_nat b in
      icbrt b n (if c * c * c <=? n then c else r)
  end.

(** The first 32 bits of the fractional part of the cube root of each of
    the first 64 primes. *)
Definition K : list Z :=
  Eval vm_compute in
    map (λ p, icbrt 40 (p * 2 ^ 96) 0 mod 2 ^ 32) (first_primes 64).

(** The same of the square root of each of the first 8 primes. *)
Definition H0 : list Z :=
  Eval vm_compute in
    map (λ p, Z.sqrt (p * 2 ^ 64) mod 2 ^ 32) (first_primes 8).

(** Big-endian encoding of [x] on [n] bytes. *)
Fixpoint be_bytes (n : nat) (x : Z) : list Z :=
  match n with
  | O => []
  | S m => (Z.shiftr x (8 * Z.of_nat m)) mod 256 :: be_bytes m x
  end.

(** The padded message: a [0x80] byte, zeros up to 56 modulo 64, and the
    length in bits on eight bytes. *)
Definition pad (msg : list Z) : list Z :=
  let len := Z.of_nat (length msg) in
  let zeros := Z.to_nat ((55 - len) mod 64) in
  msg ++ 0x80 :: repeat 0 zeros ++ be_bytes 8 (8 * len).

Fixpoint words (fuel : nat) (bs : list Z) : list Z :=
  match fuel, bs with
  | S fuel, b0 :: b1 :: b2 :: b3 :: rest =>
      (Z.shiftl b0 24 + Z.shiftl b1 16 + Z.shiftl b2 8 + b3)
        :: words fuel rest
  | _, _ => []
  end.

(** The message schedule beyond the first sixteen words; [win] holds the
    sixteen words before the next one. *)
Fixpoint schedule (n : nat) (win : list Z) : list Z :=
  match n with
  | O => []
  | S n =>
      let w := add32 (add32 (ssig1 (nth 14 win 0)) (nth 9 win 0))
                     (add32 (ssig0 (nth 1 win 0)) (nth 0 win 0)) in
      w :: schedule n (tl win ++ [w])
  end.

Definition round (st : list Z) (kw : Z * Z) : list Z :=
  match st with
  | [a; b; c; d; e; f; g; h] =>
      let t1 := add32 (add32 (add32 h (bsig1 e)) (Ch e f g))
                      (add32 (fst kw) (snd kw)) in
      let t2 := add32 (bsig0 a) (Maj a b c) in
      [add32 t1 t2; a; b; c; add32 d t1; e; f; g]
  | _ => st
  end.

Definition block (h : list Z) (blk : list Z) : list Z :=
  let w16 := words 16 blk in
  let w := w16 ++ schedule 48 w16 in
  let out := fold_left round (combine K w) h in
  map (fun p => add32 (fst p) (snd p)) (combine h out).

Fixpoint blocks (fuel : nat) (h : list Z) (bs : list Z) : list Z :=
  match fuel, bs with
  | S fuel, _ :: _ => blocks fuel (block h (firstn 64 bs)) (skipn 64 bs)
  | _, _ => h
  end.

Definition Sum256 (data : bytes) : bytes :=
  let padded := pad (map byte_to_Z data) in
  let h := blocks (length padded) H0 padded in
  map Z_to_byte (flat_map (be_bytes 4) h).

End SHA256.

(** The digest is computed with [vm_compute] only; proofs never unfold it. *)
#[global] Opaque SHA256.Sum256.

(** ** Package [util] *)

Module Util.

(** The outcome of [rand.Read]: [None] when the generator fails, else the
    stream the buffer is filled from. *)
Definition entropy : Type := option (nat → byte).

(** [RandomToken(prefix, randomBytes)]. *)
Definition RandomToken (prefix : string) (randomBytes : nat)
    (rng : entropy) : string :=
  match rng with
  | None => prefix +:+ "_fallback"
  | Some src =>
      prefix +:+ "_" +:+ Hex.EncodeToString (map src (seq 0 randomBytes))
  end.

End Util.

(** ** Package [model] *)

Module Model.
Import GoTime.

Definition DeviceStatus : Type := string.
Definition DeviceStatusOnline : DeviceStatus := "online".
Definition DeviceStatusOffline : DeviceStatus := "offline".

Definition CommandStatus : Type := string.
Definition CommandQueued : CommandStatus := "queued".
Definition CommandDispatched : CommandStatus := "dispatched".
Definition CommandSuccess : CommandStatus := "success".
Definition CommandFailed : CommandStatus := "failed".

(** An [interface{}] as [encoding/json] decodes it. *)
#[local] Unset Elimination Schemes.
Inductive any : Type :=
| ANil
| ABool (b : bool)
| ANumber (f : float)
| AString (s : string)
| AArray (items : list any)
| AObject (fields : list (string * any)).
#[local] Set Elimination Schemes.

(** A [map[string]interface{}] that may be [nil]. *)
Definition StringAny : Type := option (gmap string any).

Module Telemetry.
Record t : Type := mk {
  BatteryMV : Z;
  SupplyMV : Z;
  TemperatureC : float;
  RSSIDBM : Z;
  NetworkState : string;
  UptimeSec : Z;
  Extra : StringAny
}.
Definition set_Extra (x : t) (v : StringAny) : t :=
  mk (BatteryMV x) (SupplyMV x) (TemperatureC x) (RSSIDBM x)
     (NetworkState x) (UptimeSec x) v.
End Telemetry.

Module Location.
Record t : Type := mk {
  Lat : float;
  Lon : float;
  AltM : float;
  AccuracyM : float;
  Source : string
}.
End Location.

Module Device.
Record t : Type := mk {
  DeviceID : string;
  HWUID : string;
  ModemIMEI : string;
  SimICCID : string;
  FirmwareVersion : string;
  DeviceToken : string;
  RegisteredAt : Time;
  LastSeenAt : Time;
  LastHeartbeatAt : Time;
  LastTelemetryAt : Time;
  LastLocationAt : Time;
  LastTelemetry : option Telemetry.t;
  LastLocation : option Location.t;
  Status : DeviceStatus
}.

(** Field assignments [d.F = v]. *)
Definition set_HWUID (d : t) (v : string) : t :=
  mk (DeviceID d) v (ModemIMEI d) (SimICCID d) (FirmwareVersion d)
     (DeviceToken d) (RegisteredAt d) (LastSeenAt d) (LastHeartbeatAt d)
     (LastTelemetryAt d) (LastLocationAt d) (LastTelemetry d)
     (LastLocation d) (Status d).
Definition set_ModemIMEI (d : t) (v : string) : t :=
  mk (DeviceID d) (HWUID d) v (SimICCID d) (FirmwareVersion d)
     (DeviceToken d) (RegisteredAt d) (LastSeenAt d) (LastHeartbeatAt d)
     (LastTelemetryAt d) (LastLocationAt d) (LastTelemetry d)
     (LastLocation d) (Status d).
Definition set_SimICCID (d : t) (v : string) : t :=
  mk (DeviceID d) (HWUID d) (ModemIMEI d) v (FirmwareVersion d)
     (DeviceToken d) (RegisteredAt d) (LastSeenAt d) (LastHeartbeatAt d)
     (LastTelemetryAt d) (LastLocationAt d) (LastTelemetry d)
     (LastLocation d) (Status d).
Definition set_FirmwareVersion (d : t) (v : string) : t :=
  mk (DeviceID d) (HWUID d) (ModemIMEI d) (SimICCID d) v
     (DeviceToken d) (RegisteredAt d) (LastSeenAt d) (LastHeartbeatAt d)
     (LastTelemetryAt d) (LastLocationAt d) (LastTelemetry d)
     (LastLocation d) (Status d).
Definition set_LastSeenAt (d : t) (v : Time) : t :=
  mk (DeviceID d) (HWUID d) (ModemIMEI d) (SimICCID d) (FirmwareVersion d)
     (DeviceToken d) (RegisteredAt d) v (LastHeartbeatAt d)
     (LastTelemetryAt d) (LastLocationAt d) (LastTelemetry d)
     (LastLocation d) (Status d).
Definition set_LastHeartbeatAt (d : t) (v : Time) : t :=
  mk (DeviceID d) (HWUID d) (ModemIMEI d) (SimICCID d) (FirmwareVersion d)
     (DeviceToken d) (RegisteredAt d) (LastSeenAt d) v
     (LastTelemetryAt d) (LastLocationAt d) (LastTelemetry d)
     (LastLocation d) (Status d).
Definition set_LastTelemetryAt (d : t) (v : Time) : t :=
  mk (DeviceID d) (HWUID d) (ModemIMEI d) (SimICCID d) (FirmwareVersion d)
     (DeviceToken d) (RegisteredAt d) (LastSeenAt d) (LastHeartbeatAt d)
     v (LastLocationAt d) (LastTelemetry d) (LastLocation d) (Status d).
Definition set_LastLocationAt (d : t) (v : Time) : t :=
  mk (DeviceID d) (HWUID d) (ModemIMEI d) (SimICCID d) (FirmwareVersion d)
     (DeviceToken d) (RegisteredAt d) (LastSeenAt d) (LastHeartbeatAt d)
     (LastTelemetryAt d) v (LastTelemetry d) (LastLocation d) (Status d).
Definition set_LastTelemetry (d : t) (v : option Telemetry.t) : t :=
  mk (DeviceID d) (HWUID d) (ModemIMEI d) (SimICCID d) (FirmwareVersion d)
     (DeviceToken d) (RegisteredAt d) (LastSeenAt d) (LastHeartbeatAt d)
     (LastTelemetryAt d) (LastLocationAt d) v (LastLocation d) (Status d).
Definition set_LastLocation (d : t) (v : option Location.t) : t :=
  mk (DeviceID d) (HWUID d) (ModemIMEI d) (SimICCID d) (FirmwareVersion d)
     (DeviceToken d) (RegisteredAt d) (LastSeenAt d) (LastHeartbeatAt d)
     (LastTelemetryAt d) (LastLocationAt d) (LastTelemetry d) v (Status d).
Definition set_Status (d : t) (v : DeviceStatus) : t :=
  mk (DeviceID d) (HWUID d) (ModemIMEI d) (SimICCID d) (FirmwareVersion d)
     (DeviceToken d) (RegisteredAt d) (LastSeenAt d) (LastHeartbeatAt d)
     (LastTelemetryAt d) (LastLocationAt d) (LastTelemetry d)
     (LastLocation d) v.
End Device.

Module TelemetryRecord.
Record t : Type := mk {
  DeviceID : string;
  Timestamp : Time;
  Data : Telemetry.t
}.
End TelemetryRecord.

Module CommandResult.
Record t : Type := mk {
  Status : CommandStatus;
  Message : string;
  Metrics : StringAny;
  Data : StringAny
}.
Definition set_Status (r : t) (v : CommandStatus) : t :=
  mk v (Message r) (Metrics r) (Data r).
End CommandResult.

Module Command.
Record t : Type := mk {
  CommandID : string;
  DeviceID : string;
  Type_ : string;
  Payload : bytes;
  CreatedBy : string;
  CreatedAt : Time;
  DispatchedAt : option Time;
  CompletedAt : option Time;
  Status : CommandStatus;
  Result : option CommandResult.t
}.
Definition set_DispatchedAt (c : t) (v : option Time) : t :=
  mk (CommandID c) (DeviceID c) (Type_ c) (Payload c) (CreatedBy c)
     (CreatedAt c) v (CompletedAt c) (Status c) (Result c).
Definition set_CompletedAt (c : t) (v : option Time) : t :=
  mk (CommandID c) (DeviceID c) (Type_ c) (Payload c) (CreatedBy c)
     (CreatedAt c) (DispatchedAt c) v (Status c) (Result c).
Definition set_Status (c : t) (v : CommandStatus) : t :=
  mk (CommandID c) (DeviceID c) (Type_ c) (Payload c) (CreatedBy c)
     (CreatedAt c) (DispatchedAt c) (CompletedAt c) v (Result c).
Definition set_Result (c : t) (v : option CommandResult.t) : t :=
  mk (CommandID c) (DeviceID c) (Type_ c) (Payload c) (CreatedBy c)
     (CreatedAt c) (DispatchedAt c) (CompletedAt c) (Status c) v.
End Command.

Module Artifact.
Record t : Type := mk {
  ArtifactID : string;
  Name : string;
  ContentType : string;
  CreatedBy : string;
  CreatedAt : Time;
  Payload : bytes;
  PayloadSHA256 : string
}.
End Artifact.

Record PersistedState : Type := mkPersistedState {
  Devices : gmap string Device.t;
  TelemetryByID : gmap string (list TelemetryRecord.t);
  CommandsByID : gmap string (list Command.t);
  Artifacts : gmap string Artifact.t
}.

Definition set_Devices (st : PersistedState) (v : gmap string Device.t) :=
  mkPersistedState v (TelemetryByID st) (CommandsByID st) (Artifacts st).
Definition set_TelemetryByID (st : PersistedState)
    (v : gmap string (list TelemetryRecord.t)) :=
  mkPersistedState (Devices st) v (CommandsByID st) (Artifacts st).
Definition set_CommandsByID (st : PersistedState)
    (v : gmap string (list Command.t)) :=
  mkPersistedState (Devices st) (TelemetryByID st) v (Artifacts st).
Definition set_Artifacts (st : PersistedState) (v : gmap string Artifact.t) :=
  mkPersistedState (Devices st) (TelemetryByID st) (CommandsByID st) v.

(** [cloneMap]: a fresh map with the bindings of [src]; values are shared.
    As a value the copy equals the original. *)
Definition cloneMap (src : StringAny) : StringAny :=
  match src with
  | None => None
  | Some m => Some (map_fold (λ k v out, <[k:=v]> out) ∅ m)
  end.

(** [CloneDevice], on a device that is not [nil]. *)
Definition CloneDevice (src : Device.t) : Device.t :=
  let out := src in
  let out :=
    match Device.LastTelemetry src with
    | Some telemetry =>
        let telemetry :=
          match Telemetry.Extra telemetry with
          | Some _ =>
              Telemetry.set_Extra telemetry
                (cloneMap (Telemetry.Extra telemetry))
          | None => telemetry
          end in
        Device.set_LastTelemetry out (Some telemetry)
    | None => out
    end in
  match Device.LastLocation src with
  | Some location => Device.set_LastLocation out (Some location)
  | None => out
  end.

End Model.

(** ** Go's [sort.Slice] *)

Module Sort.

(** [sort.Slice(x, less)] leaves [x] as some permutation of itself in
    which no element is [less] than one before it; the algorithm is not
    specified (and not stable).  A merge sort stands for it. *)
Definition Slice {A : Type} (less : A → A → bool) (x : list A) : list A :=
  merge_sort (λ a b, Is_true (negb (less b a))) x.

End Sort.

(** ** Package [store] *)

Module Store.
Import GoTime Model.

Definition maxTelemetryHistory : Z := 500.

Inductive error : Type :=
| ErrFleetLimitReached
| ErrDeviceExistsWithOtherIdentity
| ErrDeviceNotFound
| ErrInvalidDeviceToken
| ErrCommandNotFound
| ErrArtifactNotFound
| ErrIO (context : string).

(** A Go result [(value, error)]. *)
Inductive result (A : Type) : Type :=
| Ok (a : A)
| Err (e : error).
Arguments Ok {A} a.
Arguments Err {A} e.

(** *** The snapshot file

    What a file holds is abstracted to the state its JSON text encodes;
    [Malformed] is any content [json.Unmarshal] rejects.  A key that is
    absent or [null] decodes to a [nil] map, which reads as the empty map
    [load] replaces it by. *)
Inductive FileContent : Type :=
| Malformed
| Snapshot (st : PersistedState).

(** The two paths the store touches: [dataFile] and [dataFile + ".tmp"];
    [None] is a path that does not exist. *)
Record FileSystem : Type := mkFileSystem {
  data_file : option FileContent;
  temp_file : option FileContent
}.

(** What the operating system answers to the calls of [persistLocked]:
    the first call that fails, if any.  A failed [os.WriteFile] leaves
    [residue] at the temporary path. *)
Inductive IO : Type :=
| IOSuccess
| MkdirAllFails
| MarshalFails
| WriteFileFails (residue : option FileContent)
| RenameFails.

Record StateStore : Type := mkStateStore {
  fleetLimit : Z;
  state : PersistedState;
  files : FileSystem
}.

Definition set_state (s : StateStore) (st : PersistedState) : StateStore :=
  mkStateStore (fleetLimit s) st (files s).
Definition set_files (s : StateStore) (fs : FileSystem) : StateStore :=
  mkStateStore (fleetLimit s) (state s) fs.

Definition emptyState : PersistedState := mkPersistedState ∅ ∅ ∅ ∅.

(** [load]; [readable = false] is an [os.ReadFile] error other than "does
    not exist". *)
Definition load (readable : bool) (s : StateStore) : StateStore * option error :=
  match data_file (files s) with
  | None => (s, None)
  | Some content =>
      if negb readable then (s, Some (ErrIO "read state file"))
      else
        match content with
        | Malformed => (s, Some (ErrIO "unmarshal state"))
        | Snapshot loaded => (set_state s loaded, None)
        end
  end.

(** [NewStateStore(dataFile, fleetLimit)] over the files [fs]. *)
Definition NewStateStore (fs : FileSystem) (readable : bool)
    (fleetLimit : Z) : result StateStore :=
  let s := mkStateStore fleetLimit emptyState fs in
  match load readable s with
  | (_, Some err) => Err err
  | (s, None) => Ok s
  end.

(** [persistLocked]: marshal the whole state, write it to the temporary
    file, rename that over the data file. *)
Definition persistLocked (io : IO) (s : StateStore) : StateStore * option error :=
  match io with
  | MkdirAllFails => (s, Some (ErrIO "create state dir"))
  | MarshalFails => (s, Some (ErrIO "marshal state"))
  | WriteFileFails residue =>
      (set_files s (mkFileSystem (data_file (files s)) residue),
       Some (ErrIO "write temp state"))
  | RenameFails =>
      (set_files s
         (mkFileSystem (data_file (files s)) (Some (Snapshot (state s)))),
       Some (ErrIO "replace state"))
  | IOSuccess =>
      (set_files s (mkFileSystem (Some (Snapshot (state s))) None), None)
  end.

Definition firstNonEmpty (primary secondary : string) : string :=
  if decide (primary ≠ "") then primary else secondary.

(** [s.state.Devices[deviceID] = device], also the effect of assigning
    through the pointer the map holds. *)
Definition put_device (s : StateStore) (deviceID : string)
    (device : Device.t) : StateStore :=
  set_state s (set_Devices (state s) (<[deviceID := device]> (Devices (state s)))).

Definition requireDeviceLocked (s : StateStore) (deviceID token : string)
    : result Device.t :=
  match Devices (state s) !! deviceID with
  | None => Err ErrDeviceNotFound
  | Some device =>
      if decide (Device.DeviceToken device ≠ token)
      then Err ErrInvalidDeviceToken
      else Ok device
  end.

(** [RegisterDevice]; [rng] feeds the token of a new device. *)
Definition RegisterDevice
    (deviceID hwUID modemIMEI simICCID firmwareVersion : string)
    (now : Time) (rng : Util.entropy) (io : IO) (s : StateStore)
    : StateStore * result (Device.t * bool) :=
  match Devices (state s) !! deviceID with
  | Some existing =>
      if bool_decide (Device.HWUID existing ≠ "")
           && bool_decide (hwUID ≠ "")
           && bool_decide (Device.HWUID existing ≠ hwUID)
         || bool_decide (Device.ModemIMEI existing ≠ "")
           && bool_decide (modemIMEI ≠ "")
           && bool_decide (Device.ModemIMEI existing ≠ modemIMEI)
      then (s, Err ErrDeviceExistsWithOtherIdentity)
      else
        let existing :=
          Device.set_HWUID existing
            (firstNonEmpty (Device.HWUID existing) hwUID) in
        let existing :=
          Device.set_ModemIMEI existing
            (firstNonEmpty (Device.ModemIMEI existing) modemIMEI) in
        let existing :=
          Device.set_SimICCID existing
            (firstNonEmpty (Device.SimICCID existing) simICCID) in
        let existing :=
          Device.set_FirmwareVersion existing
            (firstNonEmpty firmwareVersion (Device.FirmwareVersion existing)) in
        let existing := Device.set_LastSeenAt existing now in
        let existing := Device.set_LastHeartbeatAt existing now in
        let existing := Device.set_Status existing DeviceStatusOnline in
        match persistLocked io (put_device s deviceID existing) with
        | (s, Some err) => (s, Err err)
        | (s, None) => (s, Ok (CloneDevice existing, false))
        end
  | None =>
      if Z.of_nat (size (Devices (state s))) >=? fleetLimit s
      then (s, Err ErrFleetLimitReached)
      else
        let created :=
          Device.mk deviceID hwUID modemIMEI simICCID firmwareVersion
            (Util.RandomToken "dev" 16 rng) now now now zeroTime zeroTime
            None None DeviceStatusOnline in
        match persistLocked io (put_device s deviceID created) with
        | (s, Some err) => (s, Err err)
        | (s, None) => (s, Ok (CloneDevice created, true))
        end
  end.

Definition ValidateDeviceToken (deviceID deviceToken : string) (now : Time)
    (io : IO) (s : StateStore) : StateStore * result Device.t :=
  match Devices (state s) !! deviceID with
  | None => (s, Err ErrDeviceNotFound)
  | Some device =>
      if decide (Device.DeviceToken device ≠ deviceToken)
      then (s, Err ErrInvalidDeviceToken)
      else
        let device := Device.set_LastSeenAt device now in
        let device := Device.set_Status device DeviceStatusOnline in
        match persistLocked io (put_device s deviceID device) with
        | (s, Some err) => (s, Err err)
        | (s, None) => (s, Ok (CloneDevice device))
        end
  end.

Definition AddHeartbeat (deviceID deviceToken : string) (now : Time)
    (io : IO) (s : StateStore) : StateStore * option error :=
  match requireDeviceLocked s deviceID deviceToken with
  | Err err => (s, Some err)
  | Ok device =>
      let device := Device.set_LastSeenAt device now in
      let device := Device.set_LastHeartbeatAt device now in
      let device := Device.set_Status device DeviceStatusOnline in
      persistLocked io (put_device s deviceID device)
  end.

Definition AddTelemetry (deviceID deviceToken : string) (data : Telemetry.t)
    (now : Time) (io : IO) (s : StateStore) : StateStore * option error :=
  match requireDeviceLocked s deviceID deviceToken with
  | Err err => (s, Some err)
  | Ok device =>
      let record := TelemetryRecord.mk deviceID now data in
      let list :=
        default [] (TelemetryByID (state s) !! deviceID) ++ [record] in
      let list :=
        if Z.of_nat (length list) >? maxTelemetryHistory
        then drop (Z.to_nat (Z.of_nat (length list) - maxTelemetryHistory)) list
        else list in
      let s :=
        set_state s
          (set_TelemetryByID (state s)
             (<[deviceID := list]> (TelemetryByID (state s)))) in
      let copyTelemetry := data in
      let copyTelemetry :=
        match Telemetry.Extra copyTelemetry with
        | Some extra =>
            Telemetry.set_Extra copyTelemetry
              (Some (map_fold (λ k v copied, <[k:=v]> copied) ∅ extra))
        | None => copyTelemetry
        end in
      let device := Device.set_LastTelemetry device (Some copyTelemetry) in
      let device := Device.set_LastTelemetryAt device now in
      let device := Device.set_LastSeenAt device now in
      let device := Device.set_Status device DeviceStatusOnline in
      persistLocked io (put_device s deviceID device)
  end.

Definition AddLocation (deviceID deviceToken : string) (location : Location.t)
    (now : Time) (io : IO) (s : StateStore) : StateStore * option error :=
  match requireDeviceLocked s deviceID deviceToken with
  | Err err => (s, Some err)
  | Ok device =>
      let copyLocation := location in
      let device := Device.set_LastLocation device (Some copyLocation) in
      let device := Device.set_LastLocationAt device now in
      let device := Device.set_LastSeenAt device now in
      let device := Device.set_Status device DeviceStatusOnline in
      persistLocked io (put_device s deviceID device)
  end.

(** The status refresh shared by [ListDevices] and [GetDevice]:
    [if now.Sub(device.LastSeenAt) > offlineAfter] then offline, else
    online. *)
Definition refreshStatus (now : Time) (offlineAfter : Duration)
    (device : Device.t) : Device.t :=
  if Sub now (Device.LastSeenAt device) >? offlineAfter
  then Device.set_Status device DeviceStatusOffline
  else Device.set_Status device DeviceStatusOnline.

(** [ListDevices].  The loop visits the map in an unspecified order;
    [map_to_list] fixes one. *)
Definition ListDevices (now : Time) (offlineAfter : Duration) (io : IO)
    (s : StateStore) : StateStore * result (list Device.t) :=
  let devices := refreshStatus now offlineAfter <$> Devices (state s) in
  let out := CloneDevice <$> (map_to_list devices).*2 in
  let out :=
    Sort.Slice
      (λ a b, String.ltb (Device.DeviceID a) (Device.DeviceID b)) out in
  match persistLocked io (set_state s (set_Devices (state s) devices)) with
  | (s, Some err) => (s, Err err)
  | (s, None) => (s, Ok out)
  end.

Definition GetDevice (deviceID : string) (now : Time)
    (offlineAfter : Duration) (io : IO) (s : StateStore)
    : StateStore * result Device.t :=
  match Devices (state s) !! deviceID with
  | None => (s, Err ErrDeviceNotFound)
  | Some device =>
      let device := refreshStatus now offlineAfter device in
      match persistLocked io (put_device s deviceID device) with
      | (s, Some err) => (s, Err err)
      | (s, None) => (s, Ok (CloneDevice device))
      end
  end.

Definition ListTelemetry (deviceID : string) (limit : Z) (s : StateStore)
    : result (list TelemetryRecord.t) :=
  match Devices (state s) !! deviceID with
  | None => Err ErrDeviceNotFound
  | Some _ =>
      let items := default [] (TelemetryByID (state s) !! deviceID) in
      if (limit <=? 0) || (limit >=? Z.of_nat (length items))
      then Ok items
      else Ok (drop (Z.to_nat (Z.of_nat (length items) - limit)) items)
  end.

Definition cloneStringAny (src : StringAny) : StringAny :=
  match src with
  | None => None
  | Some m => Some (map_fold (λ k v out, <[k:=v]> out) ∅ m)
  end.

(** [cloneCommand], on a command that is not [nil]. *)
Definition cloneCommand (src : Command.t) : Command.t :=
  let out := src in
  let out :=
    match Command.Result src with
    | Some r =>
        Command.set_Result out
          (Some (CommandResult.mk (CommandResult.Status r)
                   (CommandResult.Message r)
                   (cloneStringAny (CommandResult.Metrics r))
                   (cloneStringAny (CommandResult.Data r))))
    | None => out
    end in
  let out :=
    match Command.DispatchedAt src with
    | Some ts => Command.set_DispatchedAt out (Some ts)
    | None => out
    end in
  match Command.CompletedAt src with
  | Some ts => Command.set_CompletedAt out (Some ts)
  | None => out
  end.

(** [cloneArtifact], on an artifact that is not [nil]; the payload is
    copied byte for byte. *)
Definition cloneArtifact (src : Artifact.t) : Artifact.t :=
  Artifact.mk (Artifact.ArtifactID src) (Artifact.Name src)
    (Artifact.ContentType src) (Artifact.CreatedBy src)
    (Artifact.CreatedAt src) ([] ++ Artifact.Payload src)
    (Artifact.PayloadSHA256 src).

Definition put_commands (s : StateStore) (deviceID : string)
    (queue : list Command.t) : StateStore :=
  set_state s
    (set_CommandsByID (state s) (<[deviceID := queue]> (CommandsByID (state s)))).

(** [AddCommand]; [rng] feeds the command identifier. *)
Definition AddCommand (deviceID commandType : string) (payload : bytes)
    (createdBy : string) (now : Time) (rng : Util.entropy) (io : IO)
    (s : StateStore) : StateStore * result Command.t :=
  match Devices (state s) !! deviceID with
  | None => (s, Err ErrDeviceNotFound)
  | Some _ =>
      let command :=
        Command.mk (Util.RandomToken "cmd" 12 rng) deviceID commandType
          ([] ++ payload) createdBy now None None CommandQueued None in
      let queue := default [] (CommandsByID (state s) !! deviceID) ++ [command] in
      match persistLocked io (put_commands s deviceID queue) with
      | (s, Some err) => (s, Err err)
      | (s, None) => (s, Ok (cloneCommand command))
      end
  end.

Definition ListCommands (deviceID : string) (limit : Z) (s : StateStore)
    : result (list Command.t) :=
  match Devices (state s) !! deviceID with
  | None => Err ErrDeviceNotFound
  | Some _ =>
      let items := default [] (CommandsByID (state s) !! deviceID) in
      let items :=
        if (limit >? 0) && (Z.of_nat (length items) >? limit)
        then drop (Z.to_nat (Z.of_nat (length items) - limit)) items
        else items in
      Ok (cloneCommand <$> items)
  end.

(** [PullNextCommand].  The loop stops at the first queued command
    ([list_find]); the assignments through [item] and [device] update the
    queue and the device map in place. *)
Definition PullNextCommand (deviceID deviceToken : string) (now : Time)
    (io : IO) (s : StateStore) : StateStore * result (option Command.t) :=
  match requireDeviceLocked s deviceID deviceToken with
  | Err err => (s, Err err)
  | Ok device =>
      let queue := default [] (CommandsByID (state s) !! deviceID) in
      match list_find (λ item, Command.Status item = CommandQueued) queue with
      | Some (i, item) =>
          let item := Command.set_Status item CommandDispatched in
          let dispatchTime := now in
          let item := Command.set_DispatchedAt item (Some dispatchTime) in
          let s := put_commands s deviceID (<[i := item]> queue) in
          let device := Device.set_LastSeenAt device now in
          let device := Device.set_Status device DeviceStatusOnline in
          match persistLocked io (put_device s deviceID device) with
          | (s, Some err) => (s, Err err)
          | (s, None) => (s, Ok (Some (cloneCommand item)))
          end
      | None =>
          let device := Device.set_LastSeenAt device now in
          let device := Device.set_Status device DeviceStatusOnline in
          match persistLocked io (put_device s deviceID device) with
          | (s, Some err) => (s, Err err)
          | (s, None) => (s, Ok None)
          end
      end
  end.

(** [CompleteCommand].  The loop skips the commands with another
    identifier and completes the first one that matches. *)
Definition CompleteCommand (deviceID deviceToken commandID : string)
    (result : CommandResult.t) (now : Time) (io : IO) (s : StateStore)
    : StateStore * Store.result Command.t :=
  match requireDeviceLocked s deviceID deviceToken with
  | Err err => (s, Err err)
  | Ok device =>
      let queue := default [] (CommandsByID (state s) !! deviceID) in
      match list_find (λ item, Command.CommandID item = commandID) queue with
      | Some (i, item) =>
          let result :=
            if decide (CommandResult.Status result = "")
            then CommandResult.set_Status result CommandFailed
            else result in
          let completedAt := now in
          let item := Command.set_CompletedAt item (Some completedAt) in
          let item := Command.set_Result item (Some result) in
          let item :=
            if decide (CommandResult.Status result = CommandSuccess)
            then Command.set_Status item CommandSuccess
            else Command.set_Status item CommandFailed in
          let s := put_commands s deviceID (<[i := item]> queue) in
          let device := Device.set_LastSeenAt device now in
          let device := Device.set_Status device DeviceStatusOnline in
          match persistLocked io (put_device s deviceID device) with
          | (s, Some err) => (s, Err err)
          | (s, None) => (s, Ok (cloneCommand item))
          end
      | None => (s, Err ErrCommandNotFound)
      end
  end.

(** The identifier [SaveArtifact] derives from a payload. *)
Definition digestHex (payload : bytes) : string :=
  Hex.EncodeToString (SHA256.Sum256 payload).
Definition artifactID (payload : bytes) : string :=
  "art_" +:+ String.substring 0 24 (digestHex payload).

Definition SaveArtifact (name contentType : string) (payload : bytes)
    (createdBy : string) (now : Time) (io : IO) (s : StateStore)
    : StateStore * result Artifact.t :=
  let digestHex := digestHex payload in
  let artifactID := artifactID payload in
  match Artifacts (state s) !! artifactID with
  | Some existing => (s, Ok (cloneArtifact existing))
  | None =>
      let artifact :=
        Artifact.mk artifactID name contentType createdBy now
          ([] ++ payload) digestHex in
      let s :=
        set_state s
          (set_Artifacts (state s)
             (<[artifactID := artifact]> (Artifacts (state s)))) in
      match persistLocked io s with
      | (s, Some err) => (s, Err err)
      | (s, None) => (s, Ok (cloneArtifact artifact))
      end
  end.

Definition GetArtifact (artifactID : string) (s : StateStore)
    : result Artifact.t :=
  match Artifacts (state s) !! artifactID with
  | None => Err ErrArtifactNotFound
  | Some artifact => Ok (cloneArtifact artifact)
  end.

Definition DeviceCount (s : StateStore) : Z :=
  Z.of_nat (size (Devices (state s))).

End Store.

(** ** Go's [int] *)

Module GoInt.

(** A 64-bit [int]: arithmetic wraps around. *)
Definition wrap (z : Z) : Z := (z + 2 ^ 63) mod 2 ^ 64 - 2 ^ 63.
Definition add (x y : Z) : Z := wrap (x + y).
Definition mul (x y : Z) : Z := wrap (x * y).
Definition maxInt : Z := 2 ^ 63 - 1.

End GoInt.

(** ** Package [auth] *)

Module Auth.
Import GoTime.

Inductive error : Type :=
| ErrInvalidPassword
| ErrInvalidToken.

Record OperatorAuth : Type := mkOperatorAuth {
  password : string;
  ttl : Duration;
  tokens : gmap string Time
}.

Definition set_tokens (a : OperatorAuth) (v : gmap string Time) : OperatorAuth :=
  mkOperatorAuth (password a) (ttl a) v.

Definition NewOperatorAuth (password : string) (ttl : Duration) : OperatorAuth :=
  mkOperatorAuth password ttl ∅.

(** [cleanupLocked]: every entry with [now.After(expiresAt)] is deleted. *)
Definition cleanupLocked (now : Time) (a : OperatorAuth) : OperatorAuth :=
  set_tokens a
    (filter (λ entry : string * Time, After now entry.2 = false) (tokens a)).

(** [Login]; [subtle.ConstantTimeCompare] answers 1 exactly on equal byte
    strings. *)
Definition Login (password : string) (now : Time) (rng : Util.entropy)
    (a : OperatorAuth) : OperatorAuth * (string * Time * option error) :=
  if decide (password ≠ Auth.password a)
  then (a, (""%string, zeroTime, Some ErrInvalidPassword))
  else
    let token := Util.RandomToken "op" 16 rng in
    let expiresAt := Add now (ttl a) in
    let a := set_tokens a (<[token := expiresAt]> (tokens a)) in
    let a := cleanupLocked now a in
    (a, (token, expiresAt, None)).

(** [Validate]. *)
Definition Validate (token : string) (now : Time) (a : OperatorAuth)
    : OperatorAuth * option error :=
  let '(expiresAt, ok) :=
    match tokens a !! token with
    | Some e => (e, true)
    | None => (zeroTime, false)
    end in
  if negb ok || After now expiresAt
  then (set_tokens a (delete token (tokens a)), Some ErrInvalidToken)
  else (a, None).

End Auth.

(** ** Package [httpapi]: the per-address limiter and the login guard *)

Module HTTPAPI.
Import GoTime.

Record rateBucket : Type := mkRateBucket {
  windowStart : Time;
  count : Z;
  bucketLastSeen : Time
}.

Record ipRateLimiter : Type := mkIPRateLimiter {
  limit : Z;
  window : Duration;
  entries : gmap string rateBucket
}.

Definition set_entries (l : ipRateLimiter) (v : gmap string rateBucket) :=
  mkIPRateLimiter (limit l) (window l) v.

Definition newIPRateLimiter (limit : Z) (window : Duration) : ipRateLimiter :=
  let limit := if limit <=? 0 then 1 else limit in
  let window := if window <=? 0 then Minute else window in
  mkIPRateLimiter limit window ∅.

Module Limiter.

Definition cleanupLocked (now : Time) (l : ipRateLimiter) : ipRateLimiter :=
  if Z.of_nat (size (entries l)) <=? 128 then l
  else
    set_entries l
      (filter
         (λ kv : string * rateBucket,
            (Sub now (bucketLastSeen kv.2) >? GoInt.mul (window l) 3) = false)
         (entries l)).

Definition allow (key : string) (now : Time) (l : ipRateLimiter)
    : ipRateLimiter * bool :=
  match entries l !! key with
  | None =>
      let l := set_entries l (<[key := mkRateBucket now 1 now]> (entries l)) in
      (cleanupLocked now l, true)
  | Some entry =>
      let entry :=
        if Sub now (windowStart entry) >=? window l
        then mkRateBucket now 0 (bucketLastSeen entry)
        else entry in
      let entry := mkRateBucket (windowStart entry) (count entry) now in
      if count entry >=? limit l
      then
        let l := set_entries l (<[key := entry]> (entries l)) in
        (cleanupLocked now l, false)
      else
        let entry :=
          mkRateBucket (windowStart entry) (GoInt.add (count entry) 1)
            (bucketLastSeen entry) in
        let l := set_entries l (<[key := entry]> (entries l)) in
        (cleanupLocked now l, true)
  end.

End Limiter.

Record loginGuardRecord : Type := mkLoginGuardRecord {
  consecutive : Z;
  blockedTill : Time;
  lastSeen : Time
}.

Record loginGuard : Type := mkLoginGuard {
  burst : Z;
  blockFor : Duration;
  perIPRate : ipRateLimiter;
  perIPStatus : gmap string loginGuardRecord
}.

Definition set_perIPRate (g : loginGuard) (v : ipRateLimiter) : loginGuard :=
  mkLoginGuard (burst g) (blockFor g) v (perIPStatus g).
Definition set_perIPStatus (g : loginGuard)
    (v : gmap string loginGuardRecord) : loginGuard :=
  mkLoginGuard (burst g) (blockFor g) (perIPRate g) v.

Definition newLoginGuard (ratePerMinute burst : Z) : loginGuard :=
  let burst := if burst <=? 0 then 5 else burst in
  mkLoginGuard burst (60 * Second) (newIPRateLimiter ratePerMinute Minute) ∅.

Module Guard.

Definition cleanupLocked (now : Time) (g : loginGuard) : loginGuard :=
  if Z.of_nat (size (perIPStatus g)) <=? 128 then g
  else
    set_perIPStatus g
      (filter
         (λ kv : string * loginGuardRecord,
            (Sub now (lastSeen kv.2) >? 2 * Hour) = false)
         (perIPStatus g)).

(** [allow]: the answer and, when denied, how long to wait. *)
Definition allow (ip : string) (now : Time) (g : loginGuard)
    : loginGuard * (bool * Duration) :=
  let blocked :=
    match perIPStatus g !! ip with
    | Some status =>
        if Before now (blockedTill status)
        then Some (Sub (blockedTill status) now)
        else None
    | None => None
    end in
  match blocked with
  | Some remaining => (g, (false, remaining))
  | None =>
      let '(rate, ok) := Limiter.allow ip now (perIPRate g) in
      let g := set_perIPRate g rate in
      if negb ok then (g, (false, Minute))
      else (cleanupLocked now g, (true, 0))
  end.

Definition onFailure (ip : string) (now : Time) (g : loginGuard) : loginGuard :=
  let status :=
    match perIPStatus g !! ip with
    | Some status => status
    | None => mkLoginGuardRecord 0 zeroTime zeroTime
    end in
  let status := mkLoginGuardRecord (consecutive status) (blockedTill status) now in
  let status :=
    mkLoginGuardRecord (GoInt.add (consecutive status) 1)
      (blockedTill status) (lastSeen status) in
  let status :=
    if consecutive status >=? burst g
    then mkLoginGuardRecord 0 (Add now (blockFor g)) (lastSeen status)
    else status in
  cleanupLocked now (set_perIPStatus g (<[ip := status]> (perIPStatus g))).

Definition onSuccess (ip : string) (g : loginGuard) : loginGuard :=
  match perIPStatus g !! ip with
  | None => g
  | Some status =>
      let status :=
        mkLoginGuardRecord 0 (blockedTill status) (lastSeen status) in
      set_perIPStatus g (<[ip := status]> (perIPStatus g))
  end.

End Guard.

End HTTPAPI.

(** ** Go's [strconv] and [strings], as far as the server uses them *)

Module Strconv.

Definition is_digit (c : ascii) : bool :=
  (48 <=? Z.of_nat (nat_of_ascii c)) && (Z.of_nat (nat_of_ascii c) <=? 57).

(** The value of a string of decimal digits, [None] if another byte
    occurs. *)
Fixpoint digits (acc : Z) (s : string) : option Z :=
  match s with
  | EmptyString => Some acc
  | String c rest =>
      if is_digit c
      then digits (10 * acc + (Z.of_nat (nat_of_ascii c) - 48)) rest
      else None
  end.

(** [strconv.Atoi] on a 64-bit platform: an optional sign, at least one
    decimal digit, nothing else, and a value that fits an [int]; any other
    input is an error ([None]). *)
Definition Atoi (s : string) : option Z :=
  let '(neg, body) :=
    match s with
    | String "-" rest => (true, rest)
    | String "+" rest => (false, rest)
    | _ => (false, s)
    end in
  match body with
  | EmptyString => None
  | _ =>
      match digits 0 body with
      | None => None
      | Some n =>
          let v := if neg : bool then - n else n in
          if (- 2 ^ 63 <=? v) && (v <=? 2 ^ 63 - 1) then Some v else None
      end
  end.

End Strconv.

Module Strings.

Definition asciiSpace (c : ascii) : bool :=
  match nat_of_ascii c with
  | 9%nat | 10%nat | 11%nat | 12%nat | 13%nat | 32%nat => true
  | _ => false
  end.

Fixpoint trimLeft (s : string) : string :=
  match s with
  | String c rest => if asciiSpace c then trimLeft rest else s
  | EmptyString => EmptyString
  end.

(** [strings.TrimSpace] restricted to its ASCII path: exact on strings
    whose bytes are all below [0x80].  The Unicode path is not modelled;
    the definitions that call [TrimSpace] take it as a parameter, and
    this function instantiates it in examples. *)
Definition TrimSpaceASCII (s : string) : string :=
  String.rev (trimLeft (String.rev (trimLeft s))).

End Strings.

(** ** Package [service] and the login handler of [httpapi] *)

Module Handler.
Import GoTime HTTPAPI.

Record t : Type := mk {
  loginGuard : HTTPAPI.loginGuard;
  auth : Auth.OperatorAuth
}.

(** What the client sees of a login response: the status code, the
    [Retry-After] header (in seconds) and, on success, the token with its
    expiry. *)
Record response : Type := mkResponse {
  status : Z;
  retryAfter : option Z;
  issued : option (string * Time)
}.

Definition StatusOK : Z := 200.
Definition StatusBadRequest : Z := 400.
Definition StatusUnauthorized : Z := 401.
Definition StatusTooManyRequests : Z := 429.

Section Login.
(** [strings.TrimSpace]. *)
Variable TrimSpace : string → string.

(** [Service.LoginOperator]; [now] is the service's own clock reading. *)
Definition LoginOperator (password : string) (now : Time)
    (rng : Util.entropy) (a : Auth.OperatorAuth) :=
  Auth.Login (TrimSpace password) now rng a.

(** [handleOperatorLogin] for a request from [ip] read at [now]; [body]
    is the password of the decoded request, [None] when [decodeJSON]
    rejects the body. *)
Definition handleOperatorLogin (ip : string) (now : Time)
    (body : option string) (svcNow : Time) (rng : Util.entropy) (h : t)
    : t * response :=
  let '(guard, (allowed, retry)) := Guard.allow ip now (loginGuard h) in
  if negb allowed
  then (mk guard (auth h),
        mkResponse StatusTooManyRequests (Some (whole_seconds retry)) None)
  else
    match body with
    | None => (mk guard (auth h), mkResponse StatusBadRequest None None)
    | Some password =>
        let '(a, (token, expiresAt, err)) :=
          LoginOperator password svcNow rng (auth h) in
        match err with
        | Some e =>
            let guard :=
              match e with
              | Auth.ErrInvalidPassword => Guard.onFailure ip now guard
              | _ => guard
              end in
            (mk guard a, mkResponse StatusUnauthorized None None)
        | None =>
            (mk (Guard.onSuccess ip guard) a,
             mkResponse StatusOK None (Some (token, expiresAt)))
        end
    end.
End Login.

End Handler.

(** ** Package [config] *)

Module Config.
Import GoTime.

Record Config : Type := mkConfig {
  HTTPAddr : string;
  HTTPSAddr : string;
  TLSCertFile : string;
  TLSKeyFile : string;
  OperatorPassword : string;
  DeviceEnrollKey : string;
  DataFile : string;
  StaticDir : string;
  FleetLimit : Z;
  OperatorTokenTTL : Duration;
  DeviceOfflineAfter : Duration;
  MaxJSONBytes : Z;
  MaxArtifactBytes : Z;
  APIRatePerMinute : Z;
  LoginRatePerMinute : Z;
  LoginBurst : Z;
  TrustProxyHeaders : bool
}.

(** The process environment; [os.Getenv] answers the empty string for a
    variable that is not set. *)
Definition Getenv (env : gmap string string) (key : string) : string :=
  default ""%string (env !! key).

(** The result of [Load]: the configuration, or the error's message. *)
Inductive loaded : Type :=
| Loaded (cfg : Config)
| Failed (message : string).

(** The variables [Load] reads as integers, as durations and as a boolean,
    and the spellings [getEnvBool] knows. *)
Definition intOptions : list string :=
  ["FLEET_LIMIT"; "MAX_JSON_BYTES"; "MAX_ARTIFACT_BYTES";
   "API_RATE_PER_MINUTE"; "LOGIN_RATE_PER_MINUTE"; "LOGIN_BURST"]%string.
Definition durationOptions : list string :=
  ["OPERATOR_TOKEN_TTL"; "DEVICE_OFFLINE_AFTER"]%string.
Definition boolOptions : list string := ["TRUST_PROXY_HEADERS"]%string.
Definition trueWords : list string :=
  ["1"; "true"; "TRUE"; "yes"; "YES"; "on"; "ON"]%string.
Definition falseWords : list string :=
  ["0"; "false"; "FALSE"; "no"; "NO"; "off"; "OFF"]%string.

Section Load.
(** [strings.TrimSpace] and [time.ParseDuration] ([None] on error). *)
Variable TrimSpace : string → string.
Variable ParseDuration : string → option Duration.
Variable env : gmap string string.

Definition getEnv (key def : string) : string :=
  let v := Getenv env key in
  if decide (v = "") then def else v.

Definition getEnvInt (key : string) (def : Z) : Z :=
  let v := Getenv env key in
  if decide (v = "") then def
  else
    match Strconv.Atoi v with
    | None => def
    | Some parsed => parsed
    end.

Definition getEnvDuration (key : string) (def : Duration) : Duration :=
  let v := Getenv env key in
  if decide (v = "") then def
  else
    match ParseDuration v with
    | None => def
    | Some parsed => parsed
    end.

Definition getEnvBool (key : string) (def : bool) : bool :=
  let v := Getenv env key in
  if decide (v = "") then def
  else if bool_decide (v ∈ trueWords) then true
  else if bool_decide (v ∈ falseWords) then false
  else def.

Definition Load : loaded :=
  let cfg :=
    mkConfig
      (getEnv "HTTP_ADDR" ":8080")
      (getEnv "HTTPS_ADDR" "")
      (getEnv "TLS_CERT_FILE" "")
      (getEnv "TLS_KEY_FILE" "")
      (TrimSpace (getEnv "OPERATOR_PASSWORD" "lte_swd_admin"))
      (TrimSpace (getEnv "DEVICE_ENROLL_KEY" "r1-enroll-key"))
      (getEnv "DATA_FILE" "data/state.json")
      (getEnv "STATIC_DIR" "../../web/panel")
      (getEnvInt "FLEET_LIMIT" 10)
      (getEnvDuration "OPERATOR_TOKEN_TTL" (12 * Hour))
      (getEnvDuration "DEVICE_OFFLINE_AFTER" (90 * Second))
      (getEnvInt "MAX_JSON_BYTES" (64 * 1024))
      (getEnvInt "MAX_ARTIFACT_BYTES" (12 * 1024 * 1024))
      (getEnvInt "API_RATE_PER_MINUTE" 180)
      (getEnvInt "LOGIN_RATE_PER_MINUTE" 20)
      (getEnvInt "LOGIN_BURST" 5)
      (getEnvBool "TRUST_PROXY_HEADERS" false) in
  if FleetLimit cfg <=? 0
  then Failed "fleet limit must be positive"
  else if decide (OperatorPassword cfg = "")
  then Failed "operator password must not be empty"
  else if decide (DeviceEnrollKey cfg = "")
  then Failed "device enroll key must not be empty"
  else if MaxJSONBytes cfg <? 1024
  then Failed "max json bytes too small"
  else if MaxArtifactBytes cfg <? MaxJSONBytes cfg
  then Failed "max artifact bytes must be >= max json bytes"
  else if (APIRatePerMinute cfg <=? 0) || (LoginRatePerMinute cfg <=? 0)
          || (LoginBurst cfg <=? 0)
  then Failed "rate limits must be positive"
  else if (bool_decide (HTTPSAddr cfg ≠ "") || bool_decide (TLSCertFile cfg ≠ "")
           || bool_decide (TLSKeyFile cfg ≠ ""))
          && (bool_decide (HTTPSAddr cfg = "") || bool_decide (TLSCertFile cfg = "")
              || bool_decide (TLSKeyFile cfg = ""))
  then Failed "https requires HTTPS_ADDR, TLS_CERT_FILE and TLS_KEY_FILE together"
  else Loaded cfg.

(** A variable that is set to a value its reader cannot parse: an integer
    option [strconv.Atoi] rejects, a duration option [time.ParseDuration]
    rejects, a boolean option spelled in none of the known ways. *)
Definition unparsable (key : string) : bool :=
  let v := Getenv env key in
  bool_decide (v ≠ "")
  && (bool_decide (key ∈ intOptions) && bool_decide (Strconv.Atoi v = None)
      || bool_decide (key ∈ durationOptions)
         && bool_decide (ParseDuration v = None)
      || bool_decide (key ∈ boolOptions)
         && bool_decide (v ∉ trueWords) && bool_decide (v ∉ falseWords)).

(** The configuration of an environment that sets nothing. *)
Definition defaults : Config :=
  mkConfig ":8080" "" "" "" (TrimSpace "lte_swd_admin")
    (TrimSpace "r1-enroll-key") "data/state.json" "../../web/panel" 10
    (12 * Hour) (90 * Second) (64 * 1024) (12 * 1024 * 1024) 180 20 5 false.

(** The environment without its unparsable variables. *)
Definition without_unparsable : gmap string string :=
  filter (λ kv : string * string, unparsable kv.1 = false) env.
End Load.

End Config.

(** ** Histories of calls *)

Module History.
Import GoTime Model Store.

(** A call of a public method of the state store. *)
Inductive call : Type :=
| CallRegisterDevice
    (deviceID hwUID modemIMEI simICCID firmwareVersion : string)
    (now : Time) (rng : Util.entropy)
| CallValidateDeviceToken (deviceID deviceToken : string) (now : Time)
| CallAddHeartbeat (deviceID deviceToken : string) (now : Time)
| CallAddTelemetry (deviceID deviceToken : string) (data : Telemetry.t)
    (now : Time)
| CallAddLocation (deviceID deviceToken : string) (location : Location.t)
    (now : Time)
| CallListDevices (now : Time) (offlineAfter : Duration)
| CallGetDevice (deviceID : string) (now : Time) (offlineAfter : Duration)
| CallListTelemetry (deviceID : string) (limit : Z)
| CallAddCommand (deviceID commandType : string) (payload : bytes)
    (createdBy : string) (now : Time) (rng : Util.entropy)
| CallListCommands (deviceID : string) (limit : Z)
| CallPullNextCommand (deviceID deviceToken : string) (now : Time)
| CallCompleteCommand (deviceID deviceToken commandID : string)
    (result : CommandResult.t) (now : Time)
| CallSaveArtifact (name contentType : string) (payload : bytes)
    (createdBy : string) (now : Time)
| CallGetArtifact (artifactID : string)
| CallDeviceCount.

Definition succeeded {A : Type} (r : result A) : bool :=
  match r with Ok _ => true | Err _ => false end.

Definition no_error (e : option error) : bool :=
  match e with None => true | Some _ => false end.

(** The store after a call answered by the operating system with [io],
    and whether the call returned a [nil] error. *)
Definition exec (c : call) (io : IO) (s : StateStore) : StateStore * bool :=
  match c with
  | CallRegisterDevice deviceID hwUID modemIMEI simICCID firmwareVersion now rng =>
      prod_map id succeeded
        (RegisterDevice deviceID hwUID modemIMEI simICCID firmwareVersion
           now rng io s)
  | CallValidateDeviceToken deviceID deviceToken now =>
      prod_map id succeeded (ValidateDeviceToken deviceID deviceToken now io s)
  | CallAddHeartbeat deviceID deviceToken now =>
      prod_map id no_error (AddHeartbeat deviceID deviceToken now io s)
  | CallAddTelemetry deviceID deviceToken data now =>
      prod_map id no_error (AddTelemetry deviceID deviceToken data now io s)
  | CallAddLocation deviceID deviceToken location now =>
      prod_map id no_error (AddLocation deviceID deviceToken location now io s)
  | CallListDevices now offlineAfter =>
      prod_map id succeeded (ListDevices now offlineAfter io s)
  | CallGetDevice deviceID now offlineAfter =>
      prod_map id succeeded (GetDevice deviceID now offlineAfter io s)
  | CallListTelemetry deviceID limit =>
      (s, succeeded (ListTelemetry deviceID limit s))
  | CallAddCommand deviceID commandType payload createdBy now rng =>
      prod_map id succeeded
        (AddCommand deviceID commandType payload createdBy now rng io s)
  | CallListCommands deviceID limit =>
      (s, succeeded (ListCommands deviceID limit s))
  | CallPullNextCommand deviceID deviceToken now =>
      prod_map id succeeded (PullNextCommand deviceID deviceToken now io s)
  | CallCompleteCommand deviceID deviceToken commandID result now =>
      prod_map id succeeded
        (CompleteCommand deviceID deviceToken commandID result now io s)
  | CallSaveArtifact name contentType payload createdBy now =>
      prod_map id succeeded
        (SaveArtifact name contentType payload createdBy now io s)
  | CallGetArtifact artifactID => (s, succeeded (GetArtifact artifactID s))
  | CallDeviceCount => (s, true)
  end.

(** What happens to a deployment: a call, or a restart of the process on
    the files the store left, with the same fleet limit.  A restart that
    fails (the files cannot be read) ends the process; no state follows, and
    the model stays where it was. *)
Inductive event : Type :=
| Called (c : call) (io : IO)
| Restarted (readable : bool).

Definition step (e : event) (s : StateStore) : StateStore :=
  match e with
  | Called c io => (exec c io s).1
  | Restarted readable =>
      match NewStateStore (files s) readable (fleetLimit s) with
      | Ok s' => s'
      | Err _ => s
      end
  end.

Definition history (events : list event) (s : StateStore) : StateStore :=
  foldl (λ s e, step e s) s events.

(** The fleet in memory and the fleet in the snapshot file, if there is
    one, are within the limit. *)
Definition within_limit (s : StateStore) : Prop :=
  DeviceCount s ≤ fleetLimit s
  ∧ ∀ st, data_file (files s) = Some (Snapshot st) →
          Z.of_nat (size (Devices st)) ≤ fleetLimit s.

(** The status of the [i]-th command in the queue of a device. *)
Definition command_status (s : StateStore) (deviceID : string) (i : nat)
    : option CommandStatus :=
  Command.Status <$> (default [] (CommandsByID (state s) !! deviceID) !! i).

(** An incoming [hw_uid] or [modem_imei] that differs from a stored one,
    both being set: the test at the head of [RegisterDevice]. *)
Definition identity_conflict (d : Device.t) (hwUID modemIMEI : string) : Prop :=
  (Device.HWUID d ≠ "" ∧ hwUID ≠ "" ∧ Device.HWUID d ≠ hwUID)
  ∨ (Device.ModemIMEI d ≠ "" ∧ modemIMEI ≠ "" ∧ Device.ModemIMEI d ≠ modemIMEI).

(** The snapshot file holds the in-memory state. *)
Definition persisted (s : StateStore) : Prop :=
  data_file (files s) = Some (Snapshot (state s)).

(** Every artifact is stored under its own identifier, the one derived
    from its payload. *)
Definition content_addressed (st : PersistedState) : Prop :=
  ∀ k a, Artifacts st !! k = Some a →
    Artifact.ArtifactID a = k ∧ k = artifactID (Artifact.Payload a).

(** Every device is stored under its own [device_id]. *)
Definition keyed_by_id (st : PersistedState) : Prop :=
  ∀ k d, Devices st !! k = Some d → Device.DeviceID d = k.

(** A property of states holds of the state in memory and of the state in
    the snapshot file, if there is one. *)
Definition established (P : PersistedState → Prop) (s : StateStore) : Prop :=
  P (state s)
  ∧ ∀ st, data_file (files s) = Some (Snapshot st) → P st.

(** The status a read assigns: online exactly when the device was seen at
    most [offlineAfter] ago. *)
Definition status_at (now : Time) (offlineAfter : Duration) (d : Device.t)
    : DeviceStatus :=
  if bool_decide (now - Device.LastSeenAt d ≤ offlineAfter)
  then DeviceStatusOnline else DeviceStatusOffline.

(** The consecutive counter the login guard keeps for an address; zero when
    the address has no record. *)
Definition counter (g : HTTPAPI.loginGuard) (ip : string) : Z :=
  from_option HTTPAPI.consecutive 0 (HTTPAPI.perIPStatus g !! ip).

(** [Sub] saturates at the ends of the range of [Duration].  That does
    not show in the refresh of a status when the threshold is a [Duration]
    below the largest one, nor when the device was last seen within that
    range of [now] (some 292 years). *)
Definition no_saturation (now : Time) (offlineAfter : Duration)
    (lastSeen : Time) : Prop :=
  minDuration ≤ offlineAfter < maxDuration
  ∨ minDuration ≤ now - lastSeen ≤ maxDuration.

(** A call of the login guard. *)
Inductive guard_call : Type :=
| GuardAllow (ip : string) (now : Time)
| GuardFailure (ip : string) (now : Time)
| GuardSuccess (ip : string).

Definition guard_exec (c : guard_call) (g : HTTPAPI.loginGuard)
    : HTTPAPI.loginGuard :=
  match c with
  | GuardAllow ip now => (HTTPAPI.Guard.allow ip now g).1
  | GuardFailure ip now => HTTPAPI.Guard.onFailure ip now g
  | GuardSuccess ip => HTTPAPI.Guard.onSuccess ip g
  end.

Definition guard_run (calls : list guard_call) (g : HTTPAPI.loginGuard)
    : HTTPAPI.loginGuard :=
  foldl (λ g c, guard_exec c g) g calls.

(** The traffic the guard sees while the record [r] of [ip] is blocked:
    requests of [ip] itself arrive before [blockedTill] (and get no
    further than [allow]), anything may come from other addresses, and the
    clock has not moved more than two hours beyond the last time [ip] was
    seen. *)
Definition during_block (ip : string) (r : HTTPAPI.loginGuardRecord)
    (c : guard_call) : Prop :=
  match c with
  | GuardAllow ip' now =>
      (ip' = ip → now < HTTPAPI.blockedTill r)
      ∧ Sub now (HTTPAPI.lastSeen r) ≤ 2 * Hour
  | GuardFailure ip' now =>
      ip' ≠ ip ∧ Sub now (HTTPAPI.lastSeen r) ≤ 2 * Hour
  | GuardSuccess ip' => ip' ≠ ip
  end.

(** A call of the operator-session store. *)
Inductive auth_call : Type :=
| CallLogin (password : string) (now : Time) (rng : Util.entropy)
| CallValidate (token : string) (now : Time).

Definition auth_exec (c : auth_call) (a : Auth.OperatorAuth) : Auth.OperatorAuth :=
  match c with
  | CallLogin password now rng => (Auth.Login password now rng a).1
  | CallValidate token now => (Auth.Validate token now a).1
  end.

Definition auth_run (calls : list auth_call) (a : Auth.OperatorAuth)
    : Auth.OperatorAuth :=
  foldl (λ a c, auth_exec c a) a calls.

(** The token a call hands out, if it is a login. *)
Definition issues (c : auth_call) : option string :=
  match c with
  | CallLogin _ _ rng => Some (Util.RandomToken "op" 16 rng)
  | CallValidate _ _ => None
  end.

(** Splits a method of the store into its paths. *)
Ltac paths :=
  unfold RegisterDevice, ValidateDeviceToken, AddHeartbeat, AddTelemetry,
    AddLocation, ListDevices, GetDevice, AddCommand, PullNextCommand,
    CompleteCommand, SaveArtifact, requireDeviceLocked in *;
  repeat (case_match; simplify_eq/=).

End History.

(** ** Reading hexadecimal digits back *)

Module Unhex.

(** The value of a hexadecimal digit as [encoding/hex] reads it (digits
    and lower-case letters; upper-case letters do not occur in what
    [EncodeToString] writes), and the byte two digits spell. *)
Definition value (c : ascii) : Z :=
  let n := Z.of_nat (nat_of_ascii c) in
  if (48 <=? n) && (n <=? 57) then n - 48
  else if (97 <=? n) && (n <=? 102) then n - 97 + 10
  else 0.

Definition byte_of (high low : ascii) : byte :=
  Z_to_byte (16 * value high + value low).

End Unhex.

(** ** Go's [strings]: prefixes, search and lower case *)

Module GoStrings.

(** [strings.HasPrefix] and [strings.TrimPrefix]. *)
Definition HasPrefix (s prefix : string) : bool := String.prefix prefix s.

Definition TrimPrefix (s prefix : string) : string :=
  if HasPrefix s prefix
  then String.substring (String.length prefix)
         (String.length s - String.length prefix)%nat s
  else s.

(** [strings.Contains]: [substr] starts at some position of [s]. *)
Fixpoint Contains (s substr : string) : bool :=
  HasPrefix s substr
  || match s with
     | EmptyString => false
     | String _ rest => Contains rest substr
     end.

Definition isUpper (c : ascii) : bool :=
  (65 <=? Z.of_nat (nat_of_ascii c)) && (Z.of_nat (nat_of_ascii c) <=? 90).

Definition lowerByte (c : ascii) : ascii :=
  if isUpper c then ascii_of_nat (nat_of_ascii c + 32) else c.

Section ToLower.
(** [strings.Map(unicode.ToLower, s)], the path [ToLower] takes on a string
    with a byte of [0x80] or more. *)
Variable mapToLower : string → string.

(** [strings.ToLower]: a string of ASCII bytes is returned as it is when it
    has no upper-case letter, and with its letters lowered otherwise. *)
Definition ToLower (s : string) : string :=
  let bytes := list_ascii_of_string s in
  if forallb (λ c, Z.of_nat (nat_of_ascii c) <? 128) bytes
  then
    if existsb isUpper bytes
    then string_of_list_ascii (map lowerByte bytes)
    else s
  else mapToLower s.
End ToLower.

End GoStrings.

(** ** Package [service] *)

Module Service.
Import GoTime Model Store.

(** The errors the service returns: one of the store, one of the session
    store, or one made on the spot with [errors.New] or [fmt.Errorf]. *)
Inductive error : Type :=
| StoreError (e : Store.error)
| AuthError (e : Auth.error)
| Message (text : string).

(** A Go result [(value, error)] of the service. *)
Inductive reply (A : Type) : Type :=
| Done (a : A)
| Failed (e : error).
Arguments Done {A} a.
Arguments Failed {A} e.

Definition supportedCommandTypes : gset string :=
  list_to_set
    ["swd_connect"; "swd_read_memory"; "swd_write_memory"; "swd_erase";
     "swd_program"; "swd_verify"; "swd_copy_firmware"; "swd_reset"]%string.

Module RegisterDeviceRequest.
Record t : Type := mk {
  EnrollKey : string;
  DeviceID : string;
  HWUID : string;
  ModemIMEI : string;
  SimICCID : string;
  FirmwareVersion : string
}.
End RegisterDeviceRequest.

Module RegisterDeviceResponse.
Record t : Type := mk {
  DeviceToken : string;
  PollIntervalSec : Z;
  HeartbeatIntervalSec : Z
}.
End RegisterDeviceResponse.

(** [DeviceAuthRequest] and [DevicePullRequest] have the same fields. *)
Module DeviceAuthRequest.
Record t : Type := mk {
  DeviceID : string;
  DeviceToken : string
}.
End DeviceAuthRequest.

Module DeviceTelemetryRequest.
Record t : Type := mk {
  DeviceID : string;
  DeviceToken : string;
  Data : Telemetry.t
}.
End DeviceTelemetryRequest.

Module DeviceLocationRequest.
Record t : Type := mk {
  DeviceID : string;
  DeviceToken : string;
  Data : Location.t
}.
End DeviceLocationRequest.

Module DeviceCommandResultRequest.
Record t : Type := mk {
  DeviceID : string;
  DeviceToken : string;
  CommandID : string;
  Status : CommandStatus;
  Message : string;
  Metrics : StringAny;
  Data : StringAny
}.
End DeviceCommandResultRequest.

Module OperatorCommandRequest.
Record t : Type := mk {
  DeviceID : string;
  Type_ : string;
  Payload : bytes
}.
End OperatorCommandRequest.

Module OperatorArtifactRequest.
Record t : Type := mk {
  Name : string;
  ContentType : string;
  Base64Data : string
}.
End OperatorArtifactRequest.

Section Service.
(** [strings.TrimSpace], [json.Valid] and [base64.StdEncoding.DecodeString]
    ([None] on error). *)
Variable TrimSpace : string → string.
Variable Valid : bytes → bool.
Variable DecodeString : string → option bytes.

(** The configuration the service was created with. *)
Variable cfg : Config.Config.

(** [RequireOperator]; [now] is the reading of the service's clock. *)
Definition RequireOperator (token : string) (now : Time)
    (a : Auth.OperatorAuth) : Auth.OperatorAuth * option Auth.error :=
  Auth.Validate token now a.

(** [RegisterDevice]; [subtle.ConstantTimeCompare] answers 1 exactly on
    equal byte strings. *)
Definition RegisterDevice (req : RegisterDeviceRequest.t) (now : Time)
    (rng : Util.entropy) (io : IO) (s : StateStore)
    : StateStore * reply RegisterDeviceResponse.t :=
  if decide (RegisterDeviceRequest.EnrollKey req ≠ Config.DeviceEnrollKey cfg)
  then (s, Failed (Message "invalid enroll key"))
  else
    let deviceID := TrimSpace (RegisterDeviceRequest.DeviceID req) in
    if decide (deviceID = "")
    then (s, Failed (Message "device_id is required"))
    else
      match
        Store.RegisterDevice deviceID
          (TrimSpace (RegisterDeviceRequest.HWUID req))
          (TrimSpace (RegisterDeviceRequest.ModemIMEI req))
          (TrimSpace (RegisterDeviceRequest.SimICCID req))
          (TrimSpace (RegisterDeviceRequest.FirmwareVersion req))
          now rng io s
      with
      | (s, Err err) => (s, Failed (StoreError err))
      | (s, Ok (device, _)) =>
          (s, Done (RegisterDeviceResponse.mk (Device.DeviceToken device) 3 10))
      end.

Definition DeviceHeartbeat (req : DeviceAuthRequest.t) (now : Time)
    (io : IO) (s : StateStore) : StateStore * option error :=
  prod_map id (fmap StoreError)
    (AddHeartbeat (TrimSpace (DeviceAuthRequest.DeviceID req))
       (TrimSpace (DeviceAuthRequest.DeviceToken req)) now io s).

Definition DeviceTelemetry (req : DeviceTelemetryRequest.t) (now : Time)
    (io : IO) (s : StateStore) : StateStore * option error :=
  let deviceID := TrimSpace (DeviceTelemetryRequest.DeviceID req) in
  let deviceToken := TrimSpace (DeviceTelemetryRequest.DeviceToken req) in
  if bool_decide (deviceID = "") || bool_decide (deviceToken = "")
  then (s, Some (Message "device_id and device_token are required"))
  else
    prod_map id (fmap StoreError)
      (AddTelemetry deviceID deviceToken (DeviceTelemetryRequest.Data req)
         now io s).

Definition DeviceLocation (req : DeviceLocationRequest.t) (now : Time)
    (io : IO) (s : StateStore) : StateStore * option error :=
  let deviceID := TrimSpace (DeviceLocationRequest.DeviceID req) in
  let deviceToken := TrimSpace (DeviceLocationRequest.DeviceToken req) in
  if bool_decide (deviceID = "") || bool_decide (deviceToken = "")
  then (s, Some (Message "device_id and device_token are required"))
  else
    prod_map id (fmap StoreError)
      (AddLocation deviceID deviceToken (DeviceLocationRequest.Data req)
         now io s).

(** The store's result as the service passes it on. *)
Definition passed {A : Type} (r : Store.result A) : reply A :=
  match r with
  | Ok a => Done a
  | Err err => Failed (StoreError err)
  end.

Definition DevicePullCommand (req : DeviceAuthRequest.t) (now : Time)
    (io : IO) (s : StateStore) : StateStore * reply (option Command.t) :=
  let deviceID := TrimSpace (DeviceAuthRequest.DeviceID req) in
  let deviceToken := TrimSpace (DeviceAuthRequest.DeviceToken req) in
  if bool_decide (deviceID = "") || bool_decide (deviceToken = "")
  then (s, Failed (Message "device_id and device_token are required"))
  else prod_map id passed (PullNextCommand deviceID deviceToken now io s).

Definition DeviceCommandResult (req : DeviceCommandResultRequest.t)
    (now : Time) (io : IO) (s : StateStore)
    : StateStore * reply Command.t :=
  let deviceID := TrimSpace (DeviceCommandResultRequest.DeviceID req) in
  let deviceToken := TrimSpace (DeviceCommandResultRequest.DeviceToken req) in
  let commandID := TrimSpace (DeviceCommandResultRequest.CommandID req) in
  if bool_decide (deviceID = "") || bool_decide (deviceToken = "")
     || bool_decide (commandID = "")
  then
    (s, Failed (Message "device_id, device_token and command_id are required"))
  else
    let resultStatus := DeviceCommandResultRequest.Status req in
    let resultStatus :=
      if decide (resultStatus ≠ CommandSuccess) then CommandFailed
      else resultStatus in
    prod_map id passed
      (CompleteCommand deviceID deviceToken commandID
         (CommandResult.mk resultStatus
            (DeviceCommandResultRequest.Message req)
            (DeviceCommandResultRequest.Metrics req)
            (DeviceCommandResultRequest.Data req))
         now io s).

Definition DeviceGetArtifact (deviceID deviceToken artifactID : string)
    (now : Time) (io : IO) (s : StateStore)
    : StateStore * reply Artifact.t :=
  let deviceID := TrimSpace deviceID in
  let deviceToken := TrimSpace deviceToken in
  let artifactID := TrimSpace artifactID in
  if bool_decide (deviceID = "") || bool_decide (deviceToken = "")
     || bool_decide (artifactID = "")
  then
    (s, Failed (Message "device_id, device_token and artifact_id are required"))
  else
    match ValidateDeviceToken deviceID deviceToken now io s with
    | (s, Err err) => (s, Failed (StoreError err))
    | (s, Ok _) => (s, passed (GetArtifact artifactID s))
    end.

Definition OperatorCreateCommand (req : OperatorCommandRequest.t)
    (operator : string) (now : Time) (rng : Util.entropy) (io : IO)
    (s : StateStore) : StateStore * reply Command.t :=
  let deviceID := TrimSpace (OperatorCommandRequest.DeviceID req) in
  let type := TrimSpace (OperatorCommandRequest.Type_ req) in
  if bool_decide (deviceID = "") || bool_decide (type = "")
  then (s, Failed (Message "device_id and type are required"))
  else if negb (bool_decide (type ∈ supportedCommandTypes))
  then (s, Failed (Message ("unsupported command type: " +:+ type)))
  else
    let payload :=
      if decide (length (OperatorCommandRequest.Payload req) = 0%nat)
      then bytes_of_string "{}"
      else OperatorCommandRequest.Payload req in
    if negb (Valid payload)
    then (s, Failed (Message "payload must be valid json"))
    else prod_map id passed (AddCommand deviceID type payload operator now rng io s).

Definition OperatorUploadArtifact (req : OperatorArtifactRequest.t)
    (operator : string) (now : Time) (io : IO) (s : StateStore)
    : StateStore * reply Artifact.t :=
  let name := TrimSpace (OperatorArtifactRequest.Name req) in
  let contentType := TrimSpace (OperatorArtifactRequest.ContentType req) in
  let base64Data := TrimSpace (OperatorArtifactRequest.Base64Data req) in
  if decide (name = "")
  then (s, Failed (Message "name is required"))
  else if decide (base64Data = "")
  then (s, Failed (Message "base64_data is required"))
  else
    match DecodeString base64Data with
    | None => (s, Failed (Message "base64_data must be valid base64"))
    | Some data =>
        if decide (length data = 0%nat)
        then (s, Failed (Message "artifact payload must not be empty"))
        else
          let contentType :=
            if decide (contentType = "") then "application/octet-stream"%string
            else contentType in
          prod_map id passed (SaveArtifact name contentType data operator now io s)
    end.

Definition OperatorGetArtifact (artifactID : string) (s : StateStore)
    : reply Artifact.t :=
  let artifactID := TrimSpace artifactID in
  if decide (artifactID = "")
  then Failed (Message "artifact_id is required")
  else passed (GetArtifact artifactID s).

Definition OperatorListDevices (now : Time) (io : IO) (s : StateStore)
    : StateStore * reply (list Device.t) :=
  prod_map id passed (ListDevices now (Config.DeviceOfflineAfter cfg) io s).

Definition OperatorGetDevice (deviceID : string) (now : Time) (io : IO)
    (s : StateStore) : StateStore * reply Device.t :=
  let deviceID := TrimSpace deviceID in
  if decide (deviceID = "")
  then (s, Failed (Message "device_id is required"))
  else
    prod_map id passed
      (GetDevice deviceID now (Config.DeviceOfflineAfter cfg) io s).


End Service.

(** [SupportedCommandTypes]: the keys of the set, sorted by
    [sort.Strings]. *)
Definition SupportedCommandTypes : list string :=
  Sort.Slice String.ltb (elements supportedCommandTypes).

End Service.

(** ** Package [httpapi]: the handler and its helpers *)

Module Routes.
Import GoTime Model Store HTTPAPI GoStrings.

Record Options : Type := mkOptions {
  MaxJSONBytes : Z;
  MaxArtifactBytes : Z;
  APIRatePerMinute : Z;
  LoginRatePerMin : Z;
  LoginBurst : Z;
  TrustProxyHeaders : bool
}.

(** The [Handler], without its pointer to the service. *)
Record Handler : Type := mkHandler {
  staticDir : string;
  maxJSONBytes : Z;
  maxArtifactBytes : Z;
  apiRateLimiter : ipRateLimiter;
  loginGuard : HTTPAPI.loginGuard;
  trustProxyHeaders : bool
}.

Definition set_apiRateLimiter (h : Handler) (v : ipRateLimiter) : Handler :=
  mkHandler (staticDir h) (maxJSONBytes h) (maxArtifactBytes h) v
    (loginGuard h) (trustProxyHeaders h).

Definition NewHandler (staticDir : string) (options : Options) : Handler :=
  let maxJSONBytes := MaxJSONBytes options in
  let maxJSONBytes :=
    if maxJSONBytes <=? 0 then 64 * 1024 else maxJSONBytes in
  let maxArtifactBytes := MaxArtifactBytes options in
  let maxArtifactBytes :=
    if maxArtifactBytes <? maxJSONBytes then 12 * 1024 * 1024
    else maxArtifactBytes in
  mkHandler staticDir maxJSONBytes maxArtifactBytes
    (newIPRateLimiter (APIRatePerMinute options) Minute)
    (newLoginGuard (LoginRatePerMin options) (LoginBurst options))
    (TrustProxyHeaders options).

Definition StatusCreated : Z := 201.
Definition StatusConflict : Z := 409.
Definition StatusNotFound : Z := 404.
Definition StatusInternalServerError : Z := 500.

(** The bytes [decodeJSON] hands to the decoder: what
    [io.LimitReader(r.Body, maxBytes+1)] lets through (nothing when the
    64-bit sum wraps around to a number that is not positive), unless
    that is more than [maxBytes] bytes ([None], "request body too
    large"). *)
Definition readLimited (body : bytes) (maxBytes : Z) : option bytes :=
  let maxBytes := if maxBytes <=? 0 then 64 * 1024 else maxBytes in
  let payload := take (Z.to_nat (GoInt.add maxBytes 1)) body in
  if Z.of_nat (length payload) >? maxBytes then None else Some payload.


Definition operatorFromRequest : string := "operator".

Section Handlers.
(** [strings.TrimSpace], [strings.Map(unicode.ToLower, _)], [json.Valid]
    and [base64.StdEncoding.DecodeString]; [osError] is the text of the
    error that an I/O error of the store wraps. *)
Variable TrimSpace : string → string.
Variable mapToLower : string → string.
Variable Valid : bytes → bool.
Variable DecodeString : string → option bytes.
Variable osError : string.

(** [err.Error()]. *)
Definition errorText (err : Service.error) : string :=
  match err with
  | Service.AuthError Auth.ErrInvalidPassword => "invalid operator password"
  | Service.AuthError Auth.ErrInvalidToken => "invalid operator token"
  | Service.StoreError ErrFleetLimitReached => "fleet limit reached"
  | Service.StoreError ErrDeviceExistsWithOtherIdentity =>
      "device id already exists with different identity"
  | Service.StoreError ErrDeviceNotFound => "device not found"
  | Service.StoreError ErrInvalidDeviceToken => "invalid device token"
  | Service.StoreError ErrCommandNotFound => "command not found"
  | Service.StoreError ErrArtifactNotFound => "artifact not found"
  | Service.StoreError (ErrIO context) => context +:+ ": " +:+ osError
  | Service.Message text => text
  end.

(** The status code [writeErrorFromDomain] answers with. *)
Definition writeErrorFromDomain (err : Service.error) : Z :=
  match err with
  | Service.AuthError Auth.ErrInvalidPassword => Handler.StatusUnauthorized
  | Service.AuthError Auth.ErrInvalidToken => Handler.StatusUnauthorized
  | Service.StoreError ErrFleetLimitReached => StatusConflict
  | Service.StoreError ErrDeviceExistsWithOtherIdentity => StatusConflict
  | Service.StoreError ErrDeviceNotFound => StatusNotFound
  | Service.StoreError ErrInvalidDeviceToken => Handler.StatusUnauthorized
  | Service.StoreError ErrCommandNotFound => StatusNotFound
  | Service.StoreError ErrArtifactNotFound => StatusNotFound
  | _ =>
      let message := ToLower mapToLower (errorText err) in
      if Contains message "required" || Contains message "unsupported"
         || Contains message "invalid"
      then Handler.StatusBadRequest
      else StatusInternalServerError
  end.

Definition bearerToken (header : string) : string :=
  let prefix := "Bearer "%string in
  if negb (HasPrefix header prefix) then ""%string
  else TrimSpace (TrimPrefix header prefix).

(** [requireOperator] on the [Authorization] header: the status of the
    refusal, or [None] when the request goes on to the handler. *)
Definition requireOperator (authorization : string) (now : Time)
    (a : Auth.OperatorAuth) : Auth.OperatorAuth * option Z :=
  let token := bearerToken authorization in
  if decide (token = "") then (a, Some Handler.StatusUnauthorized)
  else
    match Service.RequireOperator token now a with
    | (a, Some err) => (a, Some (writeErrorFromDomain (Service.AuthError err)))
    | (a, None) => (a, None)
    end.

(** [withRateLimit] for a request to [path] from [ip]: the refusal with
    its [Retry-After] header, or [None] when the request goes on. *)
Definition withRateLimit (path ip : string) (now : Time) (h : Handler)
    : Handler * option (Z * string) :=
  if negb (HasPrefix path "/api/") then (h, None)
  else
    let '(limiter, ok) := Limiter.allow ip now (apiRateLimiter h) in
    let h := set_apiRateLimiter h limiter in
    if negb ok then (h, Some (Handler.StatusTooManyRequests, "60"%string))
    else (h, None).



(** [handleUploadArtifact]; [body] is the decoded request, [None] when
    [decodeJSON] rejects the body. *)
Definition handleUploadArtifact (body : option Service.OperatorArtifactRequest.t)
    (now : Time) (io : IO) (s : StateStore)
    : StateStore * (Z * option Artifact.t) :=
  match body with
  | None => (s, (Handler.StatusBadRequest, None))
  | Some req =>
      match
        Service.OperatorUploadArtifact TrimSpace DecodeString req
          operatorFromRequest now io s
      with
      | (s, Service.Failed err) => (s, (writeErrorFromDomain err, None))
      | (s, Service.Done artifact) => (s, (StatusCreated, Some artifact))
      end
  end.
End Handlers.

End Routes.

(** ** The command [lte-swd-server] *)

Module Main.
Import GoTime.

(** What [main] builds from a loaded configuration. *)
Definition opAuth (cfg : Config.Config) : Auth.OperatorAuth :=
  Auth.NewOperatorAuth (Config.OperatorPassword cfg)
    (Config.OperatorTokenTTL cfg).

Definition api (cfg : Config.Config) : Routes.Handler :=
  Routes.NewHandler (Config.StaticDir cfg)
    (Routes.mkOptions (Config.MaxJSONBytes cfg) (Config.MaxArtifactBytes cfg)
       (Config.APIRatePerMinute cfg) (Config.LoginRatePerMinute cfg)
       (Config.LoginBurst cfg) (Config.TrustProxyHeaders cfg)).

Definition useTLS (cfg : Config.Config) : bool :=
  bool_decide (Config.HTTPSAddr cfg ≠ "").

(** [server.Addr]. *)
Definition Addr (cfg : Config.Config) : string :=
  if useTLS cfg then Config.HTTPSAddr cfg else Config.HTTPAddr cfg.

End Main.

(** ** Sequences of calls, and what they keep *)

Module Traffic.
Import GoTime Model Store History HTTPAPI.

(** Calls of the store one after the other, without a restart between
    them. *)
Definition calls (cs : list (call * IO)) (s : StateStore) : StateStore :=
  history ((λ c, Called c.1 c.2) <$> cs) s.

(** Every telemetry history holds at most [maxTelemetryHistory] records. *)
Definition telemetry_bounded (st : PersistedState) : Prop :=
  ∀ k records, TelemetryByID st !! k = Some records →
    Z.of_nat (length records) ≤ maxTelemetryHistory.

(** The queue of a device and the history of its telemetry; an absent
    entry reads as the empty slice. *)
Definition queue (s : StateStore) (deviceID : string) : list Command.t :=
  default [] (CommandsByID (state s) !! deviceID).

Definition telemetry (s : StateStore) (deviceID : string)
    : list TelemetryRecord.t :=
  default [] (TelemetryByID (state s) !! deviceID).

(** What [AddCommand] writes into a command and no later call assigns. *)
Definition request (c : Command.t)
    : string * string * string * bytes * string * Time :=
  (Command.CommandID c, Command.DeviceID c, Command.Type_ c,
   Command.Payload c, Command.CreatedBy c, Command.CreatedAt c).



(** Requests of one address to the limiter, with the answers. *)
Fixpoint allows (key : string) (times : list Time) (l : ipRateLimiter)
    : ipRateLimiter * list bool :=
  match times with
  | [] => (l, [])
  | now :: rest =>
      let '(l, ok) := Limiter.allow key now l in
      let '(l, oks) := allows key rest l in
      (l, ok :: oks)
  end.

(** Requests of one address to [path], one after the other through
    [withRateLimit], with what each is refused with. *)
Fixpoint served (path ip : string) (times : list Time) (h : Routes.Handler)
    : Routes.Handler * list (option (Z * string)) :=
  match times with
  | [] => (h, [])
  | now :: rest =>
      let '(h, refusal) := Routes.withRateLimit path ip now h in
      let '(h, refusals) := served path ip rest h in
      (h, refusal :: refusals)
  end.

End Traffic.

(** ** Concrete stores and requests used in the examples below *)

Module Examples.
Import GoTime Model Store History.

(** No snapshot on disk. *)
Definition no_files : FileSystem := mkFileSystem None None.

(** A generator that answers zero bytes, and one that fails. *)
Definition zeros : Util.entropy := Some (λ _, x00).
Definition ones : Util.entropy := Some (λ _, x01).
Definition broken : Util.entropy := None.

(** [NewStateStore] on an empty directory. *)
Definition fresh (fleetLimit : Z) : StateStore :=
  mkStateStore fleetLimit emptyState no_files.

Definition t0 : Time := 200 * Second.

(** One device [d1], registered at [t0] in a fleet of at most ten. *)
Definition with_d1 : StateStore :=
  (RegisterDevice "d1" "u1" "i1" "s1" "r1" t0 zeros IOSuccess (fresh 10)).1.

Definition d1_token : string := "dev_00000000000000000000000000000000".

(** ... and one command enqueued for it. *)
Definition with_command : StateStore :=
  (AddCommand "d1" "swd_reset" (bytes_of_string "{}") "operator" t0 zeros
     IOSuccess with_d1).1.

Definition command_id : string := "cmd_000000000000000000000000".

Definition success_result : CommandResult.t :=
  CommandResult.mk CommandSuccess "ok" None None.
Definition failed_result : CommandResult.t :=
  CommandResult.mk CommandFailed "late" None None.

(** A server with the default password, twenty logins a minute and a burst
    of five. *)
Definition server : Handler.t :=
  Handler.mk (HTTPAPI.newLoginGuard 20 5)
    (Auth.NewOperatorAuth "lte_swd_admin" (12 * Hour)).

(** Login requests from one address, each with its instant and password,
    and the responses they get. *)
Fixpoint logins (requests : list (Time * string)) (h : Handler.t)
    : Handler.t * list Handler.response :=
  match requests with
  | [] => (h, [])
  | (now, password) :: rest =>
      let '(h, r) :=
        Handler.handleOperatorLogin Strings.TrimSpaceASCII "10.0.0.1" now
          (Some password) now zeros h in
      let '(h, rs) := logins rest h in
      (h, r :: rs)
  end.

(** A stand-in for [time.ParseDuration] that rejects every input; it serves
    where only unparsable durations occur. *)
Definition no_durations : string → option Duration := λ _, None.

(** An environment in which every numeric, duration and boolean option
    that is set is unparsable. *)
Definition garbled_env : gmap string string :=
  list_to_map
    [("FLEET_LIMIT", "ten"); ("MAX_JSON_BYTES", "64k");
     ("LOGIN_BURST", "99999999999999999999");
     ("OPERATOR_TOKEN_TTL", "soon"); ("TRUST_PROXY_HEADERS", "maybe")]%string.

End Examples.

(** * Properties *)

(** ** Test vectors of SHA-256 *)

Example sha256_empty :
  Hex.EncodeToString (SHA256.Sum256 [])
  = "e3b0c44298fc1c149afbf4c8996fb92427ae41e4649b934ca495991b7852b855"%string.
Proof. vm_compute. reflexivity. Qed.

Example sha256_abc :
  Hex.EncodeToString (SHA256.Sum256 (bytes_of_string "abc"))
  = "ba7816bf8f01cfea414140de5dae2223b00361a396177a9cb410ff61f20015ad"%string.
Proof. vm_compute. reflexivity. Qed.

Example sha256_two_blocks :
  Hex.EncodeToString (SHA256.Sum256 (repeat "a"%byte 100))
  = "2816597888e4a0d3a36b82b83316ab32680eb8f00f8cd3b904d681246d285a0e"%string.
Proof. vm_compute. reflexivity. Qed.

(** ** Copies and the snapshot write *)

Module StoreFacts.
Import GoTime Model Store History.

Lemma map_fold_insert_id {A : Type} (m : gmap string A) :
  map_fold (λ k v out, <[k:=v]> out) ∅ m = m.
Proof.
  apply (map_fold_weak_ind (λ r m, r = m)); [done|].
  intros i x m' r _ ->. done.
Qed.

Lemma snd_prod_map {A B C : Type} (f : B → C) (l : list (A * B)) :
  (prod_map id f <$> l).*2 = f <$> l.*2.
Proof. induction l as [|[a b] l IH]; [done|]. csimpl. by rewrite IH. Qed.

Lemma cloneMap_id (src : StringAny) : cloneMap src = src.
Proof. destruct src as [m|]; simpl; [|done]. by rewrite map_fold_insert_id. Qed.

Lemma cloneStringAny_id (src : StringAny) : cloneStringAny src = src.
Proof. destruct src as [m|]; simpl; [|done]. by rewrite map_fold_insert_id. Qed.

(** A clone is equal, as a value, to what it copies. *)
Lemma CloneDevice_id (d : Device.t) : CloneDevice d = d.
Proof.
  destruct d as [? ? ? ? ? ? ? ? ? ? ? tel loc ?].
  unfold CloneDevice; simpl.
  destruct tel as [[? ? ? ? ? ? ex]|], loc; simpl; try done;
    destruct ex; simpl; unfold Device.set_LastTelemetry, Device.set_LastLocation,
      Telemetry.set_Extra; simpl; rewrite ?map_fold_insert_id; done.
Qed.

Lemma cloneCommand_id (c : Command.t) : cloneCommand c = c.
Proof.
  destruct c as [? ? ? ? ? ? da ca ? r].
  unfold cloneCommand; simpl.
  destruct r as [[? ? ? ?]|], da, ca; simpl;
    unfold Command.set_Result, Command.set_DispatchedAt, Command.set_CompletedAt;
    simpl; rewrite ?cloneStringAny_id; done.
Qed.

Lemma cloneArtifact_id (a : Artifact.t) : cloneArtifact a = a.
Proof. by destruct a. Qed.

Lemma persistLocked_state io s : state (persistLocked io s).1 = state s.
Proof. by destruct io. Qed.

Lemma persistLocked_fleetLimit io s :
  fleetLimit (persistLocked io s).1 = fleetLimit s.
Proof. by destruct io. Qed.

(** [persistLocked] returns [nil] only after the rename, and then the data
    file holds the state. *)
Lemma persistLocked_ok io s s' :
  persistLocked io s = (s', None) →
  io = IOSuccess ∧ persisted s' ∧ state s' = state s.
Proof. destruct io; simpl; intros [= <-]; done. Qed.

Lemma persistLocked_err io s s' e :
  persistLocked io s = (s', Some e) →
  io ≠ IOSuccess ∧ data_file (files s') = data_file (files s)
  ∧ state s' = state s.
Proof. destruct io; simpl; intros [= <- <-]; done. Qed.

End StoreFacts.

(** ** The command lifecycle *)

Module Lifecycle.
Import GoTime Model Store History Examples StoreFacts.

(** [CompleteCommand] does not look at the status of the command it
    completes: whatever it was, it becomes [success] or [failed]. *)
Lemma CompleteCommand_any_status s deviceID deviceToken commandID result now
    device i item :
  requireDeviceLocked s deviceID deviceToken = Ok device →
  list_find (λ c, Command.CommandID c = commandID)
    (default [] (CommandsByID (state s) !! deviceID)) = Some (i, item) →
  command_status
    (CompleteCommand deviceID deviceToken commandID result now IOSuccess s).1
    deviceID i
  = Some (if decide (CommandResult.Status result = CommandSuccess)
          then CommandSuccess else CommandFailed).
Proof.
  intros Hdev Hfind. unfold CompleteCommand. rewrite Hdev, Hfind. simpl.
  unfold command_status. simpl. rewrite lookup_insert_eq. simpl.
  apply list_find_Some in Hfind as (Hi & _ & _).
  rewrite list_lookup_insert_eq by (by eapply lookup_lt_Some).
  simpl. repeat case_decide; simplify_eq/=; try done.
  by destruct result as [st ? ? ?]; simplify_eq/=.
Qed.

(** C1, at the failing input.  A command that is still [queued] is
    completed without having been dispatched, and a later result for the
    same command turns [success] into [failed]: the status history of
    that command is [queued, success, failed]. *)
Theorem CompleteCommand_skips_dispatch :
  let s1 :=
    (CompleteCommand "d1" d1_token command_id success_result (t0 + Second)
       IOSuccess with_command).1 in
  let s2 :=
    (CompleteCommand "d1" d1_token command_id failed_result
       (t0 + 2 * Second) IOSuccess s1).1 in
  command_status with_command "d1" 0 = Some CommandQueued
  ∧ command_status s1 "d1" 0 = Some CommandSuccess
  ∧ command_status s2 "d1" 0 = Some CommandFailed.
Proof. vm_compute. done. Qed.

(** The path the package's test takes: enqueue, pull, complete. *)
Example command_lifecycle :
  let '(s1, pulled) :=
    PullNextCommand "d1" d1_token (t0 + Second) IOSuccess with_command in
  let '(s2, completed) :=
    CompleteCommand "d1" d1_token command_id success_result (t0 + 2 * Second)
      IOSuccess s1 in
  match pulled, completed with
  | Ok (Some c1), Ok c2 =>
      Command.CommandID c1 = command_id
      ∧ Command.Status c1 = CommandDispatched
      ∧ Command.Status c2 = CommandSuccess
      ∧ Command.DispatchedAt c2 = Some (t0 + Second)
      ∧ Command.CompletedAt c2 = Some (t0 + 2 * Second)
  | _, _ => False
  end.
Proof. by vm_compute. Qed.

End Lifecycle.

(** ** Registration *)

Module Registration.
Import GoTime Model Store History Examples StoreFacts.

Lemma firstNonEmpty_keeps (primary secondary : string) :
  primary ≠ ""%string → firstNonEmpty primary secondary = primary.
Proof. intros. unfold firstNonEmpty. by case_decide. Qed.

Lemma identity_conflict_test d hwUID modemIMEI :
  identity_conflict d hwUID modemIMEI ↔
  bool_decide (Device.HWUID d ≠ "") && bool_decide (hwUID ≠ "")
    && bool_decide (Device.HWUID d ≠ hwUID)
  || bool_decide (Device.ModemIMEI d ≠ "") && bool_decide (modemIMEI ≠ "")
    && bool_decide (Device.ModemIMEI d ≠ modemIMEI) = true.
Proof.
  unfold identity_conflict.
  rewrite orb_true_iff, !andb_true_iff, !bool_decide_eq_true. tauto.
Qed.

(** C2, as stated, fails for [sim_iccid]: a re-registration that brings
    another SIM identifier is accepted (and answers the old record). *)
Lemma sim_iccid_change_accepted :
  Device.SimICCID <$> (Devices (state with_d1) !! "d1"%string) = Some "s1"%string
  ∧ ∃ d, (RegisterDevice "d1" "u1" "i1" "s2" "r1" (t0 + Second) zeros
            IOSuccess with_d1).2 = Ok (d, false)
         ∧ Device.SimICCID d = "s1"%string.
Proof. split; [by vm_compute|]. eexists. split; by vm_compute. Qed.

(** C2, amended.  For a registered device, a re-registration whose
    [hw_uid] or [modem_imei] is set and differs from the stored, set, value
    fails with [ErrDeviceExistsWithOtherIdentity] and changes nothing; a
    re-registration without such a conflict (whatever its [sim_iccid])
    never fails with that error; and in every case the stored [hw_uid],
    [modem_imei] and [sim_iccid], once set, keep their value. *)
Theorem RegisterDevice_immutable_identity
    s deviceID hwUID modemIMEI simICCID firmwareVersion now rng io d :
  Devices (state s) !! deviceID = Some d →
  let r :=
    RegisterDevice deviceID hwUID modemIMEI simICCID firmwareVersion now
      rng io s in
  (identity_conflict d hwUID modemIMEI →
     r = (s, Err ErrDeviceExistsWithOtherIdentity))
  ∧ (¬ identity_conflict d hwUID modemIMEI →
     r.2 ≠ Err ErrDeviceExistsWithOtherIdentity)
  ∧ ∃ d', Devices (state r.1) !! deviceID = Some d'
      ∧ (Device.HWUID d ≠ "" → Device.HWUID d' = Device.HWUID d)
      ∧ (Device.ModemIMEI d ≠ "" → Device.ModemIMEI d' = Device.ModemIMEI d)
      ∧ (Device.SimICCID d ≠ "" → Device.SimICCID d' = Device.SimICCID d).
Proof.
  intros Hd r. subst r. unfold RegisterDevice. rewrite Hd.
  destruct (_ || _) eqn:Htest.
  - apply identity_conflict_test in Htest. simpl.
    split; [done|]. split; [done|]. eauto.
  - assert (¬ identity_conflict d hwUID modemIMEI) as Hno.
    { rewrite identity_conflict_test, Htest. done. }
    split; [done|].
    split; [intros _; destruct io; simpl; done|].
    exists (Device.set_Status
              (Device.set_LastHeartbeatAt
                 (Device.set_LastSeenAt
                    (Device.set_FirmwareVersion
                       (Device.set_SimICCID
                          (Device.set_ModemIMEI
                             (Device.set_HWUID d
                                (firstNonEmpty (Device.HWUID d) hwUID))
                             (firstNonEmpty (Device.ModemIMEI d) modemIMEI))
                          (firstNonEmpty (Device.SimICCID d) simICCID))
                       (firstNonEmpty firmwareVersion
                          (Device.FirmwareVersion d))) now) now)
              DeviceStatusOnline).
    split.
    + destruct io; simpl; by rewrite lookup_insert_eq.
    + simpl. repeat split; intros; by apply firstNonEmpty_keeps.
Qed.

Lemma RegisterDevice_immutable_identity_witness :
  ∃ d, Devices (state with_d1) !! "d1"%string = Some d
    ∧ (RegisterDevice "d1" "u2" "" "" "r2" (t0 + Second) zeros IOSuccess
         with_d1) = (with_d1, Err ErrDeviceExistsWithOtherIdentity).
Proof.
  eexists. split; [by vm_compute|].
  eapply (RegisterDevice_immutable_identity with_d1 "d1" "u2" "" "" "r2"
            (t0 + Second) zeros IOSuccess).
  - by vm_compute.
  - left. by vm_compute.
Defined.

End Registration.

(** ** Invariants of the state store *)

Module Invariants.
Import GoTime Model Store History Examples StoreFacts.

Lemma exec_fleetLimit c io s : fleetLimit (exec c io s).1 = fleetLimit s.
Proof. destruct c; simpl; try done; paths; destruct io; simplify_eq/=; done. Qed.

(** No call takes the fleet beyond the limit. *)
Lemma exec_DeviceCount c io s :
  DeviceCount s ≤ fleetLimit s → DeviceCount (exec c io s).1 ≤ fleetLimit s.
Proof.
  unfold DeviceCount. intros Hle.
  destruct c; simpl; try done; paths; destruct io; simplify_eq/=;
    rewrite ?map_size_fmap, ?map_size_insert_Some by eauto; try done;
    rewrite map_size_insert_None by done; lia.
Qed.

Lemma NewStateStore_fleetLimit fs readable limit s :
  NewStateStore fs readable limit = Ok s → fleetLimit s = limit.
Proof.
  unfold NewStateStore, load. simpl.
  repeat (case_match; simplify_eq/=); by intros [= <-].
Qed.

(** A call leaves the data file as it was or writes the state to it. *)
Lemma exec_data_file c io s :
  data_file (files (exec c io s).1) = data_file (files s)
  ∨ data_file (files (exec c io s).1) = Some (Snapshot (state (exec c io s).1)).
Proof.
  destruct c; simpl; auto; paths; destruct io; simplify_eq/=; auto.
Qed.

Lemma step_fleetLimit e s : fleetLimit (step e s) = fleetLimit s.
Proof.
  destruct e as [c io|readable]; simpl; [apply exec_fleetLimit|].
  destruct (NewStateStore _ _ _) as [s'|] eqn:Hnew; [|done].
  by apply NewStateStore_fleetLimit in Hnew.
Qed.

Lemma step_within_limit e s : within_limit s → within_limit (step e s).
Proof.
  intros [Hmem Hfile]. unfold within_limit. rewrite step_fleetLimit.
  destruct e as [c io|readable]; simpl.
  - split; [by apply exec_DeviceCount|].
    intros st Hst. destruct (exec_data_file c io s) as [Hsame|Hnew].
    + apply Hfile. by rewrite <-Hsame.
    + rewrite Hnew in Hst. injection Hst as <-.
      by apply exec_DeviceCount.
  - unfold NewStateStore, load. simpl.
    destruct (data_file (files s)) as [[|st]|] eqn:Hfiles; simpl.
    + destruct readable; simpl;
        (split; [exact Hmem|]; intros st' Hst'; apply Hfile;
         by rewrite <-Hst', Hfiles).
    + destruct readable; simpl;
        (split; [first [by apply Hfile|exact Hmem]|]; intros st' Hst';
         apply Hfile; by rewrite <-Hst', Hfiles).
    + split; [unfold DeviceCount in *; simpl; rewrite map_size_empty; lia|].
      simpl. intros st'. by rewrite Hfiles.
Qed.

Lemma history_within_limit events s :
  within_limit s →
  within_limit (history events s)
  ∧ fleetLimit (history events s) = fleetLimit s.
Proof.
  revert s. induction events as [|e events IH]; intros s Hs; [done|].
  unfold history in *. simpl.
  destruct (IH (step e s)) as [Hw Hl]; [by apply step_within_limit|].
  split; [done|]. by rewrite Hl, step_fleetLimit.
Qed.

(** C3.  Take the store [NewStateStore] returns, with a snapshot (if any)
    within the limit, and let any calls of the store and any restarts on
    its files follow.  Every state so reached holds at most [fleetLimit]
    devices; in it, registering an unknown [device_id] when the count has
    reached the limit fails with [ErrFleetLimitReached] and changes
    nothing, and registering a known [device_id] never fails with that
    error. *)
Theorem fleet_limit_invariant fs readable limit s0 events :
  NewStateStore fs readable limit = Ok s0 →
  DeviceCount s0 ≤ limit →
  let s := history events s0 in
  DeviceCount s ≤ limit
  ∧ (∀ deviceID hwUID modemIMEI simICCID firmwareVersion now rng io,
       Devices (state s) !! deviceID = None →
       limit ≤ DeviceCount s →
       RegisterDevice deviceID hwUID modemIMEI simICCID firmwareVersion
         now rng io s = (s, Err ErrFleetLimitReached))
  ∧ (∀ deviceID hwUID modemIMEI simICCID firmwareVersion now rng io,
       is_Some (Devices (state s) !! deviceID) →
       (RegisterDevice deviceID hwUID modemIMEI simICCID firmwareVersion
          now rng io s).2 ≠ Err ErrFleetLimitReached).
Proof.
  intros Hnew Hle s.
  pose proof (NewStateStore_fleetLimit _ _ _ _ Hnew) as Hl0.
  assert (files s0 = fs
          ∧ ∀ st, data_file fs = Some (Snapshot st) → state s0 = st)
    as [Hfiles Hstate].
  { unfold NewStateStore, load in Hnew. simpl in Hnew.
    destruct (data_file fs) as [[|st0]|]; destruct readable;
      simpl in Hnew; try discriminate; injection Hnew as <-;
      (split; [done|]); by intros st [= <-]. }
  assert (within_limit s0) as Hw0.
  { split; [by rewrite Hl0|]. rewrite Hl0. intros st Hst.
    rewrite Hfiles in Hst. rewrite <-(Hstate _ Hst). exact Hle. }
  destruct (history_within_limit events s0 Hw0) as [[Hcount _] Hlim].
  fold s in Hcount, Hlim. rewrite Hl0 in Hlim. rewrite Hlim in Hcount.
  split; [done|]. split.
  - intros * Hnone Hfull. unfold RegisterDevice. rewrite Hnone.
    unfold DeviceCount in Hfull. rewrite Hlim.
    by rewrite (proj2 (Z.geb_le _ _)) by lia.
  - intros * [d Hd]. unfold RegisterDevice. rewrite Hd.
    case_match; [done|]. destruct io; simpl; done.
Qed.

Lemma fleet_limit_invariant_witness :
  let s :=
    history
      [Called (CallRegisterDevice "dev-1" "uid-1" "imei-1" "iccid-1" "r1" t0
                 zeros) IOSuccess;
       Restarted true] (fresh 1) in
  DeviceCount s ≤ 1
  ∧ RegisterDevice "dev-2" "uid-2" "imei-2" "iccid-2" "r1" t0 ones
      IOSuccess s = (s, Err ErrFleetLimitReached).
Proof.
  intros s.
  destruct (fleet_limit_invariant no_files true 1 (fresh 1)
              [Called (CallRegisterDevice "dev-1" "uid-1" "imei-1" "iccid-1"
                         "r1" t0 zeros) IOSuccess;
               Restarted true])
    as (Hcount & Hnew & _); [reflexivity | by vm_compute |].
  split; [exact Hcount|].
  apply Hnew; by vm_compute.
Defined.

(** *** Properties of states that survive calls and restarts *)

Section Established.
Variable P : PersistedState → Prop.
Hypothesis P_empty : P emptyState.
Hypothesis P_exec : ∀ c io s, P (state s) → P (state (exec c io s).1).

Lemma step_established e s : established P s → established P (step e s).
Proof.
  intros [Hmem Hfile]. unfold established.
  destruct e as [c io|readable]; simpl.
  - split; [by apply P_exec|].
    intros st Hst. destruct (exec_data_file c io s) as [Hsame|Hnew].
    + apply Hfile. by rewrite <-Hsame.
    + rewrite Hnew in Hst. injection Hst as <-. by apply P_exec.
  - unfold NewStateStore, load. simpl.
    destruct (data_file (files s)) as [[|st]|] eqn:Hfiles; simpl.
    + destruct readable; simpl;
        (split; [exact Hmem|]; intros st' Hst'; apply Hfile;
         by rewrite <-Hst', Hfiles).
    + destruct readable; simpl;
        (split; [first [by apply Hfile|exact Hmem]|]; intros st' Hst';
         apply Hfile; by rewrite <-Hst', Hfiles).
    + split; [exact P_empty|]. simpl. intros st'. by rewrite Hfiles.
Qed.

Lemma history_established events s :
  established P s → established P (history events s).
Proof.
  revert s. induction events as [|e events IH]; intros s Hs; [done|].
  unfold history in *. simpl. apply IH. by apply step_established.
Qed.

(** From an empty directory on, the property holds whatever happens. *)
Lemma fresh_established limit events :
  P (state (history events (fresh limit))).
Proof.
  apply history_established. split; [exact P_empty|].
  unfold fresh, no_files. simpl. by intros st.
Qed.
End Established.

Lemma exec_content_addressed c io s :
  content_addressed (state s) → content_addressed (state (exec c io s).1).
Proof.
  unfold content_addressed. intros Hs.
  destruct c; simpl; try done; paths; destruct io; simplify_eq/=; try done;
    intros k a; rewrite lookup_insert; case_decide; simplify_eq/=; eauto;
    by intros [= <-].
Qed.

(** From an empty directory on, every artifact sits under the identifier
    of its own payload. *)
Lemma fresh_content_addressed limit events :
  content_addressed (state (history events (fresh limit))).
Proof.
  apply fresh_established; [|apply exec_content_addressed].
  intros k a. simpl. by rewrite lookup_empty.
Qed.



(** What is written is what a restart reads: a store opened on the files
    of [with_d1] holds its one device. *)
Example persistence_roundtrip :
  match NewStateStore (files with_d1) true 10 with
  | Ok s => state s = state with_d1 ∧ DeviceCount s = 1
  | Err _ => False
  end.
Proof. by vm_compute. Qed.

(** The calls that change nothing include one that matters for C4's
    reading: when the write of a first [SaveArtifact] fails, the artifact
    stays in memory, and a second save of the same bytes is acknowledged
    from memory while the data file still lacks it. *)
Lemma SaveArtifact_acknowledged_from_memory :
  let '(s1, r1) :=
    SaveArtifact "fw.bin" "application/octet-stream" [x00] "operator" t0
      RenameFails (fresh 10) in
  let '(s2, r2) :=
    SaveArtifact "fw.bin" "application/octet-stream" [x00] "operator"
      (t0 + Second) IOSuccess s1 in
  succeeded r1 = false ∧ succeeded r2 = true ∧ s2 = s1
  ∧ data_file (files s2) = None.
Proof. by vm_compute. Qed.

End Invariants.

(** ** Artifacts *)

Module Artifacts.
Import GoTime Model Store History Examples StoreFacts.

(** Scenario 3 of the specification: the identifier of the one-byte
    payload [0x00]. *)
Example artifactID_zero_byte : artifactID [x00] = "art_6e340b9cffb37a989ca544e6"%string.
Proof. by vm_compute. Qed.

(** C5.  In a store whose artifacts sit under their own identifiers, and
    which holds no other payload with the identifier of [payload] (no
    collision on the 96-bit prefix of the digest), a successful
    [SaveArtifact] returns a record whose identifier is ["art_"] followed
    by the first 24 hexadecimal digits of the SHA-256 digest of the
    payload and stores it under that identifier; saving the same bytes
    again, under any name and content type, returns that record and
    leaves the store as it is; and [GetArtifact] of the identifier returns
    the payload. *)
Theorem SaveArtifact_content_addressed
    s name contentType payload createdBy now io s1 a :
  content_addressed (state s) →
  (∀ k old, Artifacts (state s) !! k = Some old →
     artifactID (Artifact.Payload old) = artifactID payload →
     Artifact.Payload old = payload) →
  SaveArtifact name contentType payload createdBy now io s = (s1, Ok a) →
  Artifact.ArtifactID a
    = "art_" +:+ String.substring 0 24
                   (Hex.EncodeToString (SHA256.Sum256 payload))
  ∧ Artifacts (state s1) !! Artifact.ArtifactID a = Some a
  ∧ Artifact.Payload a = payload
  ∧ (∀ name' contentType' createdBy' now' io',
       SaveArtifact name' contentType' payload createdBy' now' io' s1
       = (s1, Ok a))
  ∧ (∃ got, GetArtifact (Artifact.ArtifactID a) s1 = Ok got
            ∧ Artifact.Payload got = payload).
Proof.
  intros Hca Hnc Hsave. unfold SaveArtifact in Hsave.
  change ("art_" +:+ String.substring 0 24
            (Hex.EncodeToString (SHA256.Sum256 payload)))
    with (artifactID payload).
  destruct (Artifacts (state s) !! artifactID payload) as [old|] eqn:Hold.
  - simplify_eq/=. rewrite cloneArtifact_id.
    destruct (Hca _ _ Hold) as [Hid Hkey].
    assert (Artifact.Payload old = payload) as Hpay.
    { eapply Hnc; [done|]. by rewrite <-Hkey. }
    rewrite Hid. repeat split; try done.
    + intros. unfold SaveArtifact. by rewrite Hold, cloneArtifact_id.
    + exists old. unfold GetArtifact. by rewrite Hold, cloneArtifact_id.
  - destruct io; simplify_eq/=.
    repeat split.
    + by rewrite lookup_insert_eq.
    + intros. unfold SaveArtifact. simpl. by rewrite lookup_insert_eq.
    + eexists. unfold GetArtifact. simpl. rewrite lookup_insert_eq.
      split; [done|]. done.
Qed.

Lemma SaveArtifact_content_addressed_witness :
  ∃ s1 a,
    SaveArtifact "fw.bin" "application/octet-stream" [x00] "operator" t0
      IOSuccess (fresh 10) = (s1, Ok a)
    ∧ Artifact.ArtifactID a = "art_6e340b9cffb37a989ca544e6"%string
    ∧ SaveArtifact "again.bin" "text/plain" [x00] "operator" (t0 + Second)
        IOSuccess s1 = (s1, Ok a)
    ∧ ∃ got, GetArtifact (Artifact.ArtifactID a) s1 = Ok got
             ∧ Artifact.Payload got = [x00].
Proof.
  eexists _, _. split; [by vm_compute|].
  edestruct (SaveArtifact_content_addressed (fresh 10) "fw.bin"
               "application/octet-stream" [x00] "operator" t0 IOSuccess)
    as (Hid & _ & _ & Hagain & Hget).
  - intros k old Hk. unfold fresh in Hk. simpl in Hk.
    rewrite lookup_empty in Hk. discriminate Hk.
  - intros k old Hk. unfold fresh in Hk. simpl in Hk.
    rewrite lookup_empty in Hk. discriminate Hk.
  - by vm_compute.
  - split; [by vm_compute|]. split; [apply Hagain | exact Hget].
Defined.

End Artifacts.

(** ** Dispatch *)

Module Dispatch.
Import GoTime Model Store History Examples StoreFacts.

(** C6.  For a device that presents its token, [PullNextCommand] marks
    the device as seen at [now] and
    - if [item], at index [i], is the first queued command of its queue,
      replaces it by [item] with status [dispatched] and [dispatched_at =
      now], leaves the rest of every queue as it was, and (when the
      snapshot is written) returns the replaced command; no command up to
      index [i] is queued afterwards;
    - if no command of the queue is queued, leaves all queues as they
      were and (when the snapshot is written) returns no command. *)
Theorem PullNextCommand_dispatches_first s deviceID deviceToken now io device :
  Devices (state s) !! deviceID = Some device →
  Device.DeviceToken device = deviceToken →
  let queue := default [] (CommandsByID (state s) !! deviceID) in
  let r := PullNextCommand deviceID deviceToken now io s in
  Devices (state r.1) !! deviceID
    = Some (Device.set_Status (Device.set_LastSeenAt device now)
              DeviceStatusOnline)
  ∧ (∀ i item,
       queue !! i = Some item →
       Command.Status item = CommandQueued →
       (∀ j c, queue !! j = Some c → (j < i)%nat →
               Command.Status c ≠ CommandQueued) →
       let item' :=
         Command.set_DispatchedAt (Command.set_Status item CommandDispatched)
           (Some now) in
       CommandsByID (state r.1)
         = <[deviceID := <[i := item']> queue]> (CommandsByID (state s))
       ∧ (io = IOSuccess → r.2 = Ok (Some item'))
       ∧ (∀ j c, (<[i := item']> queue) !! j = Some c → (j ≤ i)%nat →
                 Command.Status c ≠ CommandQueued))
  ∧ ((∀ c, c ∈ queue → Command.Status c ≠ CommandQueued) →
       CommandsByID (state r.1) = CommandsByID (state s)
       ∧ (io = IOSuccess → r.2 = Ok None)).
Proof.
  intros Hdev Htok queue r.
  assert (requireDeviceLocked s deviceID deviceToken = Ok device) as Hreq.
  { unfold requireDeviceLocked. rewrite Hdev. by case_decide. }
  subst r. unfold PullNextCommand. rewrite Hreq. fold queue.
  destruct (list_find _ queue) as [[i0 item0]|] eqn:Hfind.
  - apply list_find_Some in Hfind as (Hi0 & Hq0 & Hfirst).
    split; [destruct io; simpl; by rewrite lookup_insert_eq|].
    split.
    + intros i item Hi Hq Hbefore. cbv zeta.
      assert (i = i0) as ->.
      { destruct (Nat.lt_trichotomy i i0) as [Hlt|[->|Hgt]]; [|done|].
        - by destruct (Hfirst _ _ Hi Hlt).
        - by destruct (Hbefore _ _ Hi0 Hgt). }
      assert (item = item0) as -> by congruence.
      split; [destruct io; done|].
      split; [by intros ->; simpl; rewrite cloneCommand_id|].
      intros j c Hj Hle. destruct (decide (j = i0)) as [->|Hne].
      * rewrite list_lookup_insert_eq in Hj by (by eapply lookup_lt_Some).
        by simplify_eq/=.
      * rewrite list_lookup_insert_ne in Hj by done.
        apply (Hfirst _ _ Hj). lia.
    + intros Hnone. destruct (Hnone item0); [|done].
      by eapply list_elem_of_lookup_2.
  - apply list_find_None in Hfind.
    split; [destruct io; simpl; by rewrite lookup_insert_eq|].
    split.
    + intros i item Hi Hq _. exfalso.
      rewrite Forall_forall in Hfind.
      apply (Hfind item); [by eapply list_elem_of_lookup_2|done].
    + intros _. split; destruct io; simpl; done.
Qed.

Lemma PullNextCommand_dispatches_first_witness :
  ∃ c, (PullNextCommand "d1" d1_token (t0 + Second) IOSuccess with_command).2
         = Ok (Some c)
       ∧ Command.CommandID c = command_id
       ∧ Command.Status c = CommandDispatched
       ∧ Command.DispatchedAt c = Some (t0 + Second).
Proof.
  destruct (PullNextCommand_dispatches_first with_command "d1" d1_token
              (t0 + Second) IOSuccess
              (Device.mk "d1" "u1" "i1" "s1" "r1" d1_token t0 t0 t0 zeroTime
                 zeroTime None None DeviceStatusOnline))
    as (_ & Hfound & _); [by vm_compute | done |].
  edestruct (Hfound 0%nat) as (_ & Hret & _);
    [by vm_compute | done | intros; lia |].
  eexists. split; [by apply Hret|]. by vm_compute.
Defined.

End Dispatch.

(** ** Reading devices *)

Module Reads.
Import GoTime Model Store History Examples StoreFacts Invariants.

(** Go's [a < b] on strings is [String.ltb]; "not [b < a]" is [a ≤ b]. *)
Lemma not_ltb_leb (a b : string) : negb (String.ltb b a) = String.leb a b.
Proof.
  unfold String.ltb, String.leb. rewrite (String.compare_antisym b a).
  by destruct (String.compare a b).
Qed.

Lemma StronglySorted_mono {A : Type} (R1 R2 : relation A) (l : list A) :
  (∀ a b, R1 a b → R2 a b) → StronglySorted R1 l → StronglySorted R2 l.
Proof.
  intros Himpl. induction 1 as [|a l' _ IH Hall]; constructor; [done|].
  eapply Forall_impl; [done|]. intros b. apply Himpl.
Qed.

Section Sorting.
Context {A : Type} (key : A → string).

#[local] Abbreviation R :=
  (λ a b : A, Is_true (negb (String.ltb (key b) (key a)))) (only parsing).

#[local] Instance not_less_total : Total R.
Proof. intros a b. rewrite !not_ltb_leb. apply (total String.le). Qed.

#[local] Instance not_less_trans : Transitive R.
Proof.
  intros a b c. rewrite !not_ltb_leb. apply (transitivity (R:=String.le)).
Qed.

(** [sort.Slice] with the comparison of a string key: the result is a
    permutation in ascending order of the key. *)
Lemma Slice_sorted (l : list A) :
  StronglySorted (λ a b, String.le (key a) (key b))
    (Sort.Slice (λ a b, String.ltb (key a) (key b)) l).
Proof.
  apply (StronglySorted_mono R); [|apply (StronglySorted_merge_sort R)].
  intros a b. by rewrite not_ltb_leb.
Qed.

Lemma Slice_Permutation (l : list A) :
  Sort.Slice (λ a b, String.ltb (key a) (key b)) l ≡ₚ l.
Proof. apply merge_sort_Permutation. Qed.
End Sorting.

Lemma refreshStatus_exact now offlineAfter d :
  no_saturation now offlineAfter (Device.LastSeenAt d) →
  refreshStatus now offlineAfter d
  = Device.set_Status d (status_at now offlineAfter d).
Proof.
  unfold no_saturation, minDuration, maxDuration. intros Hrange.
  unfold refreshStatus, status_at, Sub, maxDuration, minDuration.
  case_bool_decide; repeat case_match;
    repeat match goal with
           | H : (_ <? _) = true |- _ => apply Z.ltb_lt in H
           | H : (_ <? _) = false |- _ => apply Z.ltb_ge in H
           | H : (_ >? _) = true |- _ => apply Z.gtb_gt in H
           | H : (_ >? _) = false |- _ => rewrite Z.gtb_ltb in H; apply Z.ltb_ge in H
           end; try done; lia.
Qed.

(** C7.  Where [Sub] does not saturate (see [no_saturation]), [GetDevice]
    and [ListDevices] store and return each device with status online
    exactly when [now - last_seen_at ≤ offlineAfter], offline otherwise, and
    [ListDevices] returns all devices in ascending order of [device_id]. *)
Theorem reads_refresh_status s now offlineAfter io :
  (∀ k d, Devices (state s) !! k = Some d →
          no_saturation now offlineAfter (Device.LastSeenAt d)) →
  (∀ deviceID d,
     Devices (state s) !! deviceID = Some d →
     let r := GetDevice deviceID now offlineAfter io s in
     Devices (state r.1) !! deviceID
       = Some (Device.set_Status d (status_at now offlineAfter d))
     ∧ (io = IOSuccess →
        r.2 = Ok (Device.set_Status d (status_at now offlineAfter d))))
  ∧ (let r := ListDevices now offlineAfter io s in
     Devices (state r.1)
       = (λ d, Device.set_Status d (status_at now offlineAfter d))
           <$> Devices (state s)
     ∧ (io = IOSuccess →
        ∃ out, r.2 = Ok out
          ∧ out ≡ₚ (λ d, Device.set_Status d (status_at now offlineAfter d))
                     <$> (map_to_list (Devices (state s))).*2
          ∧ StronglySorted
              (λ a b, String.le (Device.DeviceID a) (Device.DeviceID b)) out)).
Proof.
  intros Hrange. split.
  - intros deviceID d Hd. unfold GetDevice.
    rewrite Hd, refreshStatus_exact by eauto.
    split; [destruct io; simpl; by rewrite lookup_insert_eq|].
    intros ->. simpl. by rewrite CloneDevice_id.
  - unfold ListDevices.
    rewrite (map_fmap_ext (refreshStatus now offlineAfter)
               (λ d, Device.set_Status d (status_at now offlineAfter d)))
      by (intros; apply refreshStatus_exact; eauto).
    split; [by destruct io|]. intros ->. simpl.
    eexists. split; [done|]. split; [|apply (Slice_sorted Device.DeviceID)].
    rewrite (Slice_Permutation Device.DeviceID).
    rewrite (list_fmap_ext CloneDevice id) by (intros; apply CloneDevice_id).
    rewrite list_fmap_id.
    by rewrite map_to_list_fmap, snd_prod_map.
Qed.

(** *** The listing does not depend on the order of the loop

    [ListDevices] ranges over a Go map and sorts with an unstable sort.
    Where devices sit under their own identifier, which holds in every
    state reached from an empty directory, the sorted listing is unique:
    whatever order the loop takes and whatever the sort does with it, the
    result is the one of the model. *)

Lemma refreshStatus_DeviceID now offlineAfter d :
  Device.DeviceID (refreshStatus now offlineAfter d) = Device.DeviceID d.
Proof. unfold refreshStatus. by case_match. Qed.

Lemma exec_keyed_by_id c io s :
  keyed_by_id (state s) → keyed_by_id (state (exec c io s).1).
Proof.
  unfold keyed_by_id. intros Hs.
  destruct c; simpl; try done; paths; destruct io; simplify_eq/=; try done;
    intros k d; rewrite ?lookup_fmap, ?lookup_insert.
  all: try (destruct (decide (_ = k)) as [<-|Hne];
            [intros [= <-]; simpl; rewrite ?refreshStatus_DeviceID; by eauto
            |by eauto]).
  all: destruct (Devices (state s) !! k) as [d0|] eqn:Hk;
    simpl; intros [= <-]; rewrite refreshStatus_DeviceID; by eauto.
Qed.

Lemma fresh_keyed_by_id limit events :
  keyed_by_id (state (history events (fresh limit))).
Proof.
  apply fresh_established; [|apply exec_keyed_by_id].
  intros k d. simpl. by rewrite lookup_empty.
Qed.

Lemma keyed_NoDup s (f : Device.t → Device.t) :
  keyed_by_id (state s) →
  (∀ d, Device.DeviceID (f d) = Device.DeviceID d) →
  NoDup (Device.DeviceID <$> (f <$> (map_to_list (Devices (state s))).*2)).
Proof.
  intros Hs Hf.
  assert (Device.DeviceID <$> (f <$> (map_to_list (Devices (state s))).*2)
          = (map_to_list (Devices (state s))).*1) as ->.
  { rewrite <-!list_fmap_compose. apply list_fmap_ext.
    intros i [k d] Hi. simpl. rewrite Hf. apply Hs.
    by eapply elem_of_map_to_list, list_elem_of_lookup_2. }
  apply NoDup_fst_map_to_list.
Qed.

Lemma sorted_listing_unique (l1 l2 : list Device.t) :
  NoDup (Device.DeviceID <$> l1) →
  l1 ≡ₚ l2 →
  StronglySorted (λ a b, String.le (Device.DeviceID a) (Device.DeviceID b)) l1 →
  StronglySorted (λ a b, String.le (Device.DeviceID a) (Device.DeviceID b)) l2 →
  l1 = l2.
Proof.
  intros Hnd Hperm Hs1 Hs2.
  eapply StronglySorted_unique_strong; [|done..].
  intros x1 x2 Hx1 Hx2 H12 H21.
  assert (Device.DeviceID x1 = Device.DeviceID x2) as Hid
    by (by apply (anti_symm String.le)).
  rewrite <-Hperm in Hx2.
  apply list_elem_of_lookup in Hx1 as [i Hi].
  apply list_elem_of_lookup in Hx2 as [j Hj].
  assert (i = j) as ->; [|congruence].
  eapply NoDup_lookup; [done| |].
  - rewrite list_lookup_fmap, Hi. done.
  - rewrite list_lookup_fmap, Hj. simpl. by rewrite Hid.
Qed.

Lemma ListDevices_listing_unique s now offlineAfter out out' :
  keyed_by_id (state s) →
  (ListDevices now offlineAfter IOSuccess s).2 = Ok out →
  out' ≡ₚ refreshStatus now offlineAfter
            <$> (map_to_list (Devices (state s))).*2 →
  StronglySorted (λ a b, String.le (Device.DeviceID a) (Device.DeviceID b))
    out' →
  out' = out.
Proof.
  intros Hs Hout Hperm Hsorted. unfold ListDevices in Hout. simpl in Hout.
  injection Hout as <-. symmetry.
  assert ((CloneDevice <$>
             (map_to_list (refreshStatus now offlineAfter
                             <$> Devices (state s))).*2)
          ≡ₚ refreshStatus now offlineAfter
               <$> (map_to_list (Devices (state s))).*2) as Hsame.
  { rewrite (list_fmap_ext CloneDevice id) by (intros; apply CloneDevice_id).
    by rewrite list_fmap_id, map_to_list_fmap, snd_prod_map. }
  apply sorted_listing_unique.
  - rewrite (Slice_Permutation Device.DeviceID), Hsame.
    apply keyed_NoDup; [done|]. apply refreshStatus_DeviceID.
  - by rewrite (Slice_Permutation Device.DeviceID), Hsame.
  - apply (Slice_sorted Device.DeviceID).
  - done.
Qed.

Lemma reads_refresh_status_witness :
  ∃ d, Devices (state with_d1) !! "d1"%string = Some d
    ∧ (GetDevice "d1" (t0 + 90 * Second) (90 * Second) IOSuccess with_d1).2
      = Ok (Device.set_Status d DeviceStatusOnline)
    ∧ (GetDevice "d1" (t0 + 90 * Second + 1) (90 * Second) IOSuccess with_d1).2
      = Ok (Device.set_Status d DeviceStatusOffline).
Proof.
  assert (∀ now (k : string) (d : Device.t),
            Devices (state with_d1) !! k = Some d →
            no_saturation now (90 * Second) (Device.LastSeenAt d)) as Hrange
    by (intros; left; unfold minDuration, maxDuration, Second; lia).
  eexists. split; [by vm_compute|]. split.
  - destruct (reads_refresh_status with_d1 (t0 + 90 * Second) (90 * Second)
                IOSuccess (Hrange _)) as [Hget _].
    edestruct (Hget "d1"%string) as [_ Hr]; [by vm_compute|].
    rewrite Hr by done. by vm_compute.
  - destruct (reads_refresh_status with_d1 (t0 + 90 * Second + 1)
                (90 * Second) IOSuccess (Hrange _)) as [Hget _].
    edestruct (Hget "d1"%string) as [_ Hr]; [by vm_compute|].
    rewrite Hr by done. by vm_compute.
Defined.

(** Two devices registered as [b] then [a] are listed as [a], [b]. *)
Example ListDevices_sorted :
  let s :=
    (RegisterDevice "a" "" "" "" "" t0 ones IOSuccess
       (RegisterDevice "b" "" "" "" "" t0 zeros IOSuccess (fresh 10)).1).1 in
  match (ListDevices (t0 + Second) (90 * Second) IOSuccess s).2 with
  | Ok out => Device.DeviceID <$> out = ["a"; "b"]%string
  | Err _ => False
  end.
Proof. by vm_compute. Qed.

End Reads.

(** ** Operator sessions *)

Module Sessions.
Import GoTime History Examples.
Import Auth.

Lemma Validate_ok_iff a token now :
  (Validate token now a).2 = None
  ↔ ∃ expiresAt, tokens a !! token = Some expiresAt ∧ now ≤ expiresAt.
Proof.
  unfold Validate, After.
  destruct (tokens a !! token) as [e|]; simpl.
  - destruct (e <? now) eqn:Hlt; simpl.
    + apply Z.ltb_lt in Hlt. split; [done|]. intros (e' & [= <-] & ?). lia.
    + apply Z.ltb_ge in Hlt. split; [eauto|done].
  - split; [done|]. by intros (e' & ? & _).
Qed.

(** A token that is not stored stays so under every call that does not
    hand it out again. *)
Lemma auth_exec_absent c a token :
  tokens a !! token = None →
  issues c ≠ Some token →
  tokens (auth_exec c a) !! token = None.
Proof.
  intros Hnone Hissue. destruct c as [password now rng|token' now]; simpl in *.
  - unfold Login. case_decide; simpl; [done|].
    apply map_lookup_filter_None_2. left.
    rewrite lookup_insert_ne; [done|]. congruence.
  - unfold Validate. repeat case_match; simplify_eq/=; try done.
    + destruct (decide (token' = token)) as [->|Hne].
      * by rewrite lookup_delete_eq.
      * by rewrite lookup_delete_ne.
    + destruct (decide (token' = token)) as [->|Hne].
      * by rewrite lookup_delete_eq.
      * by rewrite lookup_delete_ne.
Qed.

Lemma auth_run_absent calls a token :
  tokens a !! token = None →
  Forall (λ c, issues c ≠ Some token) calls →
  tokens (auth_run calls a) !! token = None.
Proof.
  intros Hnone Hcalls. revert a Hnone.
  induction Hcalls as [|c calls Hc _ IH]; intros a Hnone; [done|].
  unfold auth_run in *. simpl. apply IH. by apply auth_exec_absent.
Qed.

(** C8.  [Validate] succeeds exactly when the token is stored with an
    expiry that [now] has not passed, and then changes nothing.  Otherwise
    it fails with [ErrInvalidToken] and the token is no longer stored, so
    that every later validation of it fails, at any time and after any
    calls that do not hand the same token out again. *)
Theorem Validate_expiry a token now :
  let r := Validate token now a in
  (r.2 = None ↔ ∃ expiresAt, tokens a !! token = Some expiresAt ∧ now ≤ expiresAt)
  ∧ (r.2 = None → r.1 = a)
  ∧ (r.2 ≠ None →
     r.2 = Some ErrInvalidToken
     ∧ tokens r.1 = delete token (tokens a)
     ∧ ∀ calls now',
         Forall (λ c, issues c ≠ Some token) calls →
         (Validate token now' (auth_run calls r.1)).2 = Some ErrInvalidToken).
Proof.
  intros r. split; [apply Validate_ok_iff|].
  assert ((r.2 = None ∧ r.1 = a)
          ∨ (r.2 = Some ErrInvalidToken
             ∧ r.1 = set_tokens a (delete token (tokens a)))) as Hcases.
  { subst r. unfold Validate.
    destruct (tokens a !! token) as [e|]; simpl;
      [destruct (After now e)|]; simpl; auto. }
  destruct Hcases as [[Hr2 Hr1]|[Hr2 Hr1]]; rewrite Hr2, Hr1.
  - split; [done|]. by intros ?.
  - split; [done|]. intros _. split; [done|]. split; [done|].
    intros calls now' Hcalls.
    assert (tokens (auth_run calls
              (set_tokens a (delete token (tokens a)))) !! token = None)
      as Habsent
      by (apply auth_run_absent; [simpl; apply lookup_delete_eq | done]).
    unfold Validate. by rewrite Habsent.
Qed.

(** The lifecycle of the package's test: a session of one hour is valid
    after ten minutes, invalid after two hours, and stays invalid when asked
    again about an instant inside the hour. *)
Example Validate_lifecycle :
  let a0 := NewOperatorAuth "secret" Hour in
  let '(a1, (token, _, _)) := Login "secret" (1000 * Second) zeros a0 in
  let '(a2, r2) := Validate token (1000 * Second + 10 * Minute) a1 in
  let '(a3, r3) := Validate token (1000 * Second + 2 * Hour) a2 in
  let '(a4, r4) := Validate token (1000 * Second + 10 * Minute) a3 in
  r2 = None ∧ r3 = Some ErrInvalidToken ∧ r4 = Some ErrInvalidToken.
Proof. by vm_compute. Qed.

End Sessions.

(** ** The login guard *)

Module LoginGuard.
Import GoTime HTTPAPI History Examples.
Import Guard.

Lemma wrap_small (z : Z) : - 2 ^ 63 ≤ z < 2 ^ 63 → GoInt.wrap z = z.
Proof. intros Hz. unfold GoInt.wrap. rewrite Z.mod_small; lia. Qed.

Lemma Sub_self (t : Time) : Sub t t = 0.
Proof. unfold Sub. by rewrite Z.sub_diag. Qed.

Lemma Sub_exact (t u : Time) :
  minDuration ≤ t - u ≤ maxDuration → Sub t u = t - u.
Proof.
  intros [Hlo Hhi]. unfold Sub.
  rewrite (proj2 (Z.ltb_ge _ _)) by done.
  by rewrite (proj2 (Z.ltb_ge _ _)) by done.
Qed.

(** The cleanup keeps the record of an address seen right now, and never
    touches the parameters of the guard. *)
Lemma cleanupLocked_keeps now g ip r :
  perIPStatus g !! ip = Some r → lastSeen r = now →
  perIPStatus (cleanupLocked now g) !! ip = Some r.
Proof.
  intros Hr Hseen. unfold cleanupLocked. case_match; [done|]. simpl.
  apply map_lookup_filter_Some_2; [done|]. simpl.
  by rewrite Hseen, Sub_self.
Qed.

Lemma cleanupLocked_recent now g ip r :
  perIPStatus g !! ip = Some r → Sub now (lastSeen r) ≤ 2 * Hour →
  perIPStatus (cleanupLocked now g) !! ip = Some r.
Proof.
  intros Hr Hrecent. unfold cleanupLocked. case_match; [done|]. simpl.
  apply map_lookup_filter_Some_2; [done|]. simpl.
  rewrite Z.gtb_ltb. apply Z.ltb_ge. done.
Qed.

Lemma cleanupLocked_params now g :
  burst (cleanupLocked now g) = burst g
  ∧ blockFor (cleanupLocked now g) = blockFor g.
Proof. unfold cleanupLocked. by case_match. Qed.

Lemma onFailure_params ip now g :
  burst (onFailure ip now g) = burst g
  ∧ blockFor (onFailure ip now g) = blockFor g.
Proof.
  unfold onFailure.
  match goal with
  | |- context [cleanupLocked ?n ?x] =>
      destruct (cleanupLocked_params n x) as [-> ->]
  end.
  done.
Qed.

(** What [onFailure] leaves in the record of the address. *)
Lemma onFailure_record ip now g :
  perIPStatus (onFailure ip now g) !! ip
  = Some (if GoInt.add (counter g ip) 1 >=? burst g
          then mkLoginGuardRecord 0 (Add now (blockFor g)) now
          else mkLoginGuardRecord (GoInt.add (counter g ip) 1)
                 (from_option blockedTill zeroTime (perIPStatus g !! ip)) now).
Proof.
  unfold onFailure, counter.
  apply cleanupLocked_keeps; simpl.
  - rewrite lookup_insert_eq. by destruct (perIPStatus g !! ip).
  - destruct (perIPStatus g !! ip); simpl; by case_match.
Qed.

(** Failures that stay below the burst only count up. *)
Lemma failures_below_burst ip times : ∀ g,
  0 ≤ counter g ip →
  counter g ip + Z.of_nat (length times) < burst g →
  burst g ≤ GoInt.maxInt →
  let g' := foldl (λ g u, onFailure ip u g) g times in
  counter g' ip = counter g ip + Z.of_nat (length times)
  ∧ burst g' = burst g ∧ blockFor g' = blockFor g.
Proof.
  induction times as [|u times IH]; intros g Hpos Hlt Hmax; simpl.
  { split; [lia|done]. }
  simpl in Hlt.
  assert (counter (onFailure ip u g) ip = counter g ip + 1) as Hstep.
  { unfold counter at 1. rewrite onFailure_record.
    unfold GoInt.add. unfold GoInt.maxInt in Hmax.
    rewrite wrap_small by lia.
    rewrite Z.geb_leb, (proj2 (Z.leb_gt _ _)) by lia. done. }
  destruct (onFailure_params ip u g) as [Hb Hf].
  destruct (IH (onFailure ip u g)) as (Hc & Hb' & Hf').
  - rewrite Hstep. lia.
  - rewrite Hstep, Hb. lia.
  - by rewrite Hb.
  - split; [rewrite Hc, Hstep; lia|]. split; congruence.
Qed.

(** While an address is blocked, [allow] denies it, changes nothing, and
    reports how long the block still lasts. *)
Lemma allow_blocked ip now g r :
  perIPStatus g !! ip = Some r → now < blockedTill r →
  allow ip now g = (g, (false, Sub (blockedTill r) now)).
Proof.
  intros Hr Hlt. unfold allow, Before. rewrite Hr.
  by rewrite (proj2 (Z.ltb_lt _ _)) by done.
Qed.

(** A block outlasts the traffic that can come while it lasts. *)
Lemma block_persists ip r calls : ∀ g,
  perIPStatus g !! ip = Some r →
  Forall (during_block ip r) calls →
  perIPStatus (guard_run calls g) !! ip = Some r.
Proof.
  induction calls as [|c calls IH]; intros g Hr Hcalls; [done|].
  apply Forall_cons in Hcalls as [Hc Hcalls].
  unfold guard_run in *. simpl. apply IH; [|done]. clear IH Hcalls.
  destruct c as [ip' now|ip' now|ip']; simpl in *.
  - destruct Hc as [Hsame Hrecent]. unfold allow.
    destruct (decide (ip' = ip)) as [->|Hne].
    + rewrite Hr. unfold Before.
      by rewrite (proj2 (Z.ltb_lt _ _)) by auto.
    + repeat (case_match; simplify_eq/=); try done;
        by apply cleanupLocked_recent.
  - destruct Hc as [Hne Hrecent]. unfold onFailure.
    apply cleanupLocked_recent; [|done]. simpl.
    by rewrite lookup_insert_ne.
  - unfold onSuccess. case_match; [|done]. simpl.
    by rewrite lookup_insert_ne.
Qed.

(** C9.  When the failure that makes the consecutive counter of an address
    reach [burst] is recorded at [t], the record of the address becomes:
    counter zero, blocked until [t + 60 s]; the record stays so under the
    requests that can follow while the block lasts.  Whenever an address is
    blocked
    until after [now], [allow] denies it without changing the guard and
    reports the remaining duration [blockedTill - now], and the login
    handler answers 429 with that duration, in whole seconds, as
    [Retry-After].  A successful login leaves the counter of the address at
    zero (and an existing block as it is). *)
Theorem login_guard_lockout g ip earlier t :
  blockFor g = 60 * Second →
  0 ≤ counter g ip →
  burst g = counter g ip + Z.of_nat (length earlier) + 1 →
  burst g ≤ GoInt.maxInt →
  let g' := onFailure ip t (foldl (λ g u, onFailure ip u g) g earlier) in
  perIPStatus g' !! ip = Some (mkLoginGuardRecord 0 (t + 60 * Second) t)
  ∧ (∀ calls,
       Forall (during_block ip (mkLoginGuardRecord 0 (t + 60 * Second) t))
         calls →
       perIPStatus (guard_run calls g') !! ip
       = Some (mkLoginGuardRecord 0 (t + 60 * Second) t))
  ∧ (∀ g1 r now,
       perIPStatus g1 !! ip = Some r →
       now < blockedTill r →
       blockedTill r - now ≤ maxDuration →
       allow ip now g1 = (g1, (false, blockedTill r - now))
       ∧ ∀ TrimSpace body svcNow rng a,
           Handler.handleOperatorLogin TrimSpace ip now body svcNow rng
             (Handler.mk g1 a)
           = (Handler.mk g1 a,
              Handler.mkResponse Handler.StatusTooManyRequests
                (Some (Z.quot (blockedTill r - now) Second)) None))
  ∧ (∀ g1,
       counter (onSuccess ip g1) ip = 0
       ∧ blockedTill <$> perIPStatus (onSuccess ip g1) !! ip
         = blockedTill <$> perIPStatus g1 !! ip).
Proof.
  intros Hfor Hpos Hburst Hmax g'.
  assert (perIPStatus g' !! ip
          = Some (mkLoginGuardRecord 0 (t + 60 * Second) t)) as Hrec.
  { destruct (failures_below_burst ip earlier g) as (Hc & Hb & Hf);
      [done|lia|done|].
    subst g'. rewrite onFailure_record, Hc, Hb, Hf, Hfor.
    unfold GoInt.add. unfold GoInt.maxInt in Hmax.
    rewrite wrap_small by lia.
    rewrite Z.geb_leb, (proj2 (Z.leb_le _ _)) by lia. done. }
  split; [done|]. split; [|split].
  - intros calls Hcalls. by apply block_persists.
  - intros g1 r now Hr Hlt Hfit.
    assert (allow ip now g1 = (g1, (false, blockedTill r - now))) as Hallow.
    { rewrite (allow_blocked ip now g1 r) by done.
      rewrite Sub_exact; [done|]. unfold minDuration. lia. }
    split; [done|]. intros. unfold Handler.handleOperatorLogin. simpl.
    by rewrite Hallow.
  - intros g1. unfold counter, onSuccess.
    destruct (perIPStatus g1 !! ip) as [r|] eqn:Hr; simpl.
    + by rewrite lookup_insert_eq.
    + by rewrite Hr.
Qed.

Lemma login_guard_lockout_witness :
  let g :=
    foldl (λ g u, onFailure "10.0.0.1" u g) (newLoginGuard 20 5)
      [t0; t0 + Second; t0 + 2 * Second; t0 + 3 * Second; t0 + 4 * Second] in
  perIPStatus g !! "10.0.0.1"%string
    = Some (mkLoginGuardRecord 0 (t0 + 64 * Second) (t0 + 4 * Second))
  ∧ allow "10.0.0.1" (t0 + 14 * Second) g = (g, (false, 50 * Second)).
Proof.
  intros g.
  destruct (login_guard_lockout (newLoginGuard 20 5) "10.0.0.1"
              [t0; t0 + Second; t0 + 2 * Second; t0 + 3 * Second]
              (t0 + 4 * Second))
    as (Hrec & _ & Hblocked & _); [by vm_compute..|].
  split; [exact Hrec|].
  edestruct (Hblocked g) as [Hallow _]; [exact Hrec| | |exact Hallow];
    by vm_compute.
Defined.

(** Scenario 6 of the specification: five wrong passwords are answered
    401, the sixth request 429 with the rest of the minute as
    [Retry-After], and once the block is over the right password logs in. *)
Example login_scenario :
  let '(h, responses) :=
    logins
      [(t0, "a"); (t0, "b"); (t0, "c"); (t0, "d"); (t0, "e");
       (t0, "lte_swd_admin"); (t0 + 20 * Second + 1, "lte_swd_admin");
       (t0 + 60 * Second, "lte_swd_admin")]%string server in
  (λ r, (Handler.status r, Handler.retryAfter r)) <$> responses
  = [(401, None); (401, None); (401, None); (401, None); (401, None);
     (429, Some 60); (429, Some 39); (200, None)].
Proof. by vm_compute. Qed.

End LoginGuard.

(** ** Loading the configuration *)

Module Environment.
Import GoTime Config Examples.

Section Unparsable.
Variable TrimSpace : string → string.
Variable ParseDuration : string → option Duration.
Variable env : gmap string string.

#[local] Abbreviation clean :=
  (without_unparsable ParseDuration env) (only parsing).

(** An unset variable is not unparsable. *)
Lemma unparsable_unset key :
  Getenv env key = ""%string → unparsable ParseDuration env key = false.
Proof. intros Hv. unfold unparsable. by rewrite Hv. Qed.

Lemma Getenv_clean key :
  Getenv clean key
  = if unparsable ParseDuration env key then ""%string else Getenv env key.
Proof.
  unfold Getenv at 1, without_unparsable. rewrite map_lookup_filter.
  destruct (env !! key) as [v|] eqn:Hv; simpl.
  - destruct (unparsable ParseDuration env key) eqn:Hu.
    + rewrite option_guard_False by (simpl; congruence). done.
    + rewrite option_guard_True by done. simpl. unfold Getenv. by rewrite Hv.
  - rewrite unparsable_unset; unfold Getenv; by rewrite Hv.
Qed.

(** The three readers do not see the difference. *)
Lemma getEnv_clean key def :
  key ∉ intOptions → key ∉ durationOptions → key ∉ boolOptions →
  getEnv clean key def = getEnv env key def.
Proof.
  intros Hi Hd Hb. unfold getEnv. rewrite Getenv_clean.
  unfold unparsable.
  rewrite (bool_decide_eq_false_2 (key ∈ intOptions)),
    (bool_decide_eq_false_2 (key ∈ durationOptions)),
    (bool_decide_eq_false_2 (key ∈ boolOptions)) by done.
  simpl. by rewrite andb_false_r.
Qed.

Lemma getEnvInt_clean key def :
  key ∈ intOptions → key ∉ durationOptions → key ∉ boolOptions →
  getEnvInt clean key def = getEnvInt env key def.
Proof.
  intros Hi Hd Hb. unfold getEnvInt. rewrite Getenv_clean.
  unfold unparsable.
  rewrite (bool_decide_eq_true_2 (key ∈ intOptions)),
    (bool_decide_eq_false_2 (key ∈ durationOptions)),
    (bool_decide_eq_false_2 (key ∈ boolOptions)) by done.
  simpl. rewrite !orb_false_r.
  repeat case_bool_decide; simpl; repeat case_decide; try done.
  by case_match.
Qed.

Lemma getEnvDuration_clean key def :
  key ∉ intOptions → key ∈ durationOptions → key ∉ boolOptions →
  getEnvDuration ParseDuration clean key def
  = getEnvDuration ParseDuration env key def.
Proof.
  intros Hi Hd Hb. unfold getEnvDuration. rewrite Getenv_clean.
  unfold unparsable.
  rewrite (bool_decide_eq_false_2 (key ∈ intOptions)),
    (bool_decide_eq_true_2 (key ∈ durationOptions)),
    (bool_decide_eq_false_2 (key ∈ boolOptions)) by done.
  simpl. rewrite !orb_false_r.
  repeat case_bool_decide; simpl; repeat case_decide; try done.
  by case_match.
Qed.

Lemma getEnvBool_clean key def :
  key ∉ intOptions → key ∉ durationOptions → key ∈ boolOptions →
  getEnvBool clean key def = getEnvBool env key def.
Proof.
  intros Hi Hd Hb. unfold getEnvBool. rewrite Getenv_clean.
  unfold unparsable.
  rewrite (bool_decide_eq_false_2 (key ∈ intOptions)),
    (bool_decide_eq_false_2 (key ∈ durationOptions)),
    (bool_decide_eq_true_2 (key ∈ boolOptions)) by done.
  simpl.
  repeat case_bool_decide; simpl; repeat case_decide; try done.
Qed.

Lemma Load_clean :
  Load TrimSpace ParseDuration env = Load TrimSpace ParseDuration clean.
Proof.
  unfold Load.
  rewrite !getEnv_clean, !getEnvInt_clean, !getEnvDuration_clean,
    !getEnvBool_clean; try done.
  all: compute_done.
Qed.

Lemma Getenv_delete key k :
  Getenv (delete key env) k
  = if decide (key = k) then ""%string else Getenv env k.
Proof. unfold Getenv. rewrite lookup_delete. by case_decide. Qed.

(** Dropping one unparsable variable leaves the same parsable ones. *)
Lemma without_unparsable_delete key :
  unparsable ParseDuration env key = true →
  without_unparsable ParseDuration (delete key env) = clean.
Proof.
  intros Hu. apply map_eq. intros k.
  unfold without_unparsable. rewrite !map_lookup_filter.
  destruct (decide (key = k)) as [<-|Hne].
  - rewrite lookup_delete_eq. simpl.
    destruct (env !! key); simpl; [|done].
    rewrite option_guard_False by (simpl; congruence). done.
  - rewrite lookup_delete_ne by done.
    destruct (env !! k) as [v|]; simpl; [|done].
    assert (unparsable ParseDuration (delete key env) k
            = unparsable ParseDuration env k) as ->; [|done].
    unfold unparsable. rewrite Getenv_delete. by case_decide.
Qed.

Lemma Load_nothing_set :
  TrimSpace "lte_swd_admin" ≠ ""%string →
  TrimSpace "r1-enroll-key" ≠ ""%string →
  Load TrimSpace ParseDuration ∅ = Loaded (defaults TrimSpace).
Proof.
  intros Hpw Hkey. unfold Load, getEnv, getEnvInt, getEnvDuration, getEnvBool,
    Getenv. rewrite !lookup_empty. simpl.
  repeat case_decide; try done.
Qed.
End Unparsable.

(** C10.  [Load] gives the same result, success or failure, on an
    environment and on that environment without its unparsable variables;
    in particular an unparsable variable can be dropped (left to its
    default) without changing the result, and an environment that sets
    nothing but unparsable values loads the default configuration.  A
    failure of [Load] is therefore a failure on the variables that parse. *)
Theorem Load_ignores_unparsable
    (TrimSpace : string → string) (ParseDuration : string → option Duration)
    (env : gmap string string) :
  Load TrimSpace ParseDuration env
  = Load TrimSpace ParseDuration (without_unparsable ParseDuration env)
  ∧ (∀ key,
       unparsable ParseDuration env key = true →
       Load TrimSpace ParseDuration env
       = Load TrimSpace ParseDuration (delete key env))
  ∧ (TrimSpace "lte_swd_admin" ≠ ""%string →
     TrimSpace "r1-enroll-key" ≠ ""%string →
     (∀ key, is_Some (env !! key) → unparsable ParseDuration env key = true) →
     Load TrimSpace ParseDuration env = Loaded (defaults TrimSpace)).
Proof.
  split; [apply Load_clean|]. split.
  - intros key Hu.
    rewrite (Load_clean _ _ env), (Load_clean _ _ (delete key env)).
    by rewrite without_unparsable_delete.
  - intros Hpw Hkey Hall. rewrite Load_clean.
    assert (without_unparsable ParseDuration env = ∅) as ->.
    { apply map_eq. intros k. rewrite lookup_empty.
      apply map_lookup_filter_None_2.
      destruct (env !! k) as [v|] eqn:Hk; [right|by left].
      intros v' _. simpl. rewrite Hall by (by rewrite Hk). done. }
    by apply Load_nothing_set.
Qed.

(** Non-numeric and out-of-range integers, an invalid duration and an
    unknown boolean spelling: the defaults are loaded. *)
Example Load_garbled :
  Load Strings.TrimSpaceASCII no_durations garbled_env
  = Loaded (defaults Strings.TrimSpaceASCII).
Proof. by vm_compute. Qed.

(** A value that parses but breaks a rule is what makes [Load] fail. *)
Example Load_zero_fleet :
  Load Strings.TrimSpaceASCII no_durations
    (<["FLEET_LIMIT"%string := "0"%string]> garbled_env)
  = Failed "fleet limit must be positive".
Proof. by vm_compute. Qed.

End Environment.

(** ** Telemetry histories and the listings of the store *)

Module TelemetryHistory.
Import GoTime Model Store History Examples StoreFacts Invariants Traffic.

(** Turns the comparisons among the hypotheses into inequalities. *)
Ltac order :=
  repeat match goal with
         | H : (_ <? _) = true |- _ => apply Z.ltb_lt in H
         | H : (_ <? _) = false |- _ => apply Z.ltb_ge in H
         | H : (_ <=? _) = true |- _ => apply Z.leb_le in H
         | H : (_ <=? _) = false |- _ => apply Z.leb_gt in H
         | H : (_ >? _) = true |- _ => apply Z.gtb_gt in H
         | H : (_ >? _) = false |- _ => rewrite Z.gtb_ltb in H
         | H : (_ >=? _) = true |- _ => rewrite Z.geb_leb in H
         | H : (_ >=? _) = false |- _ => rewrite Z.geb_leb in H
         end.

Lemma exec_telemetry_bounded c io s :
  telemetry_bounded (state s) → telemetry_bounded (state (exec c io s).1).
Proof.
  unfold telemetry_bounded, maxTelemetryHistory. intros Hs.
  destruct c; simpl; try done; paths; destruct io; simplify_eq/=; try done.
  all: intros k records; rewrite lookup_insert;
    destruct (decide (_ = k)) as [<-|Hne]; [|by eauto];
    intros [= <-]; unfold maxTelemetryHistory in *;
    rewrite ?length_drop, ?length_app in *; simpl in *; order; lia.
Qed.

Lemma last_drop_lt {A : Type} (l : list A) (n : nat) :
  (n < length l)%nat → last (drop n l) = last l.
Proof.
  intros Hn. rewrite !last_lookup, lookup_drop, length_drop. f_equal. lia.
Qed.

(** [AddTelemetry] of an authenticated device, whatever becomes of the
    snapshot write: the history of the device is the old one with the new
    record at its end, cut at the front to the last 500 records; the other
    histories stay; the sample is mirrored into the device. *)
Theorem AddTelemetry_keeps_newest deviceID deviceToken data now io s d :
  requireDeviceLocked s deviceID deviceToken = Ok d →
  let s' := (AddTelemetry deviceID deviceToken data now io s).1 in
  let record := TelemetryRecord.mk deviceID now data in
  let old := telemetry s deviceID in
  telemetry s' deviceID
  = drop (length old + 1 - 500)%nat (old ++ [record])
  ∧ last (telemetry s' deviceID) = Some record
  ∧ length (telemetry s' deviceID) = ((length old + 1) `min` 500)%nat
  ∧ (∀ other, other ≠ deviceID → telemetry s' other = telemetry s other)
  ∧ Devices (state s') !! deviceID
    = Some (Device.set_Status
              (Device.set_LastSeenAt
                 (Device.set_LastTelemetryAt
                    (Device.set_LastTelemetry d (Some data)) now) now)
              DeviceStatusOnline).
Proof.
  intros Hd s' record old.
  assert (state s'
          = set_Devices
              (set_TelemetryByID (state s)
                 (<[deviceID :=
                      drop (length old + 1 - 500)%nat (old ++ [record])]>
                    (TelemetryByID (state s))))
              (<[deviceID :=
                   Device.set_Status
                     (Device.set_LastSeenAt
                        (Device.set_LastTelemetryAt
                           (Device.set_LastTelemetry d (Some data)) now) now)
                     DeviceStatusOnline]> (Devices (state s)))) as Hs'.
  { subst s'. unfold AddTelemetry. rewrite Hd. cbv zeta.
    rewrite persistLocked_state. unfold put_device. simpl. f_equal.
    - f_equal. f_equal. subst old record. unfold telemetry.
      unfold maxTelemetryHistory. rewrite length_app. simpl.
      case_match; order.
      + f_equal. lia.
      + match goal with
        | |- _ = drop ?n _ => replace n with 0%nat by lia
        end. done.
    - f_equal. f_equal. f_equal. f_equal. f_equal.
      destruct data as [? ? ? ? ? ? [extra|]]; simpl; [|done].
      by rewrite map_fold_insert_id. }
  assert (telemetry s' deviceID
          = drop (length old + 1 - 500)%nat (old ++ [record])) as Hnew.
  { unfold telemetry. rewrite Hs'. simpl. by rewrite lookup_insert_eq. }
  split; [done|]. split; [|split; [|split]].
  - rewrite Hnew, last_drop_lt, last_snoc; [done|].
    rewrite length_app. simpl. lia.
  - rewrite Hnew, length_drop, length_app. simpl. lia.
  - intros other Hother. unfold telemetry. rewrite Hs'. simpl.
    by rewrite lookup_insert_ne.
  - rewrite Hs'. simpl. by rewrite lookup_insert_eq.
Qed.

Lemma AddTelemetry_keeps_newest_witness :
  let s' :=
    (AddTelemetry "d1" d1_token
       (Telemetry.mk 3700 5000 21.5%float (-71) "lte" 12 None)
       (t0 + Second) IOSuccess with_d1).1 in
  length (telemetry s' "d1") = 1%nat.
Proof.
  intros s'.
  destruct (AddTelemetry_keeps_newest "d1" d1_token
              (Telemetry.mk 3700 5000 21.5%float (-71) "lte" 12 None)
              (t0 + Second) IOSuccess with_d1
              (Device.mk "d1" "u1" "i1" "s1" "r1" d1_token t0 t0 t0 zeroTime
                 zeroTime None None DeviceStatusOnline))
    as (_ & _ & Hlen & _); [by vm_compute|].
  exact Hlen.
Defined.

(** Where the histories in memory and in the snapshot file hold at most
    500 records each, they do so after any calls and restarts. *)
Theorem telemetry_never_exceeds_bound events s deviceID :
  established telemetry_bounded s →
  established telemetry_bounded (history events s)
  ∧ Z.of_nat (length (telemetry (history events s) deviceID)) ≤ 500.
Proof.
  intros Hs.
  assert (established telemetry_bounded (history events s)) as Hh.
  { apply history_established; [|apply exec_telemetry_bounded|done].
    intros k records. simpl. by rewrite lookup_empty. }
  split; [done|]. destruct Hh as [Hmem _]. unfold telemetry.
  destruct (TelemetryByID (state (history events s)) !! deviceID)
    as [records|] eqn:Hk; simpl; [|lia].
  by apply (Hmem deviceID).
Qed.

Lemma telemetry_never_exceeds_bound_witness :
  Z.of_nat
    (length
       (telemetry
          (history
             [Called (CallAddTelemetry "d1" d1_token
                        (Telemetry.mk 3700 5000 21.5%float (-71) "lte" 12 None)
                        (t0 + Second)) IOSuccess;
              Restarted true] with_d1) "d1")) ≤ 500.
Proof.
  apply (telemetry_never_exceeds_bound
           [Called (CallAddTelemetry "d1" d1_token
                      (Telemetry.mk 3700 5000 21.5%float (-71) "lte" 12 None)
                      (t0 + Second)) IOSuccess;
            Restarted true] with_d1 "d1").
  split.
  - intros k records. vm_compute. discriminate.
  - intros st [= <-] k records. vm_compute. discriminate.
Defined.

End TelemetryHistory.

Module Listings.
Import GoTime Model Store History Examples StoreFacts Traffic.

(** The length of the tail a listing returns for [limit]. *)
Lemma tail_length {A : Type} (items : list A) (limit : Z) :
  0 < limit → limit < Z.of_nat (length items) →
  length (drop (Z.to_nat (Z.of_nat (length items) - limit)) items)
  = Z.to_nat limit.
Proof. intros. rewrite length_drop. lia. Qed.

(** [ListTelemetry] answers [ErrDeviceNotFound] for an unknown device;
    for a known one it returns the newest records in their order: all of
    them when [limit] is not positive, else the last [limit] (all, when
    there are no more). *)
Theorem ListTelemetry_tail deviceID limit s :
  match Devices (state s) !! deviceID with
  | None => ListTelemetry deviceID limit s = Err ErrDeviceNotFound
  | Some _ =>
      ∃ older items,
        ListTelemetry deviceID limit s = Ok items
        ∧ telemetry s deviceID = older ++ items
        ∧ length items
          = if 0 <? limit
            then (Z.to_nat limit `min` length (telemetry s deviceID))%nat
            else length (telemetry s deviceID)
  end.
Proof.
  unfold ListTelemetry, telemetry.
  destruct (Devices (state s) !! deviceID); [|done].
  set (items := default [] (TelemetryByID (state s) !! deviceID)).
  destruct (0 <? limit) eqn:Hpos;
    [apply Z.ltb_lt in Hpos|apply Z.ltb_ge in Hpos].
  - destruct (limit >=? Z.of_nat (length items)) eqn:Hall.
    + rewrite orb_true_r. exists [], items. split; [done|]. split; [done|]. lia.
    + rewrite (proj2 (Z.leb_gt _ _)) by lia. simpl.
      exists (take (Z.to_nat (Z.of_nat (length items) - limit)) items).
      eexists. split; [done|]. split; [by rewrite take_drop|].
      rewrite tail_length by lia. lia.
  - rewrite (proj2 (Z.leb_le _ _)) by lia. simpl.
    by exists [], items.
Qed.

(** [ListCommands] likewise: the commands of a known device, oldest
    first, cut to the last [limit] when [limit] is positive. *)
Theorem ListCommands_tail deviceID limit s :
  match Devices (state s) !! deviceID with
  | None => ListCommands deviceID limit s = Err ErrDeviceNotFound
  | Some _ =>
      ∃ older items,
        ListCommands deviceID limit s = Ok items
        ∧ queue s deviceID = older ++ items
        ∧ length items
          = if 0 <? limit
            then (Z.to_nat limit `min` length (queue s deviceID))%nat
            else length (queue s deviceID)
  end.
Proof.
  unfold ListCommands, queue.
  destruct (Devices (state s) !! deviceID); [|done].
  set (items := default [] (CommandsByID (state s) !! deviceID)).
  assert (∀ l : list Command.t, cloneCommand <$> l = l) as Hclone.
  { intros l. rewrite (list_fmap_ext cloneCommand id)
      by (intros; apply cloneCommand_id). apply list_fmap_id. }
  cbv zeta. rewrite Hclone.
  destruct (0 <? limit) eqn:Hpos;
    [apply Z.ltb_lt in Hpos|apply Z.ltb_ge in Hpos].
  - rewrite (proj2 (Z.gtb_gt _ _)) by lia. simpl.
    destruct (Z.of_nat (length items) >? limit) eqn:Hmore.
    + exists (take (Z.to_nat (Z.of_nat (length items) - limit)) items).
      eexists. split; [done|]. split; [by rewrite take_drop|].
      rewrite tail_length by lia. lia.
    + exists [], items. split; [done|]. split; [done|]. lia.
  - replace (limit >? 0) with false by (symmetry; lia). simpl.
    by exists [], items.
Qed.

End Listings.

(** ** Device authentication and enrolment *)

Module DeviceAuth.
Import GoTime Model Store History Examples StoreFacts Traffic.

(** A request of a device that is unknown, or known with another token,
    is refused by every device-facing method of the store with the same
    error, [ErrDeviceNotFound] or [ErrInvalidDeviceToken], and neither the
    state nor the files change; not even the liveness of the device is
    touched. *)
Theorem unauthenticated_changes_nothing s deviceID deviceToken e :
  requireDeviceLocked s deviceID deviceToken = Err e →
  match Devices (state s) !! deviceID with
  | None => e = ErrDeviceNotFound
  | Some d => e = ErrInvalidDeviceToken ∧ Device.DeviceToken d ≠ deviceToken
  end
  ∧ ∀ now io,
      ValidateDeviceToken deviceID deviceToken now io s = (s, Err e)
      ∧ AddHeartbeat deviceID deviceToken now io s = (s, Some e)
      ∧ (∀ data, AddTelemetry deviceID deviceToken data now io s = (s, Some e))
      ∧ (∀ location,
           AddLocation deviceID deviceToken location now io s = (s, Some e))
      ∧ PullNextCommand deviceID deviceToken now io s = (s, Err e)
      ∧ (∀ commandID result,
           CompleteCommand deviceID deviceToken commandID result now io s
           = (s, Err e)).
Proof.
  intros Hreq. split.
  - unfold requireDeviceLocked in Hreq.
    destruct (Devices (state s) !! deviceID) as [d|]; [|congruence].
    case_decide; by simplify_eq.
  - intros now io.
    unfold AddHeartbeat, AddTelemetry, AddLocation, PullNextCommand,
      CompleteCommand. rewrite Hreq.
    repeat split. unfold ValidateDeviceToken.
    unfold requireDeviceLocked in Hreq.
    destruct (Devices (state s) !! deviceID) as [d|]; [|congruence].
    case_decide; by simplify_eq.
Qed.

Lemma unauthenticated_changes_nothing_witness :
  AddHeartbeat "d1" "dev_guess" (t0 + Second) IOSuccess with_d1
  = (with_d1, Some ErrInvalidDeviceToken).
Proof.
  destruct (unauthenticated_changes_nothing with_d1 "d1" "dev_guess"
              ErrInvalidDeviceToken) as [_ Hcalls]; [by vm_compute|].
  apply (Hcalls (t0 + Second) IOSuccess).
Defined.

End DeviceAuth.

Module Enrollment.
Import GoTime Model Store History Examples StoreFacts Invariants Traffic.



Section Durable.
Variable P : PersistedState → Prop.
Hypothesis P_exec : ∀ c io s, P (state s) → P (state (exec c io s).1).


End Durable.



(** Registering a known device again, without a conflict of identity and
    with the snapshot written: the call succeeds also in a full fleet,
    reports that nothing was created and returns the device with its old
    token and registration time; the firmware version is replaced only
    by a non-empty one, and the device counts as seen. *)
Theorem RegisterDevice_again
    deviceID hwUID modemIMEI simICCID firmwareVersion now rng s existing :
  Devices (state s) !! deviceID = Some existing →
  ¬ identity_conflict existing hwUID modemIMEI →
  ∃ s' d,
    RegisterDevice deviceID hwUID modemIMEI simICCID firmwareVersion now rng
      IOSuccess s = (s', Ok (d, false))
    ∧ Device.DeviceToken d = Device.DeviceToken existing
    ∧ Device.RegisteredAt d = Device.RegisteredAt existing
    ∧ Device.FirmwareVersion d
      = (if decide (firmwareVersion = "") then Device.FirmwareVersion existing
         else firmwareVersion)
    ∧ Device.LastSeenAt d = now
    ∧ Device.LastHeartbeatAt d = now
    ∧ Device.Status d = DeviceStatusOnline
    ∧ Devices (state s') = <[deviceID := d]> (Devices (state s))
    ∧ DeviceCount s' = DeviceCount s.
Proof.
  intros Hd Hfree. unfold RegisterDevice. rewrite Hd.
  case_match eqn:Hconflict.
  - exfalso. apply Hfree. unfold identity_conflict.
    apply orb_true_iff in Hconflict as [H|H];
      apply andb_true_iff in H as [H H3];
      apply andb_true_iff in H as [H1 H2];
      apply bool_decide_eq_true in H1, H2, H3; auto.
  - simpl. rewrite CloneDevice_id. eexists _, _. split; [done|].
    simpl. repeat split.
    + unfold firstNonEmpty. by repeat case_decide.
    + unfold DeviceCount. simpl. by rewrite map_size_insert_Some.
Qed.

Lemma RegisterDevice_again_witness :
  ∃ s' d,
    RegisterDevice "d1" "u1" "" "" "r2" (t0 + Second) ones IOSuccess
      ((RegisterDevice "d1" "u1" "i1" "s1" "r1" t0 zeros IOSuccess
          (fresh 1)).1) = (s', Ok (d, false))
    ∧ Device.DeviceToken d = d1_token
    ∧ Device.FirmwareVersion d = "r2"%string.
Proof.
  destruct (RegisterDevice_again "d1" "u1" "" "" "r2" (t0 + Second) ones
              ((RegisterDevice "d1" "u1" "i1" "s1" "r1" t0 zeros IOSuccess
                  (fresh 1)).1)
              (Device.mk "d1" "u1" "i1" "s1" "r1" d1_token t0 t0 t0 zeroTime
                 zeroTime None None DeviceStatusOnline))
    as (s' & d & Hcall & Htoken & _ & Hfw & _).
  - by vm_compute.
  - unfold identity_conflict. simpl. intros [(_ & _ & H)|(_ & H & _)]; done.
  - exists s', d. split; [exact Hcall|]. split; [exact Htoken|exact Hfw].
Defined.

End Enrollment.

Module Snapshots.
Import GoTime Model Store History Examples StoreFacts Invariants Traffic.

(** The state in memory after a call does not depend on what becomes of
    the snapshot write. *)
Lemma exec_state_any_io c io s :
  state (exec c io s).1 = state (exec c IOSuccess s).1.
Proof.
  destruct c; simpl; try done; paths; destruct io; simplify_eq/=; done.
Qed.

(** A call whose snapshot write fails is not rolled back: memory changes
    exactly as it does when the write succeeds, while the data file keeps
    what it held.  The call can only return without error if it is one
    that writes nothing. *)
Theorem failed_write_is_not_rolled_back c io s :
  io ≠ IOSuccess →
  state (exec c io s).1 = state (exec c IOSuccess s).1
  ∧ data_file (files (exec c io s).1) = data_file (files s)
  ∧ ((exec c io s).2 = true → (exec c io s).1 = s).
Proof.
  intros Hio. split; [apply exec_state_any_io|].
  destruct c; simpl; try done; paths; destruct io; simplify_eq/=; done.
Qed.

Lemma failed_write_is_not_rolled_back_witness :
  let s' :=
    (exec (CallRegisterDevice "d1" "u1" "i1" "s1" "r1" t0 zeros) RenameFails
       (fresh 10)).1 in
  state s' = state with_d1 ∧ data_file (files s') = None.
Proof.
  intros s'.
  destruct (failed_write_is_not_rolled_back
              (CallRegisterDevice "d1" "u1" "i1" "s1" "r1" t0 zeros)
              RenameFails (fresh 10)) as (Hstate & Hfile & _); [done|].
  split; [exact Hstate|exact Hfile].
Defined.



End Snapshots.

(** ** Command queues over time, and stored artifacts *)

Module Queue.
Import GoTime Model Store History Examples StoreFacts Traffic.

Lemma request_insert (q : list Command.t) (i : nat) (item item' : Command.t) :
  q !! i = Some item → request item' = request item →
  request <$> <[i := item']> q = request <$> q.
Proof.
  intros Hi Hreq. rewrite list_fmap_insert, Hreq.
  apply list_insert_id. by rewrite list_lookup_fmap, Hi.
Qed.

(** A call leaves what a queue records of its commands' requests in
    place and may add one request at the end. *)
Lemma exec_queue_prefix c io s deviceID :
  request <$> queue s deviceID
    `prefix_of` request <$> queue (exec c io s).1 deviceID.
Proof.
  unfold queue.
  destruct c; simpl; try reflexivity; paths; destruct io; simplify_eq/=;
    try reflexivity; rewrite lookup_insert;
    (destruct (decide (_ = deviceID)) as [->|Hne]; [|reflexivity]); simpl.
  all: try (rewrite fmap_app; by apply prefix_app_r).
  all: match goal with
       | H : list_find _ _ = Some _ |- _ =>
           apply list_find_Some in H as (Hi & _ & _)
       end;
    by erewrite request_insert.
Qed.

(** Commands stay in their queue for history.  Whatever calls follow one
    another, a queue keeps every command at its position with the
    identifier, device, type, payload, author and creation time it was
    enqueued with; the queue only grows, at its end. *)
Theorem command_history_append_only cs s deviceID :
  request <$> queue s deviceID
    `prefix_of` request <$> queue (calls cs s) deviceID.
Proof.
  revert s. unfold calls, history.
  induction cs as [|[c io] cs IH]; intros s; [reflexivity|].
  simpl. etrans; [apply (exec_queue_prefix c io)|apply IH].
Qed.

(** [AddCommand] for an unknown device fails with [ErrDeviceNotFound]
    and changes nothing. *)
Lemma AddCommand_unknown deviceID commandType payload createdBy now rng io s :
  Devices (state s) !! deviceID = None →
  AddCommand deviceID commandType payload createdBy now rng io s
  = (s, Err ErrDeviceNotFound).
Proof. intros Hd. unfold AddCommand. by rewrite Hd. Qed.

Lemma AddCommand_appends
    deviceID commandType payload createdBy now rng s d :
  Devices (state s) !! deviceID = Some d →
  let command :=
    Command.mk (Util.RandomToken "cmd" 12 rng) deviceID commandType payload
      createdBy now None None CommandQueued None in
  ∃ s1,
    AddCommand deviceID commandType payload createdBy now rng IOSuccess s
    = (s1, Ok command)
    ∧ queue s1 deviceID = queue s deviceID ++ [command]
    ∧ Devices (state s1) = Devices (state s).
Proof.
  intros Hd command. unfold AddCommand. rewrite Hd. simpl.
  rewrite cloneCommand_id. eexists. split; [done|]. unfold queue. simpl.
  by rewrite lookup_insert_eq.
Qed.

Lemma PullNextCommand_found deviceID deviceToken now s d i item :
  Devices (state s) !! deviceID = Some d →
  Device.DeviceToken d = deviceToken →
  list_find (λ item, Command.Status item = CommandQueued) (queue s deviceID)
  = Some (i, item) →
  let item' :=
    Command.set_DispatchedAt (Command.set_Status item CommandDispatched)
      (Some now) in
  ∃ s',
    PullNextCommand deviceID deviceToken now IOSuccess s
    = (s', Ok (Some item'))
    ∧ queue s' deviceID = <[i := item']> (queue s deviceID)
    ∧ Devices (state s') !! deviceID
      = Some (Device.set_Status (Device.set_LastSeenAt d now)
                DeviceStatusOnline).
Proof.
  intros Hd Htoken Hfind item'. unfold queue in *.
  unfold PullNextCommand, requireDeviceLocked. rewrite Hd.
  rewrite decide_False by (by intros ?). rewrite Hfind. simpl.
  rewrite cloneCommand_id. eexists. split; [done|]. simpl.
  by rewrite !lookup_insert_eq.
Qed.

Lemma PullNextCommand_nothing deviceID deviceToken now s d :
  Devices (state s) !! deviceID = Some d →
  Device.DeviceToken d = deviceToken →
  list_find (λ item, Command.Status item = CommandQueued) (queue s deviceID)
  = None →
  ∃ s',
    PullNextCommand deviceID deviceToken now IOSuccess s = (s', Ok None)
    ∧ queue s' deviceID = queue s deviceID.
Proof.
  intros Hd Htoken Hfind. unfold queue in *.
  unfold PullNextCommand, requireDeviceLocked. rewrite Hd.
  rewrite decide_False by (by intros ?). rewrite Hfind. simpl.
  by eexists.
Qed.

(** Enqueue, pull, pull again.  For a device whose queue has no queued
    command left, [AddCommand] returns a queued command with the type,
    payload and author it was given; the next [PullNextCommand] of the
    device returns that command, now dispatched with [dispatched_at]
    set; and the pull after that returns no command. *)
Theorem AddCommand_then_pull
    deviceID deviceToken commandType payload createdBy now rng now1 now2 s d :
  requireDeviceLocked s deviceID deviceToken = Ok d →
  Forall (λ c, Command.Status c ≠ CommandQueued) (queue s deviceID) →
  let command :=
    Command.mk (Util.RandomToken "cmd" 12 rng) deviceID commandType payload
      createdBy now None None CommandQueued None in
  let dispatched :=
    Command.set_DispatchedAt (Command.set_Status command CommandDispatched)
      (Some now1) in
  ∃ s1 s2 s3,
    AddCommand deviceID commandType payload createdBy now rng IOSuccess s
    = (s1, Ok command)
    ∧ queue s1 deviceID = queue s deviceID ++ [command]
    ∧ PullNextCommand deviceID deviceToken now1 IOSuccess s1
      = (s2, Ok (Some dispatched))
    ∧ queue s2 deviceID = queue s deviceID ++ [dispatched]
    ∧ PullNextCommand deviceID deviceToken now2 IOSuccess s2 = (s3, Ok None)
    ∧ queue s3 deviceID = queue s2 deviceID.
Proof.
  intros Hreq Hnone command dispatched.
  assert (Devices (state s) !! deviceID = Some d
          ∧ Device.DeviceToken d = deviceToken) as [Hd Htoken].
  { unfold requireDeviceLocked in Hreq.
    destruct (Devices (state s) !! deviceID) as [d'|]; [|done].
    case_decide as Hne; [done|]. injection Hreq as ->. split; [done|].
    by destruct (decide (Device.DeviceToken d = deviceToken)). }
  destruct (AddCommand_appends deviceID commandType payload createdBy now rng
              s d Hd) as (s1 & Hadd & Hq1 & Hd1).
  fold command in Hadd, Hq1.
  assert (list_find (λ item, Command.Status item = CommandQueued)
            (queue s1 deviceID)
          = Some (length (queue s deviceID), command)) as Hfind.
  { rewrite Hq1. apply list_find_Some. split; [|split; [done|]].
    - by rewrite lookup_app_r, Nat.sub_diag by lia.
    - intros j y Hj Hlt. rewrite lookup_app_l in Hj by done.
      by eapply (Forall_lookup_1 _ _ _ _ Hnone). }
  rewrite <-Hd1 in Hd.
  destruct (PullNextCommand_found deviceID deviceToken now1 s1 d _ _ Hd Htoken
              Hfind) as (s2 & Hpull & Hq2 & Hd2).
  fold dispatched in Hpull, Hq2.
  assert (queue s2 deviceID = queue s deviceID ++ [dispatched]) as Hq2'.
  { rewrite Hq2, Hq1, insert_app_r_alt, Nat.sub_diag by lia. done. }
  assert (list_find (λ item, Command.Status item = CommandQueued)
            (queue s2 deviceID) = None) as Hfind'.
  { rewrite Hq2'. apply list_find_None, Forall_app. split; [done|].
    by repeat constructor. }
  destruct (PullNextCommand_nothing deviceID deviceToken now2 s2 _ Hd2 Htoken
              Hfind') as (s3 & Hpull' & Hq3).
  by exists s1, s2, s3.
Qed.

Lemma AddCommand_then_pull_witness :
  ∃ s1 s2 s3,
    AddCommand "d1" "swd_reset" (bytes_of_string "{}") "operator"
      (t0 + Second) zeros IOSuccess with_d1
    = (s1, Ok (Command.mk command_id "d1" "swd_reset" (bytes_of_string "{}")
                 "operator" (t0 + Second) None None CommandQueued None))
    ∧ PullNextCommand "d1" d1_token (t0 + 2 * Second) IOSuccess s1
      = (s2, Ok (Some (Command.mk command_id "d1" "swd_reset"
                         (bytes_of_string "{}") "operator" (t0 + Second)
                         (Some (t0 + 2 * Second)) None CommandDispatched None)))
    ∧ PullNextCommand "d1" d1_token (t0 + 3 * Second) IOSuccess s2
      = (s3, Ok None).
Proof.
  destruct (AddCommand_then_pull "d1" d1_token "swd_reset"
              (bytes_of_string "{}") "operator" (t0 + Second) zeros
              (t0 + 2 * Second) (t0 + 3 * Second) with_d1
              (Device.mk "d1" "u1" "i1" "s1" "r1" d1_token t0 t0 t0 zeroTime
                 zeroTime None None DeviceStatusOnline))
    as (s1 & s2 & s3 & Hadd & _ & Hpull & _ & Hpull' & _).
  - by vm_compute.
  - by vm_compute.
  - exists s1, s2, s3. split; [exact Hadd|]. split; [exact Hpull|exact Hpull'].
Defined.

End Queue.

Module ArtifactStore.
Import GoTime Model Store History Examples StoreFacts Invariants Traffic Enrollment.




End ArtifactStore.

(** ** Operator logins *)

Module OperatorSessions.
Import GoTime History Examples Sessions.
Import Auth.

Lemma Login_right_password now rng a :
  Login (password a) now rng a
  = (cleanupLocked now
       (set_tokens a
          (<[Util.RandomToken "op" 16 rng := Add now (ttl a)]> (tokens a))),
     (Util.RandomToken "op" 16 rng, Add now (ttl a), None)).
Proof. unfold Login. by rewrite decide_False by (by intros ?). Qed.

(** With a lifetime that is not negative, the session [Login] hands out
    is stored with its expiry. *)
Lemma Login_stored now rng a :
  0 ≤ ttl a →
  tokens (Login (password a) now rng a).1 !! Util.RandomToken "op" 16 rng
  = Some (Add now (ttl a)).
Proof.
  intros Httl. rewrite Login_right_password. unfold cleanupLocked, After.
  simpl. apply map_lookup_filter_Some_2; [apply lookup_insert_eq|].
  simpl. apply Z.ltb_ge. unfold Add. lia.
Qed.

(** [Login] with a wrong password fails with [ErrInvalidPassword] and
    leaves the sessions as they are.  With the right password it hands
    out the token made from the generator, stored with the expiry [now +
    ttl]; it drops exactly the other sessions whose expiry [now] has
    passed; and, the lifetime not being negative, [Validate] accepts the
    token at every instant up to the expiry and rejects it after.  With
    a negative lifetime the session is gone before [Login] returns. *)
Theorem Login_issues_session password now rng a :
  let r := Login password now rng a in
  let token := Util.RandomToken "op" 16 rng in
  let expiresAt : Time := now + ttl a in
  if decide (password = Auth.password a)
  then
    r.2 = (token, expiresAt, None)
    ∧ (∀ t (e : Time), t ≠ token →
         tokens r.1 !! t = Some e ↔ tokens a !! t = Some e ∧ now ≤ e)
    ∧ (0 ≤ ttl a →
       tokens r.1 !! token = Some expiresAt
       ∧ (∀ now', now' ≤ expiresAt → Validate token now' r.1 = (r.1, None))
       ∧ (∀ now', expiresAt < now' →
            (Validate token now' r.1).2 = Some ErrInvalidToken))
    ∧ (ttl a < 0 → tokens r.1 !! token = None)
  else r = (a, (""%string, zeroTime, Some ErrInvalidPassword)).
Proof.
  intros r token expiresAt. subst r.
  destruct (decide (password = Auth.password a)) as [->|Hne];
    [|unfold Login; by rewrite decide_True].
  rewrite Login_right_password. subst token expiresAt.
  set (token := Util.RandomToken "op" 16 rng).
  set (expiresAt := Add now (ttl a)).
  set (a1 := cleanupLocked now
               (set_tokens a (<[token := expiresAt]> (tokens a)))).
  cbn [fst snd].
  assert (∀ t (e : Time), tokens a1 !! t = Some e
                 ↔ <[token := expiresAt]> (tokens a) !! t = Some e
                   ∧ now ≤ e) as Hsweep.
  { intros t e. unfold a1, cleanupLocked, After. simpl.
    rewrite map_lookup_filter_Some. simpl. rewrite Z.ltb_ge. done. }
  clearbody a1.
  split; [done|]. split; [|split].
  - intros t e Ht. rewrite Hsweep. by rewrite lookup_insert_ne.
  - intros Httl.
    assert (tokens a1 !! token = Some expiresAt) as Hstored.
    { apply Hsweep. rewrite lookup_insert_eq. split; [done|].
      unfold expiresAt, Add. lia. }
    split; [done|]. split.
    + intros now' Hnow'. unfold Validate, After. rewrite Hstored. simpl.
      by rewrite (proj2 (Z.ltb_ge _ _)) by done.
    + intros now' Hnow'. unfold Validate, After. rewrite Hstored. simpl.
      by rewrite (proj2 (Z.ltb_lt _ _)) by done.
  - intros Httl.
    destruct (tokens a1 !! token) as [e|] eqn:He; [|done].
    apply Hsweep in He as [He Hlive]. rewrite lookup_insert_eq in He.
    injection He as <-. unfold expiresAt, Add in Hlive. lia.
Qed.

End OperatorSessions.

(** ** The fixed-window limiter *)

Module RateLimit.
Import GoTime HTTPAPI History Examples Traffic LoginGuard.
Import Limiter.

Lemma cleanupLocked_keeps_self now l key b :
  entries l !! key = Some b → bucketLastSeen b = now →
  0 ≤ GoInt.mul (window l) 3 →
  entries (cleanupLocked now l) !! key = Some b
  ∧ limit (cleanupLocked now l) = limit l
  ∧ window (cleanupLocked now l) = window l.
Proof.
  intros Hb Hseen Hwin. unfold cleanupLocked. case_match; [done|]. simpl.
  split; [|done]. apply map_lookup_filter_Some_2; [done|]. simpl.
  rewrite Hseen, Sub_self, Z.gtb_ltb. by apply Z.ltb_ge.
Qed.

(** A request inside the running window is allowed exactly while the
    count is below the limit, and counted when allowed. *)
Lemma allow_in_window key now l start c seen :
  entries l !! key = Some (mkRateBucket start c seen) →
  Sub now start < window l →
  0 ≤ c →
  limit l ≤ GoInt.maxInt →
  0 ≤ GoInt.mul (window l) 3 →
  let r := allow key now l in
  r.2 = (c <? limit l)
  ∧ entries r.1 !! key
    = Some (mkRateBucket start (if c <? limit l then c + 1 else c) now)
  ∧ limit r.1 = limit l
  ∧ window r.1 = window l.
Proof.
  intros Hb Hin Hmin Hmax Hwin r. subst r.
  assert ((Sub now start >=? window l) = false) as Hw
    by (rewrite Z.geb_leb; apply Z.leb_gt; lia).
  unfold allow. rewrite Hb. cbn [windowStart count bucketLastSeen].
  rewrite Hw. cbn [windowStart count bucketLastSeen]. rewrite Z.geb_leb.
  destruct (c <? limit l) eqn:Hc;
    [apply Z.ltb_lt in Hc|apply Z.ltb_ge in Hc].
  - rewrite (proj2 (Z.leb_gt _ _)) by done. cbn [fst snd].
    unfold GoInt.add. rewrite wrap_small
      by (unfold GoInt.maxInt in Hmax; lia).
    split; [done|].
    apply (cleanupLocked_keeps_self now
             (set_entries l (<[key := mkRateBucket start (c + 1) now]> (entries l)))
             key (mkRateBucket start (c + 1) now));
      [simpl; apply lookup_insert_eq|done|done].
  - rewrite (proj2 (Z.leb_le _ _)) by done. cbn [fst snd].
    split; [done|].
    apply (cleanupLocked_keeps_self now
             (set_entries l (<[key := mkRateBucket start c now]> (entries l)))
             key (mkRateBucket start c now));
      [simpl; apply lookup_insert_eq|done|done].
Qed.

(** The answers to requests inside the window of a bucket that counts
    [c]: allowed until the count reaches the limit, refused from then
    on. *)
Lemma budget_from key start times : ∀ l c seen,
  entries l !! key = Some (mkRateBucket start c seen) →
  0 ≤ c ≤ limit l →
  limit l ≤ GoInt.maxInt →
  0 ≤ GoInt.mul (window l) 3 →
  Forall (λ t, Sub t start < window l) times →
  (allows key times l).2
  = replicate (length times `min` Z.to_nat (limit l - c)) true
    ++ replicate (length times - Z.to_nat (limit l - c)) false.
Proof.
  induction times as [|t times IH]; intros l c seen Hb Hc Hmax Hwin Htimes;
    [done|].
  apply Forall_cons in Htimes as [Ht Htimes].
  destruct (allow_in_window key t l start c seen Hb Ht (proj1 Hc) Hmax Hwin)
    as (Hok & Hb1 & Hlimit & Hwindow).
  simpl. destruct (allow key t l) as [l1 ok] eqn:Hallow. simpl in *.
  specialize (IH l1 (if c <? limit l then c + 1 else c) t Hb1).
  destruct (allows key times l1) as [l2 oks]. simpl in *.
  rewrite Hlimit, Hwindow in IH. rewrite Hok.
  destruct (c <? limit l) eqn:Hlt;
    [apply Z.ltb_lt in Hlt|apply Z.ltb_ge in Hlt].
  - rewrite IH by (done || lia).
    replace (Z.to_nat (limit l - c)) with (S (Z.to_nat (limit l - (c + 1))))
      by lia.
    done.
  - rewrite IH by (done || lia).
    replace (Z.to_nat (limit l - c)) with 0%nat by lia.
    rewrite Nat.min_0_r, Nat.sub_0_r. done.
Qed.

(** The first request of an address opens a window; while it runs, the
    address is allowed [limit] requests in all. *)
Lemma budget_fresh key t0 times l :
  entries l !! key = None →
  1 ≤ limit l ≤ GoInt.maxInt →
  0 ≤ GoInt.mul (window l) 3 →
  Forall (λ t, Sub t t0 < window l) times →
  (allows key (t0 :: times) l).2
  = replicate (S (length times) `min` Z.to_nat (limit l)) true
    ++ replicate (S (length times) - Z.to_nat (limit l)) false.
Proof.
  intros Hnone Hlimit Hwin Htimes. simpl.
  unfold allow at 1. rewrite Hnone. cbv zeta.
  match goal with
  | |- context [cleanupLocked t0 ?x] =>
      destruct (cleanupLocked_keeps_self t0 x key (mkRateBucket t0 1 t0))
        as (Hb & Hl & Hw); [simpl; apply lookup_insert_eq|done|done|];
      set (l1 := cleanupLocked t0 x) in *
  end.
  simpl in Hl, Hw.
  pose proof (budget_from key t0 times l1 1 t0 Hb) as Hrest.
  rewrite Hl, Hw in Hrest.
  destruct (allows key times l1) as [l2 oks]. simpl in *.
  rewrite Hrest by (done || lia).
  replace (Z.to_nat (limit l)) with (S (Z.to_nat (limit l - 1))) by lia.
  done.
Qed.

(** Once the window of an address has run out, its next request is
    allowed and opens a new window that has counted this one request. *)
Theorem window_restarts key now l b :
  entries l !! key = Some b →
  window l ≤ Sub now (windowStart b) →
  1 ≤ limit l →
  0 ≤ GoInt.mul (window l) 3 →
  (allow key now l).2 = true
  ∧ entries (allow key now l).1 !! key = Some (mkRateBucket now 1 now).
Proof.
  intros Hb Hout Hlimit Hwin.
  assert ((Sub now (windowStart b) >=? window l) = true) as Hw
    by (rewrite Z.geb_leb; apply Z.leb_le; lia).
  unfold allow. rewrite Hb. cbv zeta. rewrite Hw.
  cbn [windowStart count bucketLastSeen].
  replace (0 >=? limit l) with false
    by (symmetry; rewrite Z.geb_leb; apply Z.leb_gt; lia).
  cbn [fst snd]. split; [done|].
  change (GoInt.add 0 1) with 1.
  apply (cleanupLocked_keeps_self now
           (set_entries l (<[key := mkRateBucket now 1 now]> (entries l)))
           key (mkRateBucket now 1 now));
    [simpl; apply lookup_insert_eq|done|done].
Qed.

Lemma window_restarts_witness :
  let l := (allows "10.0.0.1" [t0; t0 + Second] (newIPRateLimiter 2 Minute)).1 in
  (allow "10.0.0.1" (t0 + Second) l).2 = false
  ∧ (allow "10.0.0.1" (t0 + Minute) l).2 = true.
Proof.
  intros l. split; [by vm_compute|].
  apply (window_restarts "10.0.0.1" (t0 + Minute) l
           (mkRateBucket t0 2 (t0 + Second))); by vm_compute.
Defined.

Lemma served_allows path ip times : ∀ h,
  GoStrings.HasPrefix path "/api/" = true →
  served path ip times h
  = (Routes.set_apiRateLimiter h
       (allows ip times (Routes.apiRateLimiter h)).1,
     (λ ok : bool,
        if ok then None
        else Some (Handler.StatusTooManyRequests, "60"%string))
       <$> (allows ip times (Routes.apiRateLimiter h)).2).
Proof.
  induction times as [|t times IH]; intros h Hapi; [by destruct h|].
  simpl. unfold Routes.withRateLimit. rewrite Hapi. simpl.
  destruct (allow ip t (Routes.apiRateLimiter h)) as [l1 ok].
  destruct ok; simpl;
    rewrite (IH (Routes.set_apiRateLimiter h l1)) by done; simpl;
    by destruct (allows ip times l1) as [l2 oks].
Qed.

(** The rate limit of the API.  Requests to a path under [/api/] from an
    address the limiter does not know yet: the first opens a window, and
    of it and the requests that follow inside the window the first
    [limit] go on to the handler, while each further one is refused with
    429 and [Retry-After: 60].  Requests to other paths always go on and
    leave the limiter alone. *)
Theorem api_requests_within_budget path ip t0 times h :
  let l := Routes.apiRateLimiter h in
  entries l !! ip = None →
  1 ≤ limit l ≤ GoInt.maxInt →
  0 ≤ GoInt.mul (window l) 3 →
  Forall (λ t, Sub t t0 < window l) times →
  if GoStrings.HasPrefix path "/api/"
  then
    (served path ip (t0 :: times) h).2
    = replicate (S (length times) `min` Z.to_nat (limit l)) None
      ++ replicate (S (length times) - Z.to_nat (limit l))
           (Some (Handler.StatusTooManyRequests, "60"%string))
  else
    served path ip (t0 :: times) h = (h, replicate (S (length times)) None).
Proof.
  intros l Hnone Hlimit Hwin Htimes. subst l.
  destruct (GoStrings.HasPrefix path "/api/") eqn:Hapi.
  - rewrite served_allows by done. cbn [snd].
    rewrite (budget_fresh ip t0 times (Routes.apiRateLimiter h)) by done.
    by rewrite fmap_app, !fmap_replicate.
  - clear Htimes. change (S (length times)) with (length (t0 :: times)).
    generalize (t0 :: times). intros ts.
    induction ts as [|t ts IH]; [done|].
    simpl. unfold Routes.withRateLimit. rewrite Hapi. simpl.
    by rewrite IH.
Qed.

Lemma api_requests_within_budget_witness :
  let h :=
    Routes.NewHandler "panel" (Routes.mkOptions 65536 12582912 2 20 5 false) in
  (served "/api/v1/devices" "10.0.0.1" [t0; t0 + Second; t0 + 2 * Second] h).2
  = [None; None; Some (429, "60"%string)].
Proof.
  intros h.
  assert (entries (Routes.apiRateLimiter h) !! "10.0.0.1"%string = None)
    as Hnew by (by vm_compute).
  assert (1 ≤ limit (Routes.apiRateLimiter h) ≤ GoInt.maxInt)
    as Hlimit by (by vm_compute).
  assert (0 ≤ GoInt.mul (window (Routes.apiRateLimiter h)) 3)
    as Hwin by (by vm_compute).
  assert (Forall (λ t, Sub t t0 < window (Routes.apiRateLimiter h))
            [t0 + Second; t0 + 2 * Second]) as Htimes
    by (repeat constructor; by vm_compute).
  exact (api_requests_within_budget "/api/v1/devices" "10.0.0.1" t0
           [t0 + Second; t0 + 2 * Second] h Hnew Hlimit Hwin Htimes).
Defined.

End RateLimit.

(** ** Liveness after a heartbeat *)

Module Liveness.
Import GoTime Model Store History Examples StoreFacts Reads.

(** A heartbeat keeps a device online for [offlineAfter].  After
    [AddHeartbeat] of an authenticated device at [now], whatever becomes
    of the snapshot write, the device is stored as seen and heard at
    [now]; and [GetDevice] at [now'] returns it online exactly when [now'
    - now ≤ offlineAfter], offline otherwise. *)
Theorem heartbeat_keeps_online
    deviceID deviceToken now io s d now' offlineAfter :
  requireDeviceLocked s deviceID deviceToken = Ok d →
  no_saturation now' offlineAfter now →
  let s1 := (AddHeartbeat deviceID deviceToken now io s).1 in
  let d1 :=
    Device.set_Status
      (Device.set_LastHeartbeatAt (Device.set_LastSeenAt d now) now)
      DeviceStatusOnline in
  Devices (state s1) !! deviceID = Some d1
  ∧ (GetDevice deviceID now' offlineAfter IOSuccess s1).2
    = Ok (Device.set_Status d1
            (if bool_decide (now' - now ≤ offlineAfter)
             then DeviceStatusOnline else DeviceStatusOffline)).
Proof.
  intros Hreq Hrange s1 d1.
  assert (Devices (state s1) !! deviceID = Some d1) as Hd1.
  { subst s1. unfold AddHeartbeat. rewrite Hreq. cbv zeta.
    rewrite persistLocked_state. simpl. by rewrite lookup_insert_eq. }
  split; [done|]. unfold GetDevice. rewrite Hd1.
  rewrite refreshStatus_exact by done. simpl. by rewrite CloneDevice_id.
Qed.

Lemma heartbeat_keeps_online_witness :
  let s1 := (AddHeartbeat "d1" d1_token (t0 + Minute) IOSuccess with_d1).1 in
  ∃ d,
    (GetDevice "d1" (t0 + Minute + 90 * Second) (90 * Second) IOSuccess s1).2
    = Ok (Device.set_Status d DeviceStatusOnline)
    ∧ (GetDevice "d1" (t0 + Minute + 91 * Second) (90 * Second) IOSuccess
         s1).2
      = Ok (Device.set_Status d DeviceStatusOffline).
Proof.
  intros s1.
  assert (requireDeviceLocked with_d1 "d1" d1_token
          = Ok (Device.mk "d1" "u1" "i1" "s1" "r1" d1_token t0 t0 t0 zeroTime
                  zeroTime None None DeviceStatusOnline)) as Hreq
    by (by vm_compute).
  assert (∀ now', no_saturation now' (90 * Second) (t0 + Minute)) as Hrange
    by (intros; left; by vm_compute).
  destruct (heartbeat_keeps_online "d1" d1_token (t0 + Minute) IOSuccess
              with_d1 _ (t0 + Minute + 90 * Second) (90 * Second) Hreq
              (Hrange _)) as [_ Hon].
  destruct (heartbeat_keeps_online "d1" d1_token (t0 + Minute) IOSuccess
              with_d1 _ (t0 + Minute + 91 * Second) (90 * Second) Hreq
              (Hrange _)) as [_ Hoff].
  eexists. split; [exact Hon|exact Hoff].
Defined.

End Liveness.

(** ** What a loaded configuration guarantees *)

Module ConfigRules.
Import GoTime Config HTTPAPI Examples.

Lemma Atoi_range s v :
  Strconv.Atoi s = Some v → - 2 ^ 63 ≤ v ≤ 2 ^ 63 - 1.
Proof.
  unfold Strconv.Atoi. repeat case_match; intros; simplify_eq;
    match goal with
    | H : _ && _ = true |- _ =>
        apply andb_true_iff in H as [?%Z.leb_le ?%Z.leb_le]
    end; lia.
Qed.

Lemma getEnvInt_range env key def :
  - 2 ^ 63 ≤ def ≤ 2 ^ 63 - 1 →
  - 2 ^ 63 ≤ getEnvInt env key def ≤ 2 ^ 63 - 1.
Proof.
  intros Hdef. unfold getEnvInt. case_decide; [done|].
  destruct (Strconv.Atoi _) as [v|] eqn:Hv; [|done].
  by apply Atoi_range in Hv.
Qed.

Lemma getEnv_set env key def : def ≠ ""%string → getEnv env key def ≠ ""%string.
Proof. intros Hdef. unfold getEnv. by case_decide. Qed.

Section Rules.
Variable TrimSpace : string → string.
Variable ParseDuration : string → option Duration.
Variable env : gmap string string.

(** A configuration [Load] returned has passed each test of [Load], and
    its numbers and its plain address came through [getEnvInt] and
    [getEnv]. *)
Lemma Load_passed cfg :
  Load TrimSpace ParseDuration env = Loaded cfg →
  ((FleetLimit cfg <=? 0) = false
   ∧ OperatorPassword cfg ≠ ""%string
   ∧ DeviceEnrollKey cfg ≠ ""%string
   ∧ (MaxJSONBytes cfg <? 1024) = false
   ∧ (MaxArtifactBytes cfg <? MaxJSONBytes cfg) = false
   ∧ ((APIRatePerMinute cfg <=? 0) || (LoginRatePerMinute cfg <=? 0)
      || (LoginBurst cfg <=? 0)) = false
   ∧ ((bool_decide (HTTPSAddr cfg ≠ "") || bool_decide (TLSCertFile cfg ≠ "")
       || bool_decide (TLSKeyFile cfg ≠ ""))
      && (bool_decide (HTTPSAddr cfg = "") || bool_decide (TLSCertFile cfg = "")
          || bool_decide (TLSKeyFile cfg = ""))) = false)
  ∧ FleetLimit cfg = getEnvInt env "FLEET_LIMIT" 10
  ∧ APIRatePerMinute cfg = getEnvInt env "API_RATE_PER_MINUTE" 180
  ∧ LoginRatePerMinute cfg = getEnvInt env "LOGIN_RATE_PER_MINUTE" 20
  ∧ LoginBurst cfg = getEnvInt env "LOGIN_BURST" 5
  ∧ HTTPAddr cfg = getEnv env "HTTP_ADDR" ":8080".
Proof.
  unfold Load. cbv zeta.
  cbn [FleetLimit OperatorPassword DeviceEnrollKey MaxJSONBytes
       MaxArtifactBytes APIRatePerMinute LoginRatePerMinute LoginBurst
       HTTPSAddr TLSCertFile TLSKeyFile].
  destruct (getEnvInt env "FLEET_LIMIT" _ <=? 0) eqn:H1; [done|].
  destruct (decide (TrimSpace _ = "")) as [|H2]; [done|].
  destruct (decide (TrimSpace _ = "")) as [|H3]; [done|].
  destruct (getEnvInt env "MAX_JSON_BYTES" _ <? 1024) eqn:H4; [done|].
  destruct (getEnvInt env "MAX_ARTIFACT_BYTES" _ <? _) eqn:H5; [done|].
  destruct ((_ <=? 0) || (_ <=? 0) || (_ <=? 0)) eqn:H6; [done|].
  destruct (_ && _) eqn:H7; [done|].
  by intros [= <-].
Qed.

(** [Load] returns a configuration only if it passes every check: a
    positive fleet limit, a password and an enrolment key that are not
    empty, a JSON cap of at least 1024 bytes and an artifact cap not
    below it, positive rates and burst, and the three TLS settings all
    set or all empty.  The numbers fit a 64-bit [int], and the plain
    listen address is never empty. *)
Theorem Load_accepts_only_valid cfg :
  Load TrimSpace ParseDuration env = Loaded cfg →
  0 < FleetLimit cfg ≤ GoInt.maxInt
  ∧ OperatorPassword cfg ≠ ""%string
  ∧ DeviceEnrollKey cfg ≠ ""%string
  ∧ 1024 ≤ MaxJSONBytes cfg ≤ MaxArtifactBytes cfg
  ∧ 0 < APIRatePerMinute cfg ≤ GoInt.maxInt
  ∧ 0 < LoginRatePerMinute cfg ≤ GoInt.maxInt
  ∧ 0 < LoginBurst cfg ≤ GoInt.maxInt
  ∧ HTTPAddr cfg ≠ ""%string
  ∧ (HTTPSAddr cfg = ""%string ∧ TLSCertFile cfg = ""%string
     ∧ TLSKeyFile cfg = ""%string
     ∨ HTTPSAddr cfg ≠ ""%string ∧ TLSCertFile cfg ≠ ""%string
       ∧ TLSKeyFile cfg ≠ ""%string).
Proof.
  intros Hload.
  destruct (Load_passed cfg Hload)
    as ((H1 & H2 & H3 & H4 & H5 & H6 & H7) & Efleet & Eapi & Elogin & Eburst
        & Eaddr).
  pose proof (getEnvInt_range env "FLEET_LIMIT" 10) as Hfleet.
  pose proof (getEnvInt_range env "API_RATE_PER_MINUTE" 180) as Hapi.
  pose proof (getEnvInt_range env "LOGIN_RATE_PER_MINUTE" 20) as Hlogin.
  pose proof (getEnvInt_range env "LOGIN_BURST" 5) as Hburst.
  rewrite <-Efleet in Hfleet. rewrite <-Eapi in Hapi.
  rewrite <-Elogin in Hlogin. rewrite <-Eburst in Hburst.
  apply orb_false_iff in H6 as [H6 H8].
  apply orb_false_iff in H6 as [H6 H9].
  apply Z.leb_gt in H1, H6, H8, H9. apply Z.ltb_ge in H4, H5.
  unfold GoInt.maxInt.
  repeat split; try done; try lia.
  - rewrite Eaddr. by apply getEnv_set.
  - apply andb_false_iff in H7 as [H7|H7].
    + left. apply orb_false_iff in H7 as [H7 Hk].
      apply orb_false_iff in H7 as [Ha Hc].
      apply bool_decide_eq_false in Ha, Hc, Hk.
      repeat split; by apply dec_stable.
    + right. apply orb_false_iff in H7 as [H7 Hk].
      apply orb_false_iff in H7 as [Ha Hc].
      by apply bool_decide_eq_false in Ha, Hc, Hk.
Qed.
End Rules.

Lemma Load_accepts_only_valid_witness :
  0 < FleetLimit (defaults Strings.TrimSpaceASCII) ≤ GoInt.maxInt.
Proof.
  apply (Load_accepts_only_valid Strings.TrimSpaceASCII no_durations ∅).
  by vm_compute.
Defined.

(** What [main] builds from a loaded configuration takes every value
    from it: no fallback of [NewHandler], [newIPRateLimiter] or
    [newLoginGuard] applies.  The caps, the API limit per minute and the
    login rate and burst are the configured ones, the windows last a
    minute and a block sixty seconds; the server listens on the HTTPS
    address exactly when TLS is configured, and then has a certificate
    and a key. *)
Theorem main_takes_loaded_values TrimSpace ParseDuration env cfg :
  Load TrimSpace ParseDuration env = Loaded cfg →
  let h := Main.api cfg in
  Routes.maxJSONBytes h = MaxJSONBytes cfg
  ∧ Routes.maxArtifactBytes h = MaxArtifactBytes cfg
  ∧ limit (Routes.apiRateLimiter h) = APIRatePerMinute cfg
  ∧ window (Routes.apiRateLimiter h) = Minute
  ∧ entries (Routes.apiRateLimiter h) = ∅
  ∧ burst (Routes.loginGuard h) = LoginBurst cfg
  ∧ blockFor (Routes.loginGuard h) = 60 * Second
  ∧ limit (perIPRate (Routes.loginGuard h)) = LoginRatePerMinute cfg
  ∧ window (perIPRate (Routes.loginGuard h)) = Minute
  ∧ Auth.password (Main.opAuth cfg) = OperatorPassword cfg
  ∧ Auth.ttl (Main.opAuth cfg) = OperatorTokenTTL cfg
  ∧ Main.Addr cfg ≠ ""%string
  ∧ (Main.useTLS cfg = true →
     Main.Addr cfg = HTTPSAddr cfg ∧ TLSCertFile cfg ≠ ""%string
     ∧ TLSKeyFile cfg ≠ ""%string)
  ∧ (Main.useTLS cfg = false →
     Main.Addr cfg = HTTPAddr cfg ∧ TLSCertFile cfg = ""%string
     ∧ TLSKeyFile cfg = ""%string).
Proof.
  intros Hload h.
  destruct (Load_passed TrimSpace ParseDuration env cfg Hload)
    as ((_ & _ & _ & Hjson & Hcaps & Hrates & Htls) & _ & _ & _ & _ & Eaddr).
  apply orb_false_iff in Hrates as [Hrates Hburst].
  apply orb_false_iff in Hrates as [Hapi Hlogin].
  apply Z.ltb_ge in Hjson.
  assert ((MaxJSONBytes cfg <=? 0) = false) as Hpos by (apply Z.leb_gt; lia).
  subst h. unfold Main.api, Routes.NewHandler, newLoginGuard,
    newIPRateLimiter, Main.Addr, Main.useTLS.
  cbn [Routes.MaxJSONBytes Routes.MaxArtifactBytes Routes.APIRatePerMinute
       Routes.LoginRatePerMin Routes.LoginBurst].
  rewrite Hpos, Hcaps, Hapi, Hlogin, Hburst.
  do 11 (split; [done|]).
  destruct (decide (HTTPSAddr cfg = "")) as [Hplain|Htlsaddr].
  - rewrite bool_decide_eq_false_2 by (intros Hne; by apply Hne).
    split; [rewrite Eaddr; by apply getEnv_set|]. split; [done|].
    intros _. split; [done|].
    rewrite (bool_decide_eq_false_2 (HTTPSAddr cfg ≠ "")) in Htls
      by (intros Hne; by apply Hne).
    rewrite (bool_decide_eq_true_2 (HTTPSAddr cfg = "")) in Htls by done.
    rewrite andb_true_r in Htls. apply orb_false_iff in Htls as [Hc Hk].
    apply bool_decide_eq_false in Hc, Hk. split; by apply dec_stable.
  - rewrite bool_decide_eq_true_2 by done.
    split; [done|]. split; [|done].
    intros _. split; [done|].
    rewrite (bool_decide_eq_true_2 (HTTPSAddr cfg ≠ "")) in Htls by done.
    rewrite (bool_decide_eq_false_2 (HTTPSAddr cfg = "")) in Htls by done.
    simpl in Htls. apply orb_false_iff in Htls as [Hc Hk].
    by apply bool_decide_eq_false in Hc, Hk.
Qed.

Lemma main_takes_loaded_values_witness :
  limit (Routes.apiRateLimiter (Main.api (defaults Strings.TrimSpaceASCII)))
  = 180.
Proof.
  destruct (main_takes_loaded_values Strings.TrimSpaceASCII no_durations ∅
              (defaults Strings.TrimSpaceASCII)) as (_ & _ & Hlimit & _);
    [by vm_compute|exact Hlimit].
Defined.

End ConfigRules.

(** ** The rules of the service layer *)

Module ServiceRules.
Import GoTime Model Store History Examples StoreFacts Traffic Service.

(** What the capabilities endpoint lists is what the service knows. *)
Lemma SupportedCommandTypes_spec (type : string) :
  type ∈ SupportedCommandTypes ↔ type ∈ supportedCommandTypes.
Proof.
  unfold SupportedCommandTypes, Sort.Slice.
  by rewrite merge_sort_Permutation, elem_of_elements.
Qed.

Section Rules.
Variable TrimSpace : string → string.
Variable Valid : bytes → bool.
Variable DecodeString : string → option bytes.
Variable cfg : Config.Config.

(** Enrolment needs the key.  [RegisterDevice] of the service refuses a
    request with another enrolment key, or with a [device_id] that is
    empty once trimmed, and leaves the store alone.  When it answers, the
    key was right, the answer carries the poll and heartbeat intervals 3
    and 10, and the token in it is the one the store now holds for the
    trimmed [device_id], in memory and in the snapshot. *)
Theorem enrolment_needs_the_key req now rng io s :
  let r := Service.RegisterDevice TrimSpace cfg req now rng io s in
  let deviceID := TrimSpace (RegisterDeviceRequest.DeviceID req) in
  (RegisterDeviceRequest.EnrollKey req ≠ Config.DeviceEnrollKey cfg →
   r = (s, Failed (Message "invalid enroll key")))
  ∧ (RegisterDeviceRequest.EnrollKey req = Config.DeviceEnrollKey cfg →
     deviceID = ""%string →
     r = (s, Failed (Message "device_id is required")))
  ∧ (∀ resp, r.2 = Done resp →
       RegisterDeviceRequest.EnrollKey req = Config.DeviceEnrollKey cfg
       ∧ deviceID ≠ ""%string
       ∧ RegisterDeviceResponse.PollIntervalSec resp = 3
       ∧ RegisterDeviceResponse.HeartbeatIntervalSec resp = 10
       ∧ persisted r.1
       ∧ ∃ d, Devices (state r.1) !! deviceID = Some d
              ∧ Device.DeviceToken d = RegisterDeviceResponse.DeviceToken resp).
Proof.
  intros r deviceID. subst r deviceID. unfold Service.RegisterDevice.
  split; [|split].
  - intros Hkey. by rewrite decide_True.
  - intros Hkey Hid. rewrite decide_False by (by intros ?).
    by rewrite decide_True.
  - intros resp. case_decide as Hkey; [done|]. case_decide as Hid; [done|].
    destruct (Store.RegisterDevice _ _ _ _ _ _ _ _ _) as [s' [[d created]|e]]
      eqn:Hreg; [|done].
    simpl. intros [= <-]. simpl. do 4 (split; [done|]).
    unfold Store.RegisterDevice in Hreg.
    destruct (Devices (state s) !! _) as [existing|] eqn:Hk;
      cbv zeta in Hreg; rewrite CloneDevice_id in Hreg;
      repeat (case_match; simplify_eq/=); destruct io; simplify_eq/=;
      (split; [done|]); eexists; (split; [apply lookup_insert_eq|done]).
Qed.

(** A reported result is normalised.  When [DeviceCommandResult]
    returns a command, its status is [success] if the request said
    exactly that and [failed] for every other word, the stored result
    carries the same status with the message, metrics and data of the
    request, [completed_at] is the time of the call, and the command
    sits in the queue of the device under the trimmed identifier. *)
Theorem reported_result_is_normalised req now io s c :
  let r := Service.DeviceCommandResult TrimSpace req now io s in
  let status :=
    if decide (DeviceCommandResultRequest.Status req = CommandSuccess)
    then CommandSuccess else CommandFailed in
  r.2 = Done c →
  Command.Status c = status
  ∧ Command.Result c
    = Some (CommandResult.mk status (DeviceCommandResultRequest.Message req)
              (DeviceCommandResultRequest.Metrics req)
              (DeviceCommandResultRequest.Data req))
  ∧ Command.CompletedAt c = Some now
  ∧ Command.CommandID c = TrimSpace (DeviceCommandResultRequest.CommandID req)
  ∧ c ∈ queue r.1 (TrimSpace (DeviceCommandResultRequest.DeviceID req)).
Proof.
  intros r status. subst r status. unfold Service.DeviceCommandResult.
  case_match; [done|]. cbv zeta. unfold CompleteCommand.
  destruct (requireDeviceLocked _ _ _) as [device|]; [|by simpl].
  destruct (list_find _ _) as [[i item]|] eqn:Hfind; [|by simpl].
  apply list_find_Some in Hfind as (Hi & Hid & _).
  assert (i < length (default [] (CommandsByID (state s)
                                   !! TrimSpace
                                        (DeviceCommandResultRequest.DeviceID
                                           req))))%nat as Hlt
    by (by eapply lookup_lt_Some).
  assert (∀ status : CommandStatus,
            status = CommandSuccess ∨ status = CommandFailed →
            (if decide (status = "") then CommandFailed else status) = status)
    as Hset.
  { intros status [->| ->]; by vm_compute. }
  assert (∃ status,
            (status = CommandSuccess ∨ status = CommandFailed)
            ∧ (if decide (DeviceCommandResultRequest.Status req
                          ≠ CommandSuccess)
               then CommandFailed
               else DeviceCommandResultRequest.Status req) = status
            ∧ (if decide (DeviceCommandResultRequest.Status req
                          = CommandSuccess)
               then CommandSuccess else CommandFailed) = status)
    as (status & Hstatus & -> & ->).
  { destruct (decide (DeviceCommandResultRequest.Status req = CommandSuccess))
      as [Hs|Hs].
    - exists CommandSuccess. rewrite decide_False by (intros Hne; by apply Hne).
      by rewrite Hs; auto.
    - exists CommandFailed. rewrite decide_True by done. auto. }
  unfold CommandResult.set_Status. simpl.
  assert ((if decide (status = "")
           then CommandResult.mk CommandFailed
                  (DeviceCommandResultRequest.Message req)
                  (DeviceCommandResultRequest.Metrics req)
                  (DeviceCommandResultRequest.Data req)
           else CommandResult.mk status
                  (DeviceCommandResultRequest.Message req)
                  (DeviceCommandResultRequest.Metrics req)
                  (DeviceCommandResultRequest.Data req))
          = CommandResult.mk status
              (DeviceCommandResultRequest.Message req)
              (DeviceCommandResultRequest.Metrics req)
              (DeviceCommandResultRequest.Data req)) as ->.
  { destruct Hstatus as [->| ->]; by vm_compute. }
  simpl.
  assert (Command.Status
            (if decide (status = CommandSuccess)
             then Command.set_Status
                    (Command.set_Result
                       (Command.set_CompletedAt item (Some now))
                       (Some (CommandResult.mk status
                                (DeviceCommandResultRequest.Message req)
                                (DeviceCommandResultRequest.Metrics req)
                                (DeviceCommandResultRequest.Data req))))
                    CommandSuccess
             else Command.set_Status
                    (Command.set_Result
                       (Command.set_CompletedAt item (Some now))
                       (Some (CommandResult.mk status
                                (DeviceCommandResultRequest.Message req)
                                (DeviceCommandResultRequest.Metrics req)
                                (DeviceCommandResultRequest.Data req))))
                    CommandFailed) = status) as Hfinal.
  { destruct Hstatus as [->| ->]; by vm_compute. }
  destruct io; simpl; try done; intros [= <-]; rewrite cloneCommand_id;
    (split; [exact Hfinal|]);
    (split; [by case_decide|]); (split; [by case_decide|]);
    (split; [by case_decide|]); unfold queue; simpl;
    rewrite lookup_insert_eq; simpl;
    apply list_elem_of_lookup; exists i; by rewrite list_lookup_insert_eq.
Qed.

(** A command the operator creates is well formed.  When
    [OperatorCreateCommand] returns a command, its type is one of the
    supported ones, its device is known, its payload is valid JSON
    (the text [{}] when the request had none), it is queued, and it is
    the last command of the queue of its device.  A request the service
    itself refuses, for a missing field, an unsupported type or an
    invalid payload, leaves the store alone. *)
Theorem created_command_is_well_formed req operator now rng io s :
  let r := Service.OperatorCreateCommand TrimSpace Valid req operator now rng
             io s in
  (∀ c, r.2 = Done c →
     Command.Type_ c = TrimSpace (OperatorCommandRequest.Type_ req)
     ∧ Command.Type_ c ∈ SupportedCommandTypes
     ∧ Command.DeviceID c = TrimSpace (OperatorCommandRequest.DeviceID req)
     ∧ is_Some (Devices (state s) !! Command.DeviceID c)
     ∧ Command.Payload c
       = (if decide (OperatorCommandRequest.Payload req = [])
          then bytes_of_string "{}" else OperatorCommandRequest.Payload req)
     ∧ Valid (Command.Payload c) = true
     ∧ Command.Status c = CommandQueued
     ∧ Command.CreatedBy c = operator
     ∧ Command.CreatedAt c = now
     ∧ last (queue r.1 (Command.DeviceID c)) = Some c)
  ∧ (∀ text, r.2 = Failed (Message text) → r.1 = s).
Proof.
  intros r. subst r. unfold Service.OperatorCreateCommand. cbv zeta.
  destruct (bool_decide _ || bool_decide _) eqn:Hreq; [by split|].
  destruct (bool_decide (TrimSpace (OperatorCommandRequest.Type_ req)
                         ∈ supportedCommandTypes)) eqn:Htype;
    [|by split].
  apply bool_decide_eq_true in Htype. cbn [negb].
  assert ((if decide (length (OperatorCommandRequest.Payload req) = 0%nat)
           then bytes_of_string "{}" else OperatorCommandRequest.Payload req)
          = (if decide (OperatorCommandRequest.Payload req = [])
             then bytes_of_string "{}" else OperatorCommandRequest.Payload req))
    as ->.
  { destruct (OperatorCommandRequest.Payload req) as [|b payload].
    - by rewrite !decide_True.
    - by rewrite !decide_False. }
  set (payload := if decide (OperatorCommandRequest.Payload req = [])
                  then bytes_of_string "{}"
                  else OperatorCommandRequest.Payload req).
  destruct (Valid payload) eqn:Hvalid; [|by split]. cbn [negb].
  unfold AddCommand.
  destruct (Devices (state s) !! _) as [d|] eqn:Hd; [|by split].
  cbv zeta. rewrite cloneCommand_id.
  split; [|by destruct io].
  intros c Hc.
  assert (io = IOSuccess) as -> by (by destruct io).
  cbn [persistLocked prod_map fst snd passed id] in *.
  injection Hc as <-. cbn [Command.Type_ Command.DeviceID Command.Payload
    Command.Status Command.CreatedBy Command.CreatedAt app].
  split; [done|]. split; [by apply SupportedCommandTypes_spec|].
  split; [done|]. split; [by rewrite Hd|]. do 5 (split; [done|]).
  unfold queue, put_commands, set_files, set_state. cbn [state CommandsByID
    set_CommandsByID].
  rewrite lookup_insert_eq. apply last_snoc.
Qed.

(** A device gets an artifact only with its token.  When
    [DeviceGetArtifact] returns an artifact, the store held the device
    with exactly the trimmed token, and the artifact is the one stored
    under the trimmed identifier.  A request without the right token is
    refused with the store untouched, whether or not the artifact
    exists.  An authenticated request for an artifact that does not
    exist fails with [ErrArtifactNotFound], and the device still counts
    as seen at [now]. *)
Theorem device_download_requires_token deviceID deviceToken artifactID now io s :
  let r := Service.DeviceGetArtifact TrimSpace deviceID deviceToken artifactID
             now io s in
  (∀ a, r.2 = Done a →
     (∃ d, Devices (state s) !! TrimSpace deviceID = Some d
           ∧ Device.DeviceToken d = TrimSpace deviceToken)
     ∧ Artifacts (state s) !! TrimSpace artifactID = Some a)
  ∧ (∀ e, requireDeviceLocked s (TrimSpace deviceID) (TrimSpace deviceToken)
          = Err e →
       r.1 = s ∧ ∃ e', r.2 = Failed e')
  ∧ (∀ d, requireDeviceLocked s (TrimSpace deviceID) (TrimSpace deviceToken)
          = Ok d →
       TrimSpace deviceID ≠ ""%string →
       TrimSpace deviceToken ≠ ""%string →
       TrimSpace artifactID ≠ ""%string →
       Artifacts (state s) !! TrimSpace artifactID = None →
       (io = IOSuccess → r.2 = Failed (StoreError ErrArtifactNotFound))
       ∧ Device.LastSeenAt <$> Devices (state r.1) !! TrimSpace deviceID
         = Some now).
Proof.
  intros r. subst r. unfold Service.DeviceGetArtifact. cbv zeta.
  unfold requireDeviceLocked, ValidateDeviceToken, GetArtifact.
  split; [|split].
  - intros a.
    destruct (bool_decide _ || bool_decide _ || bool_decide _); [done|].
    destruct (Devices (state s) !! TrimSpace deviceID) as [d|] eqn:Hd;
      [|by simpl].
    destruct (decide (Device.DeviceToken d ≠ TrimSpace deviceToken))
      as [|Htoken]; [by simpl|].
    apply dec_stable in Htoken.
    destruct io; simpl; try done;
      (destruct (Artifacts (state s) !! TrimSpace artifactID) as [a'|];
       [|done]); simpl; rewrite cloneArtifact_id; intros [= <-]; eauto.
  - intros e He.
    destruct (Devices (state s) !! TrimSpace deviceID) as [d|] eqn:Hd.
    + destruct (decide (Device.DeviceToken d ≠ TrimSpace deviceToken));
        [|done].
      destruct (bool_decide _ || bool_decide _ || bool_decide _);
        simpl; eauto.
    + destruct (bool_decide _ || bool_decide _ || bool_decide _);
        simpl; eauto.
  - intros d Hd Hid Htoken Hart Hnone.
    rewrite !bool_decide_eq_false_2 by done. simpl.
    destruct (Devices (state s) !! TrimSpace deviceID) as [d'|]; [|done].
    destruct (decide (Device.DeviceToken d' ≠ TrimSpace deviceToken));
      [done|].
    split; [intros ->; simpl; by rewrite Hnone|].
    destruct io; simpl; by rewrite lookup_insert_eq.
Qed.
End Rules.

Lemma reported_result_is_normalised_witness :
  ∃ c,
    (Service.DeviceCommandResult Strings.TrimSpaceASCII
       (DeviceCommandResultRequest.mk " d1 " d1_token command_id "done" "ok"
          None None)
       (t0 + Second) IOSuccess with_command).2 = Done c
    ∧ Command.Status c = CommandFailed.
Proof.
  eexists. split; [by vm_compute|].
  apply (reported_result_is_normalised Strings.TrimSpaceASCII
           (DeviceCommandResultRequest.mk " d1 " d1_token command_id "done"
              "ok" None None)
           (t0 + Second) IOSuccess with_command).
  by vm_compute.
Defined.

End ServiceRules.

(** ** The handler: uploads, the operator gate, listings, body size *)

Module HandlerRules.
Import GoTime Model Store History Examples StoreFacts Traffic Service Routes
  GoStrings TelemetryHistory OperatorSessions.

Lemma HasPrefix_app (prefix rest : string) :
  HasPrefix (prefix +:+ rest) prefix = true.
Proof.
  unfold HasPrefix. induction prefix as [|c prefix IH]; simpl.
  - by destruct rest.
  - by case_match.
Qed.

Lemma HasPrefix_inv (s prefix : string) :
  HasPrefix s prefix = true → ∃ rest, s = prefix +:+ rest.
Proof.
  unfold HasPrefix. revert s.
  induction prefix as [|c prefix IH]; intros s; simpl.
  - intros _. by exists s.
  - destruct s as [|c' s]; simpl; [done|].
    case_match; [subst c'|done].
    intros [rest ->]%IH. by exists rest.
Qed.

Lemma substring_all (s : string) :
  String.substring 0 (String.length s) s = s.
Proof. induction s as [|c s IH]; simpl; [done|]. by rewrite IH. Qed.

Lemma substring_tail (prefix rest : string) :
  String.substring (String.length prefix) (String.length rest)
    (prefix +:+ rest) = rest.
Proof.
  induction prefix as [|c prefix IH]; simpl; [apply substring_all|done].
Qed.

Lemma TrimPrefix_app (prefix rest : string) :
  TrimPrefix (prefix +:+ rest) prefix = rest.
Proof.
  unfold TrimPrefix. rewrite HasPrefix_app.
  replace (String.length (prefix +:+ rest) - String.length prefix)%nat
    with (String.length rest); [apply substring_tail|].
  induction prefix as [|c prefix IH]; simpl; [|exact IH].
  by rewrite Nat.sub_0_r.
Qed.

Section Rules.
Variable TrimSpace : string → string.
Variable mapToLower : string → string.
Variable DecodeString : string → option bytes.
Variable osError : string.

#[local] Abbreviation status_of :=
  (writeErrorFromDomain mapToLower osError) (only parsing).

(** What an upload is answered with.  A request whose name or data is
    empty once trimmed gets 400.  Data that is not valid base64, or that
    decodes to no bytes, gets 500: the messages for these two say
    neither "required" nor "unsupported" nor "invalid".  In all these
    cases the store is left alone.  Data that decodes to bytes the store
    has no artifact for, with the snapshot written, gets 201 and the new
    artifact: the trimmed name, the content type (or
    [application/octet-stream] for none), the operator as author and the
    decoded bytes. *)
Theorem upload_outcomes req now io s :
  let r := handleUploadArtifact TrimSpace mapToLower DecodeString osError
             (Some req) now io s in
  let name := TrimSpace (OperatorArtifactRequest.Name req) in
  let base64Data := TrimSpace (OperatorArtifactRequest.Base64Data req) in
  let contentType := TrimSpace (OperatorArtifactRequest.ContentType req) in
  (name = ""%string ∨ base64Data = ""%string →
   r = (s, (Handler.StatusBadRequest, None)))
  ∧ (name ≠ ""%string → base64Data ≠ ""%string →
     DecodeString base64Data = None ∨ DecodeString base64Data = Some [] →
     r = (s, (StatusInternalServerError, None)))
  ∧ (∀ data,
       name ≠ ""%string → base64Data ≠ ""%string →
       DecodeString base64Data = Some data → data ≠ [] →
       Artifacts (state s) !! artifactID data = None →
       io = IOSuccess →
       r.2 = (StatusCreated,
              Some (Artifact.mk (artifactID data) name
                      (if decide (contentType = "")
                       then "application/octet-stream"%string
                       else contentType)
                      "operator" now data (digestHex data)))
       ∧ GetArtifact (artifactID data) r.1
         = Ok (Artifact.mk (artifactID data) name
                 (if decide (contentType = "")
                  then "application/octet-stream"%string
                  else contentType)
                 "operator" now data (digestHex data))).
Proof.
  intros r name base64Data contentType. subst r name base64Data contentType.
  unfold handleUploadArtifact, OperatorUploadArtifact. cbv zeta.
  split; [|split].
  - intros [Hname|Hdata].
    + rewrite decide_True by done. by vm_compute.
    + case_decide; [by vm_compute|].
      rewrite decide_True by done. by vm_compute.
  - intros Hname Hdata Hdecode.
    rewrite !decide_False by done.
    destruct Hdecode as [->| ->]; by vm_compute.
  - intros data Hname Hdata Hdecode Hsome Hfresh ->.
    rewrite !decide_False by done. rewrite Hdecode.
    rewrite decide_False by (by destruct data).
    unfold SaveArtifact, GetArtifact. rewrite Hfresh. simpl.
    rewrite lookup_insert_eq. by rewrite !cloneArtifact_id.
Qed.

(** The operator gate.  A request goes on exactly when its
    [Authorization] header is ["Bearer "] followed by text that, trimmed,
    is not empty and is a session stored with an expiry [now] has not
    passed; the sessions are then left as they are.  Every refusal is a
    401, and a header without a bearer token is refused without a look
    at the sessions. *)
Theorem operator_gate authorization now a :
  let r := requireOperator TrimSpace mapToLower osError authorization now a in
  (r.2 = None
   ↔ ∃ rest expiresAt,
       authorization = "Bearer " +:+ rest
       ∧ TrimSpace rest ≠ ""%string
       ∧ Auth.tokens a !! TrimSpace rest = Some expiresAt
       ∧ now ≤ expiresAt)
  ∧ (r.2 = None → r.1 = a)
  ∧ (r.2 ≠ None → r.2 = Some Handler.StatusUnauthorized)
  ∧ (bearerToken TrimSpace authorization = ""%string → r.1 = a).
Proof.
  intros r. subst r. unfold requireOperator, RequireOperator. cbv zeta.
  assert (∀ token,
            (Auth.Validate token now a).2 = None →
            Auth.Validate token now a = (a, None)) as Hsame.
  { intros token. unfold Auth.Validate. repeat case_match; simpl; congruence. }
  split; [|split; [|split]].
  - unfold bearerToken.
    destruct (HasPrefix authorization "Bearer ") eqn:Hprefix; simpl.
    + apply HasPrefix_inv in Hprefix as [rest ->].
      rewrite TrimPrefix_app.
      destruct (decide (TrimSpace rest = "")) as [Hempty|Hset]; simpl.
      * split; [done|]. intros (rest' & e & Heq & Hne & _).
        apply String.app_inj in Heq. congruence.
      * pose proof (Sessions.Validate_ok_iff a (TrimSpace rest) now) as Hiff.
        destruct (Auth.Validate (TrimSpace rest) now a) as [a' [err|]];
          simpl in *.
        -- split; [done|]. intros (rest' & e & Heq & _ & Hstored & Hlive).
           apply String.app_inj in Heq. subst rest'.
           assert (Some err = None) as Hno by (apply Hiff; eauto). done.
        -- split; [|done]. intros _.
           destruct (proj1 Hiff eq_refl) as (e & Hstored & Hlive).
           by exists rest, e.
    + split; [done|]. intros (rest & e & -> & _).
      by rewrite HasPrefix_app in Hprefix.
  - case_decide; [done|].
    destruct (Auth.Validate _ now a) as [a' [err|]] eqn:Hv; [done|].
    intros _. simpl. specialize (Hsame _ (f_equal snd Hv)).
    rewrite Hv in Hsame. congruence.
  - case_decide; [done|].
    destruct (Auth.Validate _ now a) as [a' [err|]] eqn:Hv; [|done].
    intros _. simpl. unfold Auth.Validate in Hv.
    repeat case_match; by simplify_eq.
  - intros Hnone. by rewrite decide_True.
Qed.

(** The token a login hands out opens the gate until it expires.  After
    [Login] with the right password and a lifetime that is not negative,
    a request whose header is ["Bearer "] followed by the token goes on
    at every instant up to the expiry [now + ttl], provided trimming
    leaves the token as it is. *)
Theorem issued_token_opens_gate now rng a now' :
  0 ≤ Auth.ttl a →
  let r := Auth.Login (Auth.password a) now rng a in
  let token := r.2.1.1 in
  TrimSpace token = token →
  now' ≤ now + Auth.ttl a →
  r.2 = (token, now + Auth.ttl a, None)
  ∧ requireOperator TrimSpace mapToLower osError ("Bearer " +:+ token) now'
      r.1 = (r.1, None).
Proof.
  intros Httl r token Htrim Hlive.
  pose proof (Login_stored now rng a Httl) as Hstored. fold r in Hstored.
  assert (r.2 = (Util.RandomToken "op" 16 rng, Add now (Auth.ttl a), None))
    as Hr by (subst r; by rewrite Login_right_password).
  assert (token = Util.RandomToken "op" 16 rng) as Htoken
    by (subst token; by rewrite Hr).
  rewrite Htoken in *. clear Htoken token.
  split; [exact Hr|]. clear Hr.
  generalize dependent (r.1). clear r. intros a1 Hstored.
  unfold requireOperator, bearerToken, RequireOperator.
  rewrite HasPrefix_app, TrimPrefix_app, Htrim. simpl.
  rewrite decide_False by (by destruct rng).
  unfold Auth.Validate. rewrite Hstored. simpl. unfold After, Add.
  by rewrite (proj2 (Z.ltb_ge _ _)) by lia.
Qed.

(** How device requests are refused.  For a device that is unknown or
    presents another token, [DeviceHeartbeat], [DeviceTelemetry],
    [DeviceLocation] and [DevicePullCommand] pass on the error of the
    store and leave the store alone; the handler answers 404 for an
    unknown device and 401 for a wrong token.  Telemetry, location and
    pull requests whose [device_id] or [device_token] is empty once
    trimmed never reach the store and are answered 400; a heartbeat has
    no such check and is answered by the store. *)
Theorem device_requests_refused deviceID deviceToken data location now io s :
  let id := TrimSpace deviceID in
  let token := TrimSpace deviceToken in
  let required := Message "device_id and device_token are required" in
  (∀ e, requireDeviceLocked s id token = Err e →
     DeviceHeartbeat TrimSpace (DeviceAuthRequest.mk deviceID deviceToken)
       now io s = (s, Some (StoreError e))
     ∧ (id ≠ ""%string → token ≠ ""%string →
        DeviceTelemetry TrimSpace
          (DeviceTelemetryRequest.mk deviceID deviceToken data) now io s
        = (s, Some (StoreError e))
        ∧ DeviceLocation TrimSpace
            (DeviceLocationRequest.mk deviceID deviceToken location) now io s
          = (s, Some (StoreError e))
        ∧ DevicePullCommand TrimSpace
            (DeviceAuthRequest.mk deviceID deviceToken) now io s
          = (s, Failed (StoreError e)))
     ∧ status_of (StoreError e)
       = match Devices (state s) !! id with
         | None => StatusNotFound
         | Some _ => Handler.StatusUnauthorized
         end)
  ∧ (id = ""%string ∨ token = ""%string →
     DeviceTelemetry TrimSpace
       (DeviceTelemetryRequest.mk deviceID deviceToken data) now io s
     = (s, Some required)
     ∧ DeviceLocation TrimSpace
         (DeviceLocationRequest.mk deviceID deviceToken location) now io s
       = (s, Some required)
     ∧ DevicePullCommand TrimSpace
         (DeviceAuthRequest.mk deviceID deviceToken) now io s
       = (s, Failed required)
     ∧ status_of required = Handler.StatusBadRequest).
Proof.
  intros id token required. subst id token required.
  unfold DeviceHeartbeat, DeviceTelemetry, DeviceLocation, DevicePullCommand.
  cbn [DeviceAuthRequest.DeviceID DeviceAuthRequest.DeviceToken
       DeviceTelemetryRequest.DeviceID DeviceTelemetryRequest.DeviceToken
       DeviceTelemetryRequest.Data DeviceLocationRequest.DeviceID
       DeviceLocationRequest.DeviceToken DeviceLocationRequest.Data].
  split.
  - intros e He.
    unfold AddHeartbeat, AddTelemetry, AddLocation, PullNextCommand.
    rewrite He. split; [done|]. split.
    + intros Hid Htoken. by rewrite !bool_decide_eq_false_2 by done.
    + unfold requireDeviceLocked in He.
      destruct (Devices (state s) !! TrimSpace deviceID) as [d|];
        [|by injection He as <-].
      destruct (decide (Device.DeviceToken d ≠ TrimSpace deviceToken));
        [by injection He as <-|done].
  - intros Hempty.
    assert (bool_decide (TrimSpace deviceID = "")
            || bool_decide (TrimSpace deviceToken = "") = true) as ->.
    { destruct Hempty as [Hid|Htoken].
      - by rewrite (bool_decide_eq_true_2 _ Hid).
      - rewrite (bool_decide_eq_true_2 _ Htoken). apply orb_true_r. }
    do 3 (split; [done|]). by vm_compute.
Qed.

End Rules.

Lemma issued_token_opens_gate_witness :
  requireOperator Strings.TrimSpaceASCII id ""
    "Bearer op_00000000000000000000000000000000" (t0 + 12 * Hour)
    (Auth.Login "lte_swd_admin" t0 zeros
       (Auth.NewOperatorAuth "lte_swd_admin" (12 * Hour))).1
  = ((Auth.Login "lte_swd_admin" t0 zeros
        (Auth.NewOperatorAuth "lte_swd_admin" (12 * Hour))).1, None).
Proof.
  apply (issued_token_opens_gate Strings.TrimSpaceASCII id "" t0 zeros
           (Auth.NewOperatorAuth "lte_swd_admin" (12 * Hour))
           (t0 + 12 * Hour)); by vm_compute.
Defined.

(** The size check of [decodeJSON].  Under a cap below the largest
    [int64], a body is read in full when it has at most [maxBytes] bytes
    (65536 when [maxBytes] is not positive) and refused as too large
    when it has more; nothing is ever cut off silently.  Under the
    largest [int64] as cap, the sum [maxBytes+1] wraps around and every
    body is read as empty. *)
Theorem readLimited_exact body maxBytes :
  let cap := if maxBytes <=? 0 then 64 * 1024 else maxBytes in
  (cap < GoInt.maxInt →
   readLimited body maxBytes
   = if Z.of_nat (length body) <=? cap then Some body else None)
  ∧ (maxBytes = GoInt.maxInt → readLimited body maxBytes = Some []).
Proof.
  intros cap. unfold readLimited. fold cap. split.
  - intros Hcap.
    assert (0 < cap) as Hpos
      by (subst cap; case_match; [lia|by apply Z.leb_gt]).
    unfold GoInt.add. rewrite LoginGuard.wrap_small
      by (unfold GoInt.maxInt in Hcap; lia).
    destruct (Z.of_nat (length body) <=? cap) eqn:Hfits.
    + apply Z.leb_le in Hfits. rewrite take_ge by lia.
      rewrite Z.gtb_ltb. by rewrite (proj2 (Z.ltb_ge _ _)) by lia.
    + apply Z.leb_gt in Hfits. rewrite length_take.
      rewrite (proj2 (Z.gtb_gt _ _)) by lia. done.
  - intros ->. subst cap. by vm_compute.
Qed.

End HandlerRules.

(** ** The shape of tokens and identifiers *)

Module Shapes.
Import GoTime Model Store Examples.

Lemma string_length_app (s1 s2 : string) :
  String.length (s1 +:+ s2) = (String.length s1 + String.length s2)%nat.
Proof. induction s1 as [|c s1 IH]; simpl; [done|]. by rewrite IH. Qed.

Lemma EncodeToString_length (src : bytes) :
  String.length (Hex.EncodeToString src) = (2 * length src)%nat.
Proof. induction src as [|b src IH]; simpl; [done|]. rewrite IH. lia. Qed.

(** Two digits spell the byte they were written for. *)
Lemma byte_of_digits (b : byte) :
  Unhex.byte_of (Hex.digit (Z.shiftr (byte_to_Z b) 4))
    (Hex.digit (Z.land (byte_to_Z b) 15)) = b.
Proof. destruct b; by vm_compute. Qed.

Lemma EncodeToString_inj (l1 l2 : bytes) :
  Hex.EncodeToString l1 = Hex.EncodeToString l2 → l1 = l2.
Proof.
  revert l2. induction l1 as [|b1 l1 IH]; intros [|b2 l2]; simpl; try done.
  intros [= Hhigh Hlow Hrest]. f_equal; [|by apply IH].
  rewrite <-(byte_of_digits b1), <-(byte_of_digits b2).
  by rewrite Hhigh, Hlow.
Qed.

(** A token made from a working generator is the prefix, an underscore
    and two hexadecimal digits for each random byte; and it keeps all of
    the randomness: two tokens of one prefix and length are equal only
    if every byte drawn was the same. *)
Theorem RandomToken_keeps_entropy prefix randomBytes (f g : nat → byte) :
  String.length (Util.RandomToken prefix randomBytes (Some f))
  = (String.length prefix + 1 + 2 * randomBytes)%nat
  ∧ (Util.RandomToken prefix randomBytes (Some f)
     = Util.RandomToken prefix randomBytes (Some g) →
     ∀ i, (i < randomBytes)%nat → f i = g i).
Proof.
  unfold Util.RandomToken. split.
  - rewrite !string_length_app, EncodeToString_length, length_map, length_seq.
    simpl. lia.
  - intros Heq i Hi.
    apply String.app_inj, String.app_inj, EncodeToString_inj in Heq.
    assert (map f (seq 0 randomBytes) !! i = map g (seq 0 randomBytes) !! i)
      as Hith by (by rewrite Heq).
    rewrite !list_lookup_fmap, lookup_seq_lt in Hith by done.
    by injection Hith.
Qed.

Lemma round_length (st : list Z) (kw : Z * Z) :
  length (SHA256.round st kw) = length st.
Proof.
  unfold SHA256.round.
  destruct st as [|a [|b [|c [|d [|e [|f [|g [|h [|i st]]]]]]]]]; done.
Qed.

Lemma block_length (h blk : list Z) :
  length (SHA256.block h blk) = length h.
Proof.
  unfold SHA256.block. cbv zeta. rewrite length_map, length_combine.
  match goal with
  | |- (_ `min` length (fold_left _ ?kw _))%nat = _ =>
      generalize kw; intros rounds
  end.
  assert (∀ st, length (fold_left SHA256.round rounds st) = length st) as ->.
  { induction rounds as [|kw rounds IH]; intros st; simpl; [done|].
    by rewrite IH, round_length. }
  lia.
Qed.

Lemma blocks_length (fuel : nat) : ∀ h bs,
  length (SHA256.blocks fuel h bs) = length h.
Proof.
  induction fuel as [|fuel IH]; intros h bs; simpl; [done|].
  destruct bs; [done|]. by rewrite IH, block_length.
Qed.

Lemma be_bytes_length (n : nat) (x : Z) : length (SHA256.be_bytes n x) = n.
Proof. induction n as [|n IH]; simpl; [done|]. by rewrite IH. Qed.

Lemma Sum256_length (data : bytes) : length (SHA256.Sum256 data) = 32%nat.
Proof.
  with_strategy transparent [SHA256.Sum256] unfold SHA256.Sum256.
  cbv zeta. rewrite length_map.
  match goal with
  | |- length (flat_map _ ?h) = _ =>
      assert (length h = 8%nat) as Hh
        by (by rewrite blocks_length); revert Hh; generalize h
  end.
  intros h Hh.
  destruct h as [|a [|b [|c [|d [|e [|f [|g [|h' [|i h]]]]]]]]]; try done.
Qed.

Lemma substring_length (n : nat) (s : string) :
  (n ≤ String.length s)%nat →
  String.length (String.substring 0 n s) = n.
Proof.
  revert s. induction n as [|n IH]; intros s Hn.
  - by destruct s.
  - destruct s as [|c s]; simpl in *; [lia|]. rewrite IH; [done|lia].
Qed.

(** Every payload, of any length, gets a digest of 64 hexadecimal digits
    and an identifier of 28 characters: ["art_"] and the first 24 digits
    of the digest. *)
Theorem artifact_identifier_shape (payload : bytes) :
  String.length (digestHex payload) = 64%nat
  ∧ String.length (artifactID payload) = 28%nat
  ∧ ∀ s name contentType createdBy now,
      Artifacts (state s) !! artifactID payload = None →
      ∃ s' a,
        SaveArtifact name contentType payload createdBy now IOSuccess s
        = (s', Ok a)
        ∧ String.length (Artifact.ArtifactID a) = 28%nat
        ∧ String.length (Artifact.PayloadSHA256 a) = 64%nat.
Proof.
  assert (String.length (digestHex payload) = 64%nat) as Hdigest.
  { unfold digestHex. by rewrite EncodeToString_length, Sum256_length. }
  assert (String.length (artifactID payload) = 28%nat) as Hid.
  { unfold artifactID. rewrite string_length_app, substring_length; [done|].
    rewrite Hdigest. lia. }
  split; [done|]. split; [done|].
  intros s name contentType createdBy now Hfresh.
  unfold SaveArtifact. rewrite Hfresh. simpl. eexists _, _.
  split; [done|]. by simpl.
Qed.

End Shapes.
